(** * aerie-seq-utils: the time module and the SeqN serializer

    A shallow embedding of [src/time.ts] and [src/seqJsonToSeqn.ts] together
    with the JavaScript built-ins they call (string methods, regular
    expressions, numbers, [Date]), followed by the properties of the
    specification that were checked against it.

    Conventions of the embedding:
    - a JavaScript string is a [string]; its characters are read as 8-bit
      code units (ASCII and Latin-1), which covers every literal of the code;
    - a JavaScript number is a [number]: [NaN] or an exact rational.  The
      model agrees with IEEE doubles on the integers below 2^53 in
      magnitude and on the short decimal fractions the code handles.
      Outside that range the code's numbers round, a numeral of 309 digits
      or more is read as [Infinity], and numbers from 10^21 on are printed
      with an exponent: none of this is in the model, and the theorems on
      numbers are stated for numerals within the range;
    - a regular expression is a [regex] term written after the literal of
      the source and run by a backtracking matcher that follows the priority
      order of ECMAScript (greedy quantifiers, leftmost alternative first);
    - [undefined] is [None]; a thrown exception is the left injection of a
      sum; the logger is an explicit list of messages. *)

From Stdlib Require Import ZArith QArith Qround Bool List Ascii String Lia.
From Stdlib Require Import DecimalString DecimalPos.
Import ListNotations.

#[local] Open Scope string_scope.
#[local] Open Scope Z_scope.

(* ================================================================== *)
(** * JavaScript built-ins *)
(* ================================================================== *)

Module Js.

(** ** Characters and strings *)

Definition code (c : ascii) : nat := nat_of_ascii c.

(** The double quote character, as a one-character string. *)
Definition dq : string := String (ascii_of_nat 34) "".

(** [\d] and [[0-9]]. *)
Definition is_digit (c : ascii) : bool :=
  (48 <=? code c)%nat && (code c <=? 57)%nat.

(** White space and line terminators below code 256: TAB, LF, VT, FF, CR,
    SP and NBSP.  This is [\s], and what [trim] removes. *)
Definition is_ws (c : ascii) : bool :=
  let n := code c in
  ((9 <=? n)%nat && (n <=? 13)%nat) || (n =? 32)%nat || (n =? 160)%nat.

Definition is_char (a : ascii) (c : ascii) : bool := Ascii.eqb a c.

(** A letter under the [i] flag: either case matches. *)
Definition is_char_i (lower upper : ascii) (c : ascii) : bool :=
  Ascii.eqb lower c || Ascii.eqb upper c.

Definition is_sign (c : ascii) : bool := is_char "+" c || is_char "-" c.

Definition in_range (lo hi : ascii) (c : ascii) : bool :=
  (code lo <=? code c)%nat && (code c <=? code hi)%nat.

Definition is_empty (s : string) : bool :=
  match s with EmptyString => true | _ => false end.

(** [String.prototype.trimStart]. *)
Fixpoint trimStart (s : string) : string :=
  match s with
  | String c s' => if is_ws c then trimStart s' else s
  | EmptyString => EmptyString
  end.

(** [String.prototype.trimEnd]. *)
Fixpoint trimEnd (s : string) : string :=
  match s with
  | String c s' =>
      let t := trimEnd s' in
      if is_ws c && is_empty t then EmptyString else String c t
  | EmptyString => EmptyString
  end.

(** [String.prototype.trim]. *)
Definition trim (s : string) : string := trimEnd (trimStart s).

(** [s.endsWith(c)] for a one-character argument. *)
Fixpoint endsWith (s : string) (c : ascii) : bool :=
  match s with
  | EmptyString => false
  | String a EmptyString => Ascii.eqb a c
  | String _ s' => endsWith s' c
  end.

(** Every character of [s] satisfies [p]. *)
Fixpoint all (p : ascii -> bool) (s : string) : bool :=
  match s with
  | String c s' => p c && all p s'
  | EmptyString => true
  end.

(** The first [n] characters of [s]. *)
Fixpoint take (n : nat) (s : string) : string :=
  match n, s with
  | S n', String c s' => String c (take n' s')
  | _, _ => EmptyString
  end.

(** [fill] repeated and cut to exactly [n] characters (empty when [fill] is). *)
Fixpoint repeat_to (n : nat) (fill cur : string) : string :=
  match n with
  | O => EmptyString
  | S n' =>
      match cur with
      | String c cur' => String c (repeat_to n' fill cur')
      | EmptyString =>
          match fill with
          | String c cur' => String c (repeat_to n' fill cur')
          | EmptyString => EmptyString
          end
      end
  end.

(** [s.padStart(n, fill)]. *)
Definition padStart (n : nat) (fill : string) (s : string) : string :=
  if (n <=? String.length s)%nat then s
  else repeat_to (n - String.length s) fill fill ++ s.

(** [l.join(sep)]. *)
Definition join (sep : string) (l : list string) : string := String.concat sep l.

(** ** Numbers *)

(** A number of the code: [NaN], or a rational that stands for the double
    of the same value.  The whole numbers below 2^53 in magnitude are
    doubles, and the arithmetic of the code on them is exact. *)
Inductive number : Type :=
| NaN
| Num (q : Q).

Definition num (z : Z) : number := Num (inject_Z z).

Definition lift2 (f : Q -> Q -> Q) (a b : number) : number :=
  match a, b with Num x, Num y => Num (Qred (f x y)) | _, _ => NaN end.

Definition nadd : number -> number -> number := lift2 Qplus.
Definition nsub : number -> number -> number := lift2 Qminus.
Definition nmul : number -> number -> number := lift2 Qmult.

(** [a / b]; every divisor in the code is a nonzero literal, so the
    infinities of a division by zero are left out of the model. *)
Definition ndiv (a b : number) : number :=
  match a, b with
  | Num x, Num y => if Qeq_bool y 0 then NaN else Num (Qred (x / y))
  | _, _ => NaN
  end.

(** [Math.floor]. *)
Definition Math_floor (a : number) : number :=
  match a with Num x => num (Qfloor x) | NaN => NaN end.

(** Truncation toward zero ([ToIntegerOrInfinity] on a finite number). *)
Definition Qtrunc (x : Q) : Z :=
  if Qle_bool 0 x then Qfloor x else Qceiling x.

(** [a % b]: the remainder has the sign of the dividend. *)
Definition nrem (a b : number) : number :=
  match a, b with
  | Num x, Num y =>
      if Qeq_bool y 0 then NaN
      else Num (Qred (x - y * inject_Z (Qtrunc (x / y)%Q)))
  | _, _ => NaN
  end.

(** [Math.max] of two numbers. *)
Definition Math_max (a b : number) : number :=
  match a, b with
  | Num x, Num y => if Qle_bool x y then Num y else Num x
  | _, _ => NaN
  end.

(** [a > b], [a === b] and [a !== b] on numbers; all false on [NaN] but the last. *)
Definition ngtb (a b : number) : bool :=
  match a, b with
  | Num x, Num y => negb (Qle_bool x y)
  | _, _ => false
  end.

Definition neqb (a b : number) : bool :=
  match a, b with
  | Num x, Num y => Qeq_bool x y
  | _, _ => false
  end.

(** The value of a decimal digit. *)
Definition digit_val (c : ascii) : Z := Z.of_nat (code c) - 48.

(** The longest prefix of [s] whose characters satisfy [p], and the rest. *)
Fixpoint span (p : ascii -> bool) (s : string) : string * string :=
  match s with
  | String c s' =>
      if p c then let (a, b) := span p s' in (String c a, b)
      else (EmptyString, s)
  | EmptyString => (EmptyString, EmptyString)
  end.

(** The value of a string of decimal digits read left to right from [acc]. *)
Fixpoint digits_val (acc : Z) (s : string) : Z :=
  match s with
  | String c s' => digits_val (10 * acc + digit_val c) s'
  | EmptyString => acc
  end.

Definition hex_val (c : ascii) : option Z :=
  if is_digit c then Some (digit_val c)
  else if in_range "a" "f" c then Some (Z.of_nat (code c) - 87)
  else if in_range "A" "F" c then Some (Z.of_nat (code c) - 55)
  else None.

Definition is_hex (c : ascii) : bool :=
  match hex_val c with Some _ => true | None => false end.

Fixpoint hex_digits_val (acc : Z) (s : string) : Z :=
  match s with
  | String c s' =>
      match hex_val c with
      | Some v => hex_digits_val (16 * acc + v) s'
      | None => acc
      end
  | EmptyString => acc
  end.

(** An optional sign in front of [s]: the factor it stands for and the rest. *)
Definition split_sign (s : string) : Z * string :=
  match s with
  | String c s' =>
      if is_char "-" c then (-1, s')
      else if is_char "+" c then (1, s')
      else (1, s)
  | EmptyString => (1, s)
  end.

(** [parseInt(s)] without a radix: white space, a sign, then hexadecimal
    digits after [0x] or the longest run of decimal digits.  The result is
    the integer of the digits, which is the code's for numerals below 2^53
    (a longer one is rounded there, and [Infinity] from 309 digits on). *)
Definition parseInt (s : string) : number :=
  let (sg, r) := split_sign (trimStart s) in
  match r with
  | String "0" (String x r') =>
      if is_char_i "x" "X" x then
        let (h, _) := span is_hex r' in
        if is_empty h then NaN else num (sg * hex_digits_val 0 h)
      else
        let (d, _) := span is_digit r in num (sg * digits_val 0 d)
  | _ =>
      let (d, _) := span is_digit r in
      if is_empty d then NaN else num (sg * digits_val 0 d)
  end.

(** The rational [sg * (int.frac)] of two digit strings. *)
Definition decimal_value (sg : Z) (int frac : string) : Q :=
  Qred (inject_Z sg *
        (inject_Z (digits_val 0 int)
         + inject_Z (digits_val 0 frac) / inject_Z (10 ^ Z.of_nat (String.length frac)))).

(** [parseFloat(s)]: white space, a sign, digits, and a fraction; the longest
    such prefix.  Exponents and the word [Infinity] are not read: no string
    the code passes contains either.  The result is the value as written,
    which is the code's for numerals of 15 digits at most (a longer one is
    rounded there, and an integer part of 309 digits or more is infinite). *)
Definition parseFloat (s : string) : number :=
  let (sg, r) := split_sign (trimStart s) in
  let (i, r1) := span is_digit r in
  match r1 with
  | String "." r2 =>
      let (f, _) := span is_digit r2 in
      if is_empty i && is_empty f then NaN else Num (decimal_value sg i f)
  | _ => if is_empty i then NaN else Num (decimal_value sg i "")
  end.

(** Unary plus on a string ([StringToNumber]): the whole trimmed string must
    be a decimal literal; the empty string is 0.  Exponents, [Infinity] and
    the prefixed literals are not read. *)
Definition toNumber (s : string) : number :=
  let t := trim s in
  if is_empty t then num 0
  else
    let (sg, r) := split_sign t in
    let (i, r1) := span is_digit r in
    match r1 with
    | EmptyString => if is_empty i then NaN else Num (decimal_value sg i "")
    | String "." r2 =>
        let (f, r3) := span is_digit r2 in
        if negb (is_empty r3) || (is_empty i && is_empty f) then NaN
        else Num (decimal_value sg i f)
    | _ => NaN
    end.

(** The decimal numeral of an integer. *)
Definition Z_to_string (z : Z) : string := NilZero.string_of_int (Z.to_int z).

(** At most [fuel] decimals of [r / d], for [0 <= r < d]. *)
Fixpoint frac_digits (fuel : nat) (r d : Z) : string :=
  match fuel with
  | O => EmptyString
  | S f =>
      if r =? 0 then EmptyString
      else String (ascii_of_nat (48 + Z.to_nat (10 * r / d)))
                  (frac_digits f (10 * r mod d) d)
  end.

(** [String(x)], [x.toString()] and [`${x}`] on a number: an integer prints
    as its decimal numeral, a fraction in positional notation.  The exponent
    forms, which the code writes from 10^21 on and below 10^-6, are outside
    the model. *)
Definition toString (a : number) : string :=
  match a with
  | NaN => "NaN"
  | Num x =>
      let x := Qred x in
      let n := Qnum x in
      let d := Zpos (Qden x) in
      if d =? 1 then Z_to_string n
      else
        (if n <? 0 then "-" else "") ++
        Z_to_string (Z.abs n / d) ++ "." ++ frac_digits 17 (Z.abs n mod d) d
  end.

(** A property read off an object: [None] is [undefined]. *)
Definition toNumber_opt (v : option number) : number :=
  match v with Some n => n | None => NaN end.

Definition toString_opt (v : option number) : string :=
  match v with Some n => toString n | None => "undefined" end.

(** [parseFloat(x.toFixed(n))] on a finite number: [x] rounded to [n]
    decimals. *)
Definition toFixed_value (n : nat) (a : number) : number :=
  match a with
  | NaN => NaN
  | Num x =>
      let p := inject_Z (10 ^ Z.of_nat n) in
      Num (Qred (inject_Z (Qfloor (x * p + (1 # 2))%Q) / p))
  end.

End Js.

(* ================================================================== *)
(** * Regular expressions *)
(* ================================================================== *)

Module Re.
Import Js.

(** The fragment of ECMAScript patterns the code uses.  A capturing group
    that the code never reads is written [paren]; one it reads by position
    is a [Grp] named by its index. *)
Inductive regex : Type :=
| Eps
| Chr (p : ascii -> bool)            (* one character of a class *)
| Seq (a b : regex)                  (* ab *)
| Alt (a b : regex)                  (* a|b *)
| Opt (a : regex)                    (* a? *)
| Star (p : ascii -> bool)           (* [class]* *)
| Grp (name : string) (a : regex)    (* (?<name>a) *)
| Bol                                (* ^ *)
| Eol                                (* $ *)
| NotAhead (a : regex).              (* (?!a) *)

Definition paren (a : regex) : regex := a.
Definition Lit (c : ascii) : regex := Chr (is_char c).
Definition Plus (p : ascii -> bool) : regex := Seq (Chr p) (Star p).

(** [a{n}]. *)
Fixpoint Rep (n : nat) (a : regex) : regex :=
  match n with
  | O => Eps
  | S n' => Seq a (Rep n' a)
  end.

(** [a{0,n}], greedy. *)
Fixpoint UpTo (n : nat) (a : regex) : regex :=
  match n with
  | O => Eps
  | S n' => Opt (Seq a (UpTo n' a))
  end.

(** [a{m,n}] for [m <= n]. *)
Definition Between (m n : nat) (a : regex) : regex :=
  Seq (Rep m a) (UpTo (n - m) a).

Fixpoint Seqs (l : list regex) : regex :=
  match l with
  | [] => Eps
  | [a] => a
  | a :: l' => Seq a (Seqs l')
  end.

(** The groups that took part in a match, the latest first. *)
Definition caps : Type := list (string * string).

Fixpoint group (g : string) (c : caps) : option string :=
  match c with
  | [] => None
  | (k, v) :: c' => if String.eqb g k then Some v else group g c'
  end.

(** [groups.g], with the default a destructuring pattern gives it. *)
Definition group_or (g : string) (default : string) (c : caps) : string :=
  match group g c with Some v => v | None => default end.

(** What is done with the rest of the input once a prefix has matched:
    position, remaining input, captures. *)
Definition cont : Type := nat -> string -> caps -> option caps.

Definition accept : cont := fun _ _ c => Some c.

(** [p*] at position [i] of input [s], longest run first. *)
Fixpoint star (p : ascii -> bool) (i : nat) (s : string) (c : caps) (k : cont)
  : option caps :=
  match s with
  | String a s' =>
      if p a then
        match star p (S i) s' c k with
        | Some m => Some m
        | None => k i s c
        end
      else k i s c
  | EmptyString => k i s c
  end.

(** The backtracking matcher: [run r i s c k] matches [r] at position [i],
    where [s] is the input from [i] on, then hands over to [k]; the first
    success in priority order is the result. *)
Fixpoint run (r : regex) (i : nat) (s : string) (c : caps) (k : cont)
  : option caps :=
  match r with
  | Eps => k i s c
  | Chr p =>
      match s with
      | String a s' => if p a then k (S i) s' c else None
      | EmptyString => None
      end
  | Seq a b => run a i s c (fun i' s' c' => run b i' s' c' k)
  | Alt a b =>
      match run a i s c k with
      | Some m => Some m
      | None => run b i s c k
      end
  | Opt a =>
      match run a i s c k with
      | Some m => Some m
      | None => k i s c
      end
  | Star p => star p i s c k
  | Grp g a => run a i s c (fun i' s' c' => k i' s' ((g, take (i' - i) s) :: c'))
  | Bol => if (i =? 0)%nat then k i s c else None
  | Eol => if is_empty s then k i s c else None
  | NotAhead a =>
      match run a i s c accept with
      | Some _ => None
      | None => k i s c
      end
  end.

(** The leftmost match from position [i] on. *)
Fixpoint search (r : regex) (i : nat) (s : string) : option caps :=
  match run r i s [] accept with
  | Some m => Some m
  | None =>
      match s with
      | String _ s' => search r (S i) s'
      | EmptyString => None
      end
  end.

(** [r.exec(s)] and [s.match(r)] for a pattern without the [g] flag. *)
Definition exec (r : regex) (s : string) : option caps := search r 0 s.

(** [r.exec(s) !== null]. *)
Definition test (r : regex) (s : string) : bool :=
  match exec r s with Some _ => true | None => false end.

(** The matches of [r] as a relation: from position [i] with input [s] and
    captures [c], [r] can consume down to [s'] at position [i'], leaving
    captures [c']. *)
Fixpoint matches (r : regex) (i : nat) (s : string) (c : caps)
         (i' : nat) (s' : string) (c' : caps) : Prop :=
  match r with
  | Eps => i' = i /\ s' = s /\ c' = c
  | Chr p => exists a, s = String a s' /\ p a = true /\ i' = S i /\ c' = c
  | Seq a b =>
      exists i1 s1 c1, matches a i s c i1 s1 c1 /\ matches b i1 s1 c1 i' s' c'
  | Alt a b => matches a i s c i' s' c' \/ matches b i s c i' s' c'
  | Opt a => matches a i s c i' s' c' \/ (i' = i /\ s' = s /\ c' = c)
  | Star p =>
      exists w, s = w ++ s' /\ all p w = true
                /\ i' = (i + String.length w)%nat /\ c' = c
  | Grp g a =>
      exists c1, matches a i s c i' s' c1 /\ c' = (g, take (i' - i) s) :: c1
  | Bol => i = O /\ i' = i /\ s' = s /\ c' = c
  | Eol => s = EmptyString /\ i' = i /\ s' = s /\ c' = c
  | NotAhead a => run a i s c accept = None /\ i' = i /\ s' = s /\ c' = c
  end.

End Re.

(* ================================================================== *)
(** * The [Date] object *)
(* ================================================================== *)

(** Time values and the date functions of ECMA-262 (section Date Objects),
    on UTC; a time value is a number of milliseconds since the epoch. *)
Module JsDate.
Import Js.

Definition msPerDay : Z := 86400000.
Definition msPerHour : Z := 3600000.
Definition msPerMinute : Z := 60000.
Definition msPerSecond : Z := 1000.

Definition Day (t : Z) : Z := t / msPerDay.
Definition TimeWithinDay (t : Z) : Z := t mod msPerDay.

Definition DayFromYear (y : Z) : Z :=
  365 * (y - 1970) + (y - 1969) / 4 - (y - 1901) / 100 + (y - 1601) / 400.

Definition TimeFromYear (y : Z) : Z := msPerDay * DayFromYear y.

Definition DaysInYear (y : Z) : Z := DayFromYear (y + 1) - DayFromYear y.

(** The last year from [y] on that starts no later than day [d], looking at
    most [fuel] years ahead. *)
Fixpoint year_search (fuel : nat) (y d : Z) : Z :=
  match fuel with
  | O => y
  | S f => if DayFromYear (y + 1) <=? d then year_search f (y + 1) d else y
  end.

(** The largest [y] with [TimeFromYear y <= t]: searched upward from a year
    that starts no later than [t]. *)
Definition YearFromTime (t : Z) : Z :=
  let d := Day t in
  year_search (Z.to_nat (Z.abs d / 100000 + 2))
              (1970 + Z.min (d / 365) (d / 366)) d.

Definition HourFromTime (t : Z) : Z := (t / msPerHour) mod 24.
Definition MinFromTime (t : Z) : Z := (t / msPerMinute) mod 60.
Definition SecFromTime (t : Z) : Z := (t / msPerSecond) mod 60.
Definition msFromTime (t : Z) : Z := t mod msPerSecond.

(** Days of the year before month [m] (0 is January). *)
Definition DaysBeforeMonth (leap : Z) (m : Z) : Z :=
  match m with
  | 0 => 0
  | 1 => 31
  | 2 => 59 + leap
  | 3 => 90 + leap
  | 4 => 120 + leap
  | 5 => 151 + leap
  | 6 => 181 + leap
  | 7 => 212 + leap
  | 8 => 243 + leap
  | 9 => 273 + leap
  | 10 => 304 + leap
  | _ => 334 + leap
  end.

Definition MakeTime (hour min sec ms : Z) : Z :=
  hour * msPerHour + min * msPerMinute + sec * msPerSecond + ms.

Definition MakeDay (year month date : Z) : Z :=
  let ym := year + month / 12 in
  let mn := month mod 12 in
  DayFromYear ym + DaysBeforeMonth (DaysInYear ym - 365) mn + date - 1.

Definition MakeDate (day time : Z) : Z := day * msPerDay + time.

Definition TimeClip (t : Z) : number :=
  if 8640000000000000 <? Z.abs t then NaN else num t.

Definition toInteger (a : number) : option Z :=
  match a with Num x => Some (Qtrunc x) | NaN => None end.

(** [Date.UTC(year, month, date, hours, minutes, seconds, ms)]. *)
Definition UTC (year month date hours minutes seconds ms : number) : number :=
  match toInteger year, toInteger month, toInteger date, toInteger hours,
        toInteger minutes, toInteger seconds, toInteger ms with
  | Some y, Some m, Some dt, Some h, Some mi, Some s, Some milli =>
      let yr := if (0 <=? y) && (y <=? 99) then 1900 + y else y in
      TimeClip (MakeDate (MakeDay yr m dt) (MakeTime h mi s milli))
  | _, _, _, _, _, _, _ => NaN
  end.

(** A [Date] object is its time value; [NaN] is the invalid date. *)
Definition Date : Type := number.

(** [new Date(value)] for a number. *)
Definition newDate (value : number) : Date :=
  match value with Num x => TimeClip (Qtrunc x) | NaN => NaN end.

Definition on_time (f : Z -> Z) (d : Date) : number :=
  match d with Num x => num (f (Qfloor x)) | NaN => NaN end.

Definition getTime (d : Date) : number := d.
Definition getUTCFullYear : Date -> number := on_time YearFromTime.
Definition getUTCHours : Date -> number := on_time HourFromTime.
Definition getUTCMinutes : Date -> number := on_time MinFromTime.
Definition getUTCSeconds : Date -> number := on_time SecFromTime.
Definition getUTCMilliseconds : Date -> number := on_time msFromTime.

(** [getMilliseconds] is read in local time; a local offset is a whole
    number of seconds, so the milliseconds are those of UTC. *)
Definition getMilliseconds : Date -> number := on_time msFromTime.

End JsDate.

(* ================================================================== *)
(** * [src/time.ts] *)
(* ================================================================== *)

Module Time.
Import Js Re JsDate.

(** Modelled from the spec: the enumeration [TimeTypes] of [enums/time],
    which is not among the sources; its members are the kinds the
    specification lists for [validate]. *)
Module TimeTypes.
Inductive t : Type :=
| ABSOLUTE
| EPOCH
| RELATIVE
| EPOCH_SIMPLE
| RELATIVE_SIMPLE.
End TimeTypes.

Definition d2 : regex := Rep 2 (Chr is_digit).
Definition d3 : regex := Rep 3 (Chr is_digit).
Definition d4 : regex := Rep 4 (Chr is_digit).

(** [/^(\d{4})-(\d{3})T(\d{2}):(\d{2}):(\d{2})(?:\.(\d{3}))?$/] *)
Definition ABSOLUTE_TIME : regex :=
  Seqs [Bol; paren d4; Lit "-"; paren d3; Lit "T"; paren d2; Lit ":"; paren d2;
        Lit ":"; paren d2; Opt (Seq (Lit ".") (paren d3)); Eol].

(** [/^(?<doy>([0-9]{3}))?(T)?(?<hr>([0-9]{2})):(?<mins>([0-9]{2})):(?<secs>[0-9]{2})?(\.)?(?<ms>([0-9]+))?$/] *)
Definition RELATIVE_TIME : regex :=
  Seqs [Bol; Opt (Grp "doy" (paren d3)); Opt (paren (Lit "T"));
        Grp "hr" (paren d2); Lit ":"; Grp "mins" (paren d2); Lit ":";
        Opt (Grp "secs" d2); Opt (paren (Lit "."));
        Opt (Grp "ms" (paren (Plus is_digit))); Eol].

(** [/(\d+)(\.[0-9]+)?$/] *)
Definition RELATIVE_SIMPLE : regex :=
  Seqs [paren (Plus is_digit); Opt (paren (Seq (Lit ".") (Plus is_digit))); Eol].

(** [/^((?<sign>[+-]?))(?<doy>([0-9]{3}))?(T)?(?<hr>([0-9]{2})):(?<mins>([0-9]{2})):(?<secs>[0-9]{2})?(\.)?(?<ms>([0-9]+))?$/] *)
Definition EPOCH_TIME : regex :=
  Seqs [Bol; paren (Grp "sign" (Opt (Chr is_sign)));
        Opt (Grp "doy" (paren d3)); Opt (paren (Lit "T"));
        Grp "hr" (paren d2); Lit ":"; Grp "mins" (paren d2); Lit ":";
        Opt (Grp "secs" d2); Opt (paren (Lit "."));
        Opt (Grp "ms" (paren (Plus is_digit))); Eol].

(** [/(^[+-]?)(\d+)(\.[0-9]+)?$/] *)
Definition EPOCH_SIMPLE : regex :=
  Seqs [paren (Seq Bol (Opt (Chr is_sign))); paren (Plus is_digit);
        Opt (paren (Seq (Lit ".") (Plus is_digit))); Eol].

Definition validateTime (time : string) (type : TimeTypes.t) : bool :=
  match type with
  | TimeTypes.ABSOLUTE => test ABSOLUTE_TIME time
  | TimeTypes.EPOCH => test EPOCH_TIME time
  | TimeTypes.RELATIVE => test RELATIVE_TIME time
  | TimeTypes.EPOCH_SIMPLE => test EPOCH_SIMPLE time
  | TimeTypes.RELATIVE_SIMPLE => test RELATIVE_SIMPLE time
  end.

(** The object types of [types/time], read off the object literals that
    build them. *)
Record ParsedDurationString : Type := {
  days : number;
  hours : number;
  isNegative : bool;
  microseconds : number;
  milliseconds : number;
  minutes : number;
  seconds : number;
  years : number
}.

(** [partialReturn] of [parseDoyOrYmdTime]. *)
Record PartialReturn : Type := {
  hour : number;
  min : number;
  ms : number;
  sec : number;
  time : string;
  year : number
}.

(** What [parseDoyOrYmdTime] returns when it does not return [null]: the
    partial record with a day of year, or with a day and a month, or a
    duration. *)
Inductive ParsedTime : Type :=
| ParsedDoyString (p : PartialReturn) (doy : number)
| ParsedYmdString (p : PartialReturn) (day month : number)
| ParsedDuration (d : ParsedDurationString).

(** A function that returns or throws. *)
Inductive result (A : Type) : Type :=
| Ok (a : A)
| Throw (error : string).
Arguments Ok {A} a.
Arguments Throw {A} error.

(** The [units] parameter of [parseDurationString]. *)
Inductive Units : Type :=
| u_days | u_hours | u_minutes | u_seconds | u_milliseconds | u_microseconds.

Definition parseDOYDurationTime (doyTime : string) : option ParsedDurationString :=
  let isEpoch := validateTime doyTime TimeTypes.EPOCH in
  let matches := if isEpoch then exec EPOCH_TIME doyTime else exec RELATIVE_TIME doyTime in
  match matches with
  | Some m =>
      let sign := group_or "sign" "" m in
      let doy := group_or "doy" "0" m in
      let hr := group_or "hr" "0" m in
      let mins := group_or "mins" "0" m in
      let secs := group_or "secs" "0" m in
      let ms := group_or "ms" "0" m in
      let hoursNum := parseInt hr in
      let minuteNum := parseInt mins in
      let secondsNum := parseInt secs in
      let millisecondNum := parseInt ms in
      Some {| days := parseInt doy;
              hours := hoursNum;
              isNegative := negb (String.eqb sign "") && negb (String.eqb sign "+");
              microseconds := num 0;
              milliseconds := millisecondNum;
              minutes := minuteNum;
              seconds := secondsNum;
              years := num 0 |}
  | None => None
  end.

(** The pattern of [parseDoyOrYmdTime], built with the [i] flag:
    [^(?<year>\d{4})-(?:(?<month>(?:[0]?[0-9])|(?:[1][0-2]))-(?<day>(?:[0-2]?[0-9])|(?:[3][0-1]))|(?<doy>\d{1,3}))(?:T(?<time>(?<hour>[0-9]|[0-2][0-9])(?::(?<min>[0-9]|(?:[0-5][0-9])))?(?::(?<sec>[0-9]|(?:[0-5][0-9]))(?<dec>\.\d{1,${numDecimals}})?)?)?)?$] *)
Definition doyOrYmdRegex (numDecimals : nat) : regex :=
  Seqs [Bol; Grp "year" d4; Lit "-";
        Alt (Seqs [Grp "month" (Alt (Seq (Opt (Lit "0")) (Chr is_digit))
                                    (Seq (Lit "1") (Chr (in_range "0" "2"))));
                   Lit "-";
                   Grp "day" (Alt (Seq (Opt (Chr (in_range "0" "2"))) (Chr is_digit))
                                  (Seq (Lit "3") (Chr (in_range "0" "1"))))])
            (Grp "doy" (Between 1 3 (Chr is_digit)));
        Opt (Seq (Chr (is_char_i "t" "T"))
                 (Opt (Grp "time"
                    (Seqs [Grp "hour" (Alt (Chr is_digit)
                                           (Seq (Chr (in_range "0" "2")) (Chr is_digit)));
                           Opt (Seq (Lit ":")
                                    (Grp "min" (Alt (Chr is_digit)
                                                    (Seq (Chr (in_range "0" "5")) (Chr is_digit)))));
                           Opt (Seqs [Lit ":";
                                      Grp "sec" (Alt (Chr is_digit)
                                                     (Seq (Chr (in_range "0" "5")) (Chr is_digit)));
                                      Opt (Grp "dec" (Seq (Lit ".")
                                                          (Between 1 numDecimals (Chr is_digit))))])]))));
        Eol].

Definition parseDoyOrYmdTime_n (dateString : string) (numDecimals : nat)
  : option ParsedTime :=
  match exec (doyOrYmdRegex numDecimals) dateString with
  | Some matches =>
      let msPerSecond := num 1000 in
      let time := group_or "time" "00:00:00" matches in
      let hour := group_or "hour" "0" matches in
      let min := group_or "min" "0" matches in
      let sec := group_or "sec" "0" matches in
      let dec := group_or "dec" ".0" matches in
      let partialReturn :=
        {| hour := parseInt hour;
           min := parseInt min;
           ms := toFixed_value numDecimals (nmul (parseFloat dec) msPerSecond);
           sec := parseInt sec;
           time := time;
           year := match group "year" matches with
                   | Some year => parseInt year
                   | None => NaN
                   end |} in
      match group "doy" matches with
      | Some doy => Some (ParsedDoyString partialReturn (parseInt doy))
      | None =>
          Some (ParsedYmdString partialReturn
                  (match group "day" matches with Some day => parseInt day | None => NaN end)
                  (match group "month" matches with Some month => parseInt month | None => NaN end))
      end
  | None =>
      match parseDOYDurationTime dateString with
      | Some doyDuration => Some (ParsedDuration doyDuration)
      | None => None
      end
  end.

(** [parseDoyOrYmdTime] with its default [numDecimals = 6]. *)
Definition parseDoyOrYmdTime (dateString : string) : option ParsedTime :=
  parseDoyOrYmdTime_n dateString 6.

(** [([+-]?)(\d+)(\.\d+)?] *)
Definition validDurationValueRegex : regex :=
  Seqs [paren (Opt (Chr is_sign)); paren (Plus is_digit);
        Opt (paren (Seq (Lit ".") (Plus is_digit)))].

(** [((?<isNegative>-))?] *)
Definition validNegationRegex : regex :=
  Opt (paren (Grp "isNegative" (Lit "-"))).

(** [(?:\s*(?<name>value)suffix)]: the shape of the seven unit patterns. *)
Definition unitRegex (name : string) (suffix : regex) : regex :=
  Seqs [Star is_ws; Grp name validDurationValueRegex; suffix].

Definition validYearsDurationRegex := unitRegex "years" (Lit "y").
Definition validDaysDurationRegex := unitRegex "days" (Lit "d").
Definition validHoursDurationRegex := unitRegex "hours" (Lit "h").
Definition validMinutesDurationRegex :=
  unitRegex "minutes" (Seq (Lit "m") (NotAhead (Lit "s"))).
Definition validSecondsDurationRegex := unitRegex "seconds" (Lit "s").
Definition validMillisecondsDurationRegex :=
  unitRegex "milliseconds" (Seq (Lit "m") (Lit "s")).
Definition validMicrosecondsDurationRegex :=
  unitRegex "microseconds" (Seq (Lit "u") (Lit "s")).

Definition fullValidDurationRegex : regex :=
  Seqs [Bol; validNegationRegex;
        Opt validYearsDurationRegex; Opt validDaysDurationRegex;
        Opt validHoursDurationRegex; Opt validMinutesDurationRegex;
        Opt validSecondsDurationRegex; Opt validMillisecondsDurationRegex;
        Opt validMicrosecondsDurationRegex; Eol].

(** [^(?<sign>([+-]?))(?<int>(\d+))(?<decimal>\.(\d+))?$] *)
Definition bareNumberRegex : regex :=
  Seqs [Bol; Grp "sign" (paren (Opt (Chr is_sign))); Grp "int" (paren (Plus is_digit));
        Opt (Grp "decimal" (Seq (Lit ".") (paren (Plus is_digit)))); Eol].

Definition invalidTimeFormat : string :=
  "Invalid time format: Must be of format:
    1y 3d 2h 24m 35s 18ms 70us,
    [+/-]DOYThh:mm:ss[.sss],
    duration
    ".

(** The carry of the third path: [hi += Math.floor(lo / base); lo = lo % base]. *)
Definition carry (lo hi : number) (base : Z) : number * number :=
  (nrem lo (num base), nadd hi (Math_floor (ndiv lo (num base)))).

Definition parseDurationString (durationString : string) (units : Units)
  : result ParsedTime :=
  match exec fullValidDurationRegex durationString with
  | Some matches =>
      let isNegative := group_or "isNegative" "" matches in
      let years := group_or "years" "0" matches in
      let days := group_or "days" "0" matches in
      let hours := group_or "hours" "0" matches in
      let minutes := group_or "minutes" "0" matches in
      let seconds := group_or "seconds" "0" matches in
      let milliseconds := group_or "milliseconds" "0" matches in
      let microseconds := group_or "microseconds" "0" matches in
      Ok (ParsedDuration
            {| days := parseFloat days;
               hours := parseFloat hours;
               isNegative := negb (is_empty isNegative);
               microseconds := parseFloat microseconds;
               milliseconds := parseFloat milliseconds;
               minutes := parseFloat minutes;
               seconds := parseFloat seconds;
               years := parseFloat years |})
  | None =>
      match parseDoyOrYmdTime durationString with
      | Some durationTime => Ok durationTime
      | None =>
          match exec bareNumberRegex durationString with
          | Some matches =>
              let sign := group_or "sign" "" matches in
              let int := group_or "int" "0" matches in
              let decimal := group_or "decimal" "0" matches in
              let number := parseInt int in
              let decimalNum := if is_empty decimal then num 0 else parseFloat decimal in
              (* shift everything based on units *)
              let '(microsecond, millisecond, second, minute, hour, day) :=
                match units with
                | u_microseconds => (number, num 0, num 0, num 0, num 0, num 0)
                | u_milliseconds => (decimalNum, number, num 0, num 0, num 0, num 0)
                | u_seconds => (num 0, decimalNum, number, num 0, num 0, num 0)
                | u_minutes => (num 0, num 0, decimalNum, number, num 0, num 0)
                | u_hours => (num 0, num 0, num 0, decimalNum, number, num 0)
                | u_days => (num 0, num 0, num 0, num 0, decimalNum, number)
                end in
              let year := num 0 in
              (* normalize microseconds *)
              let '(microsecond, millisecond) := carry microsecond millisecond 1000000 in
              (* normalize milliseconds and seconds *)
              let '(millisecond, second) := carry millisecond second 1000 in
              (* normalize seconds and minutes *)
              let '(second, minute) := carry second minute 60 in
              (* normalize minutes and hours *)
              let '(minute, hour) := carry minute hour 60 in
              (* normalize hours and days *)
              let '(hour, day) := carry hour day 24 in
              (* normalize days and years *)
              let '(day, year) := carry day year 365 in
              Ok (ParsedDuration
                    {| days := day;
                       hours := hour;
                       isNegative := negb (String.eqb sign "") && negb (String.eqb sign "+");
                       microseconds := microsecond;
                       milliseconds := millisecond;
                       minutes := minute;
                       seconds := second;
                       years := year |})
          | None => Throw invalidTimeFormat
          end
      end
  end.

(** Reading a property of the value that [parseDurationString] returned as
    a [ParsedDurationString]: [undefined] when the value is one of the
    calendar records, which have none of the duration fields. *)
Definition duration_prop (f : ParsedDurationString -> number) (d : ParsedTime)
  : option number :=
  match d with
  | ParsedDuration r => Some (f r)
  | _ => None
  end.

Definition duration_isNegative (d : ParsedTime) : bool :=
  match d with
  | ParsedDuration r => isNegative r
  | _ => false
  end.

(** Reading [doy] and a field of [partialReturn] off the value that
    [parseDoyOrYmdTime] returned as a [ParsedDoyString]. *)
Definition doy_prop (p : ParsedTime) : option number :=
  match p with
  | ParsedDoyString _ doy => Some doy
  | _ => None
  end.

Definition partial_prop (f : PartialReturn -> number) (p : ParsedTime)
  : option number :=
  match p with
  | ParsedDoyString r _ | ParsedYmdString r _ _ => Some (f r)
  | ParsedDuration _ => None
  end.

(** [v === 0] and [v > n] on a property that may be [undefined]. *)
Definition is_zero (v : option number) : bool :=
  match v with Some n => neqb n (num 0) | None => false end.

Definition greater (v : option number) (n : Z) : bool :=
  ngtb (toNumber_opt v) (num n).

Definition convertDurationToDoy (duration : ParsedTime) : string :=
  let years :=
    if is_zero (duration_prop years duration) then "1970"
    else padStart 4 "0" (toString_opt (duration_prop years duration)) in
  let day := Math_max (num 1) (Math_floor (toNumber_opt (duration_prop days duration))) in
  let hours := padStart 2 "0" (toString_opt (duration_prop hours duration)) in
  let minutes := padStart 2 "0" (toString_opt (duration_prop minutes duration)) in
  let seconds := padStart 2 "0" (toString_opt (duration_prop seconds duration)) in
  let milliseconds :=
    padStart 3 "0"
      (toString (nmul (toNumber_opt (duration_prop milliseconds duration)) (num 1000))) in
  years ++ "-" ++ padStart 3 "0" (toString day) ++ "T" ++ hours ++ ":" ++ minutes
        ++ ":" ++ seconds ++ "." ++ milliseconds.

Definition getDoy (date : Date) : number :=
  let start := UTC (getUTCFullYear date) (num 0) (num 0) (num 0) (num 0) (num 0) (num 0) in
  let diff := nsub (getTime date) start in
  let oneDay := num 86400000 in
  Math_floor (ndiv diff oneDay).

Record DoyTimeComponents : Type := {
  c_doy : string;
  c_hours : string;
  c_mins : string;
  c_msecs : string;
  c_secs : string;
  c_year : string
}.

Definition getDoyTimeComponents (date : Date) : DoyTimeComponents :=
  {| c_doy := padStart 3 "0" (toString (getDoy date));
     c_hours := padStart 2 "0" (toString (getUTCHours date));
     c_mins := padStart 2 "0" (toString (getUTCMinutes date));
     c_msecs := padStart 3 "0" (toString (getUTCMilliseconds date));
     c_secs := padStart 2 "0" (toString (getUTCSeconds date));
     c_year := toString (getUTCFullYear date) |}.

Definition getDoyTime_opt (date : Date) (includeMsecs : bool) : string :=
  let c := getDoyTimeComponents date in
  let doyTimestamp :=
    c_year c ++ "-" ++ c_doy c ++ "T" ++ c_hours c ++ ":" ++ c_mins c ++ ":" ++ c_secs c in
  if includeMsecs && ngtb (getMilliseconds date) (num 0)
  then doyTimestamp ++ "." ++ c_msecs c
  else doyTimestamp.

(** [getDoyTime] with its default [includeMsecs = true]. *)
Definition getDoyTime (date : Date) : string := getDoyTime_opt date true.

(** [/(\d{4})-(\d{3})T(\d{2}):(\d{2}):(\d{2})\.?(\d{3})?/] *)
Definition unixEpochRegex : regex :=
  Seqs [Grp "1" d4; Lit "-"; Grp "2" d3; Lit "T"; Grp "3" d2; Lit ":";
        Grp "4" d2; Lit ":"; Grp "5" d2; Opt (Lit "."); Opt (Grp "6" d3)].

Definition getUnixEpochTime (doyTimestamp : string) : number :=
  match exec unixEpochRegex doyTimestamp with
  | Some match_ =>
      let year := group_or "1" "" match_ in
      let doy := group_or "2" "" match_ in
      let hours := group_or "3" "" match_ in
      let mins := group_or "4" "" match_ in
      let secs := group_or "5" "" match_ in
      let msecs := group_or "6" "0" match_ in
      UTC (toNumber year) (num 0) (toNumber doy) (toNumber hours) (toNumber mins)
          (toNumber secs) (toNumber msecs)
  | None => num 0
  end.

Definition getBalancedDuration (time : string) : result string :=
  match parseDurationString time u_seconds with
  | Throw e => Throw e
  | Ok duration =>
      let balancedTime :=
        getDoyTime (newDate (getUnixEpochTime (convertDurationToDoy duration))) in
      match parseDoyOrYmdTime balancedTime with
      | None => Throw "TypeError"
      | Some parsedBalancedTime =>
          let shouldIncludeDay :=
            greater (duration_prop days duration) 0
            || greater (doy_prop parsedBalancedTime) 1 in
          let sign := if duration_isNegative duration then "-" else "" in
          let day :=
            if shouldIncludeDay then
              padStart 3 "0"
                (toString
                   (nsub (toNumber_opt (doy_prop parsedBalancedTime))
                         (if greater (duration_prop days duration) 0 then num 0 else num 1)))
              ++ "T"
            else "" in
          let hour := padStart 2 "0" (toString_opt (partial_prop hour parsedBalancedTime)) in
          let minutes := padStart 2 "0" (toString_opt (partial_prop min parsedBalancedTime)) in
          let seconds := padStart 2 "0" (toString_opt (partial_prop sec parsedBalancedTime)) in
          let milliseconds := padStart 3 "0" (toString_opt (partial_prop ms parsedBalancedTime)) in
          Ok (sign ++ day ++ hour ++ ":" ++ minutes ++ ":" ++ seconds ++ "." ++ milliseconds)
      end
  end.

(** The object type [DurationTimeComponents] of [types/time], read off the
    object literal that builds it. *)
Record DurationTimeComponents : Type := {
  dc_days : string;
  dc_hours : string;
  dc_isNegative : string;
  dc_microseconds : string;
  dc_milliseconds : string;
  dc_minutes : string;
  dc_seconds : string;
  dc_years : string
}.

Definition getDurationTimeComponents (duration : ParsedDurationString)
  : DurationTimeComponents :=
  {| dc_days :=
       if negb (neqb (days duration) (num 0))
       then padStart 3 "0" (toString (days duration)) else "";
     dc_hours := padStart 2 "0" (toString (hours duration));
     dc_isNegative := if isNegative duration then "-" else "";
     dc_microseconds :=
       if negb (neqb (microseconds duration) (num 0))
       then padStart 3 "0" (toString (microseconds duration)) else "";
     dc_milliseconds :=
       if negb (neqb (milliseconds duration) (num 0))
       then padStart 3 "0" (toString (milliseconds duration)) else "";
     dc_minutes := padStart 2 "0" (toString (minutes duration));
     dc_seconds := padStart 2 "0" (toString (seconds duration));
     dc_years := padStart 4 "0" (toString (years duration)) |}.

End Time.

(* ================================================================== *)
(** * [src/seqJsonToSeqn.ts] *)
(* ================================================================== *)

Module SeqJson.
Import Js.

Definition nl : string := String (ascii_of_nat 10) "".

(** ** The logger *)

(** A computation that may call [logError]: its value and the messages it
    logged, in order. *)
Definition Log (A : Type) : Type := (A * list string)%type.

Definition ret {A : Type} (a : A) : Log A := (a, []).

Definition bind {A B : Type} (m : Log A) (f : A -> Log B) : Log B :=
  let (a, l) := m in let (b, l') := f a in (b, (l ++ l')%list).

Definition logError (message : string) : Log unit := (tt, [message]).

Notation "x <- m ;; k" := (bind m (fun x => k))
  (at level 61, m at next level, right associativity).
Notation "m ;;; k" := (bind m (fun _ => k))
  (at level 61, right associativity).

(** A [for ... of] loop that updates one variable. *)
Fixpoint for_of {A S : Type} (body : S -> A -> Log S) (l : list A) (s : S) : Log S :=
  match l with
  | [] => ret s
  | a :: l' => s' <- body s a ;; for_of body l' s'
  end.

(** ** JSON values *)

#[local] Set Warnings "-register-all".

Inductive json : Type :=
| JNull
| JBool (b : bool)
| JNum (n : number)
| JStr (s : string)
| JArr (l : list json)
| JObj (l : list (string * json)).

(** Truthiness of a property that may be absent. *)
Definition truthy (v : option json) : bool :=
  match v with
  | None | Some JNull => false
  | Some (JBool b) => b
  | Some (JNum n) => match n with NaN => false | Num q => negb (Qeq_bool q 0) end
  | Some (JStr s) => negb (is_empty s)
  | Some (JArr _) | Some (JObj _) => true
  end.

Definition hex_digit (n : nat) : ascii :=
  if (n <? 10)%nat then ascii_of_nat (48 + n) else ascii_of_nat (87 + n).

(** [QuoteJSONString] without its quotes. *)
Fixpoint json_escape (s : string) : string :=
  match s with
  | EmptyString => EmptyString
  | String c s' =>
      let n := code c in
      (if (n =? 34)%nat then "\" ++ dq
       else if (n =? 92)%nat then "\\"
       else if (n =? 8)%nat then "\b"
       else if (n =? 12)%nat then "\f"
       else if (n =? 10)%nat then "\n"
       else if (n =? 13)%nat then "\r"
       else if (n =? 9)%nat then "\t"
       else if (n <? 32)%nat then
         "\u00" ++ String (hex_digit (n / 16)) (String (hex_digit (n mod 16)) "")
       else String c "") ++ json_escape s'
  end.

Definition json_quote (s : string) : string := dq ++ json_escape s ++ dq.

(** [JSON.stringify(v, null, 2)] at the indentation [indent]. *)
Fixpoint stringify_at (indent : string) (v : json) : string :=
  let stepback := indent in
  let indent := indent ++ "  " in
  match v with
  | JNull => "null"
  | JBool b => if b then "true" else "false"
  | JNum n => match n with NaN => "null" | Num _ => toString n end
  | JStr s => json_quote s
  | JArr [] => "[]"
  | JArr l =>
      "[" ++ nl ++ indent
          ++ join ("," ++ nl ++ indent) (map (stringify_at indent) l)
          ++ nl ++ stepback ++ "]"
  | JObj [] => "{}"
  | JObj l =>
      "{" ++ nl ++ indent
          ++ join ("," ++ nl ++ indent)
               (map (fun kv => match kv with
                               | (k, x) => json_quote k ++ ": " ++ stringify_at indent x
                               end) l)
          ++ nl ++ stepback ++ "}"
  end.

Definition JSON_stringify (v : json) : string := stringify_at "" v.

(** ** The document model *)

(** A value that is a string, a number or a boolean. *)
Inductive prim : Type :=
| PString (s : string)
| PNumber (n : number)
| PBoolean (b : bool).

Definition boolean_toString (b : bool) : string := if b then "true" else "false".

(** [`${v}`]. *)
Definition template (v : prim) : string :=
  match v with
  | PString s => s
  | PNumber n => toString n
  | PBoolean b => boolean_toString b
  end.

(** A time by its [type]; [OtherTime] is a time whose [type] is none of
    the four, which [seqJsonTimeToSequence] sends to its [default] case. *)
Inductive Time : Type :=
| ABSOLUTE (tag : option string)
| COMMAND_COMPLETE
| COMMAND_RELATIVE (tag : option string)
| EPOCH_RELATIVE (tag : option string)
| OtherTime.

Inductive BaseArgument : Type :=
| StringArgument (value : string)
| NumberArgument (value : number)
| BooleanArgument (value : bool)
| SymbolArgument (value : string)
| HexArgument (value : string).

(** An element of a repeat argument's value: an array of base arguments, or
    something that is not an array. *)
Inductive RepeatArgSet : Type :=
| ArgSet (repeatArgSet : list BaseArgument)
| SetNotArray.

(** The value of a repeat argument: an array, or something that is not. *)
Inductive RepeatValue : Type :=
| RepeatSets (value : list RepeatArgSet)
| ValueNotArray.

Inductive Argument : Type :=
| BaseArg (arg : BaseArgument)
| RepeatArgument (value : RepeatValue).

Definition Args : Type := list Argument.

(** A metadata object, as the list [Object.entries] gives: one entry per
    key, in the order of the object. *)
Definition Metadata : Type := list (string * json).

Record Model : Type := {
  variable : prim;
  value : prim;
  offset : string
}.

Record Range : Type := { min : number; max : number }.

Record VariableDeclaration : Type := {
  name : string;
  type : option string;
  enum_name : option string;
  allowable_ranges : option (list Range);
  allowable_values : option (list prim)
}.

(** A step by its [type]; [OtherStep] is a step whose [type] is none of
    the five, for which the [switch] over the steps has no case. *)
Inductive Step : Type :=
| Command (time : Time) (stem : string) (args : Args)
          (description : option string) (metadata : option Metadata)
          (models : option (list Model))
| Activate (time : Time) (sequence : string) (args : option Args)
           (description : option string) (engine : option number)
           (epoch : option string) (metadata : option Metadata)
           (models : option (list Model))
| Load (time : Time) (sequence : string) (args : option Args)
       (description : option string) (engine : option number)
       (epoch : option string) (metadata : option Metadata)
       (models : option (list Model))
| GroundBlock (time : Time) (name : string) (args : option Args)
              (description : option string) (metadata : option Metadata)
              (models : option (list Model))
| GroundEvent (time : Time) (name : string) (args : option Args)
              (description : option string) (metadata : option Metadata)
              (models : option (list Model))
| OtherStep.

Record ImmediateCommand : Type := {
  i_stem : string;
  i_args : Args;
  i_description : option string;
  i_metadata : option Metadata
}.

Record HardwareCommand : Type := {
  h_stem : string;
  h_description : option string;
  h_metadata : option Metadata
}.

Record GroundEpoch : Type := {
  delta : option string;
  g_name : option string
}.

Record Request : Type := {
  r_name : string;
  r_steps : list Step;
  r_time : option Time;
  r_ground_epoch : option GroundEpoch;
  r_description : option string;
  r_metadata : option Metadata
}.

Record SeqJson : Type := {
  id : string;
  parameters : option (list VariableDeclaration);
  locals : option (list VariableDeclaration);
  s_metadata : option Metadata;
  steps : option (list Step);
  immediate_commands : option (list ImmediateCommand);
  hardware_commands : option (list HardwareCommand);
  requests : option (list Request)
}.

(** ** The serializer *)

(** Modelled from the spec: [quoteEscape] of [parse-utils], which is not
    among the sources.  The specification says that strings are
    quote-escaped: the text goes between double quotes, and a double quote
    inside it is preceded by a backslash. *)
Fixpoint escape_quotes (s : string) : string :=
  match s with
  | EmptyString => EmptyString
  | String c s' =>
      if (code c =? 34)%nat then "\" ++ dq ++ escape_quotes s'
      else String c (escape_quotes s')
  end.

Definition quoteEscape (s : string) : string := dq ++ escape_quotes s ++ dq.

(** [tag ?? ''] *)
Definition or_empty (v : option string) : string :=
  match v with Some s => s | None => "" end.

(** [v ? f(v) : ''] on an optional string: the empty string is falsy. *)
Definition if_string (v : option string) (f : string -> string) : string :=
  match v with
  | Some s => if is_empty s then "" else f s
  | None => ""
  end.

(** [v ? f(v) : ''] on an optional object or array: present is truthy. *)
Definition if_present {A : Type} (v : option A) (f : A -> string) : string :=
  match v with Some a => f a | None => "" end.

Definition seqJsonTimeToSequence (time : Time) : string :=
  match time with
  | ABSOLUTE tag => "A" ++ or_empty tag
  | COMMAND_COMPLETE => "C"
  | COMMAND_RELATIVE tag => "R" ++ or_empty tag
  | EPOCH_RELATIVE tag => "E" ++ or_empty tag
  | OtherTime => ""
  end.

Definition seqJsonBaseArgToSequence (arg : BaseArgument) : string :=
  match arg with
  | StringArgument value => quoteEscape value
  | NumberArgument value => toString value
  | BooleanArgument value => boolean_toString value
  | SymbolArgument value => value
  | HexArgument value => value
  end.

(** The body of the loop over the argument sets of a repeat argument. *)
Definition repeatArgSet_body (repeatResult : string) (repeatArgSet : RepeatArgSet)
  : Log string :=
  match repeatArgSet with
  | ArgSet l =>
      ret (trim (fold_left
                   (fun repeatResult repeatArg =>
                      repeatResult ++ " " ++ seqJsonBaseArgToSequence repeatArg)
                   l repeatResult))
  | SetNotArray =>
      logError "Repeat arg set value is not an array" ;;; ret repeatResult
  end.

(** The body of the loop over the arguments. *)
Definition arg_body (result : string) (arg : Argument) : Log string :=
  let result := result ++ " " in
  result <- match arg with
            | RepeatArgument (RepeatSets value) =>
                repeatResult <- for_of repeatArgSet_body value "" ;;
                ret (result ++ "[" ++ repeatResult ++ "]")
            | RepeatArgument ValueNotArray =>
                logError "Repeat arg value is not an array" ;;; ret result
            | BaseArg arg => ret (result ++ seqJsonBaseArgToSequence arg)
            end ;;
  ret (trimEnd result).

Definition seqJsonArgsToSequence (args : Args) : Log string :=
  result <- for_of arg_body args "" ;;
  ret (if is_empty (trim result) then "" else " " ++ trim result).

Definition modelToString (model : Model) : string :=
  let formattedValue :=
    match value model with
    | PString s => quoteEscape s
    | PBoolean b => boolean_toString b
    | PNumber n => toString n
    end in
  "@MODEL "
    ++ match variable model with
       | PString s => quoteEscape s
       | v => dq ++ template v ++ dq
       end
    ++ " " ++ formattedValue ++ " " ++ quoteEscape (offset model).

Definition seqJsonModelsToSequence (models : list Model) : string :=
  let modelString := join nl (map modelToString models) in
  if is_empty modelString then "" else modelString ++ nl.

Definition metadataEntryToString (entry : string * json) : string :=
  let (key, value) := entry in
  "@METADATA " ++ quoteEscape key ++ " " ++ JSON_stringify value.

Definition seqJsonMetadataToSequence (metadata : Metadata) : string :=
  let metaDataString := join nl (map metadataEntryToString metadata) in
  if is_empty metaDataString then "" else metaDataString ++ nl.

Definition rangeToString (range : Range) : string :=
  toString (min range) ++ "..." ++ toString (max range).

(** The callback of [variables.map] in [seqJsonVariableToSequence]. *)
Definition variableToString (variable : VariableDeclaration) : string :=
  let name := name variable in
  let type := if_string (type variable) (fun t => " " ++ t) in
  let enumName := if_string (enum_name variable) (fun e => " " ++ e) in
  let allowableRanges :=
    if_present (allowable_ranges variable)
      (fun ranges => " " ++ dq ++ join "," (map rangeToString ranges) ++ dq) in
  let allowableValues :=
    if_present (allowable_values variable)
      (fun values =>
         " " ++ (if (String.length allowableRanges =? 0)%nat then dq ++ dq ++ " " else "")
             ++ dq ++ join "," (map template values) ++ dq) in
  name ++ type ++ enumName ++ allowableRanges ++ allowableValues.

Inductive VariableBlock : Type := INPUT_PARAMS | LOCALS.

Definition blockName (type : VariableBlock) : string :=
  match type with INPUT_PARAMS => "INPUT_PARAMS" | LOCALS => "LOCALS" end.

Definition seqJsonVariableToSequence (variables : list VariableDeclaration)
           (type : VariableBlock) : string :=
  let sequence := "@" ++ blockName type ++ "_BEGIN" ++ nl in
  let sequence := sequence ++ join nl (map variableToString variables) in
  trim sequence ++ nl ++ "@" ++ blockName type ++ "_END" ++ nl.

Definition seqJsonDescriptionToSequence (description : string) : string :=
  " # " ++ description ++ nl.

(** [if (!s.endsWith('\n')) s += '\n'] *)
Definition ensureNewline (s : string) : string :=
  if endsWith s (ascii_of_nat 10) then s else s ++ nl.

Definition optArgsToSequence (args : option Args) : Log string :=
  match args with
  | Some a => seqJsonArgsToSequence a
  | None => ret ""
  end.

Definition commandToString (time : Time) (stem : string) (args : Args)
           (description : option string) (metadata : option Metadata)
           (models : option (list Model)) : Log string :=
  let time := seqJsonTimeToSequence time in
  args <- seqJsonArgsToSequence args ;;
  let metadata := if_present metadata seqJsonMetadataToSequence in
  let models := if_present models seqJsonModelsToSequence in
  let description := if_string description seqJsonDescriptionToSequence in
  let commandString := ensureNewline (time ++ " " ++ stem ++ args ++ description) in
  ret (commandString ++ metadata ++ models).

Definition loadOrActivateToString (activate : bool) (time : Time) (sequence : string)
           (args : option Args) (description : option string)
           (engine : option number) (epoch : option string)
           (metadata : option Metadata) (models : option (list Model)) : Log string :=
  let time := seqJsonTimeToSequence time in
  args <- optArgsToSequence args ;;
  let metadata := if_present metadata seqJsonMetadataToSequence in
  let models := if_present models seqJsonModelsToSequence in
  let engine := if_present engine (fun e => "@ENGINE " ++ toString e ++ nl) in
  let epoch := if_present epoch (fun e => "@EPOCH " ++ quoteEscape e ++ nl) in
  let description := if_string description seqJsonDescriptionToSequence in
  let stepType :=
    "@" ++ (if activate then "ACTIVATE" else "LOAD") ++ "(" ++ quoteEscape sequence ++ ")" in
  let stepString := ensureNewline (time ++ " " ++ stepType ++ args ++ description) in
  ret (stepString ++ engine ++ epoch ++ metadata ++ models).

Definition groundToString (block : bool) (time : Time) (name : string)
           (args : option Args) (description : option string)
           (metadata : option Metadata) (models : option (list Model)) : Log string :=
  let time := seqJsonTimeToSequence time in
  args <- optArgsToSequence args ;;
  let metadata := if_present metadata seqJsonMetadataToSequence in
  let models := if_present models seqJsonModelsToSequence in
  let description := if_string description seqJsonDescriptionToSequence in
  let stepType :=
    "@" ++ (if block then "GROUND_BLOCK" else "GROUND_EVENT") ++ "(" ++ quoteEscape name ++ ")" in
  let stepString := ensureNewline (time ++ " " ++ stepType ++ args ++ description) in
  ret (stepString ++ metadata ++ models).

(** [seqn.push(s)] *)
Definition push (seqn : list string) (s : string) : list string :=
  (seqn ++ [s])%list.

(** The [switch (step.type)] of [seqJsonToSeqn] and [requestToString], on
    the array it pushes to: each case pushes the text of its step; the
    [switch] has no [default], so a step of another type pushes nothing and
    logs nothing. *)
Definition switch_step (seqn : list string) (step : Step) : Log (list string) :=
  match step with
  | Command time stem args description metadata models =>
      s <- commandToString time stem args description metadata models ;;
      ret (push seqn s)
  | Activate time sequence args description engine epoch metadata models =>
      s <- loadOrActivateToString true time sequence args description engine epoch
             metadata models ;;
      ret (push seqn s)
  | Load time sequence args description engine epoch metadata models =>
      s <- loadOrActivateToString false time sequence args description engine epoch
             metadata models ;;
      ret (push seqn s)
  | GroundBlock time name args description metadata models =>
      s <- groundToString true time name args description metadata models ;;
      ret (push seqn s)
  | GroundEvent time name args description metadata models =>
      s <- groundToString false time name args description metadata models ;;
      ret (push seqn s)
  | OtherStep => ret seqn
  end.

(** A loop that pushes one string per element. *)
Definition push_each {A : Type} (f : A -> Log string) (l : list A) (seqn : list string)
  : Log (list string) :=
  for_of (fun seqn a => s <- f a ;; ret (push seqn s)) l seqn.

Definition requestToString (request : Request) : Log string :=
  let time :=
    match r_time request with
    | Some t => seqJsonTimeToSequence t
    | None =>
        match r_ground_epoch request with
        | Some ge => "G" ++ or_empty (delta ge) ++ " " ++ quoteEscape (or_empty (g_name ge))
        | None => ""
        end
    end in
  let reqBegin := "@REQUEST_BEGIN(" ++ quoteEscape (r_name request) ++ ")" in
  let description := if_string (r_description request) seqJsonDescriptionToSequence in
  let requestString := ensureNewline (time ++ " " ++ reqBegin ++ description) in
  steps <- for_of switch_step (r_steps request) [] ;;
  let metadata := if_present (r_metadata request) seqJsonMetadataToSequence in
  ret (requestString ++ join "" steps ++ "@REQUEST_END" ++ nl ++ metadata).

(** [{...obj, [key]: value}]: the value of [key] is replaced where it
    stands, a new key goes last. *)
Fixpoint obj_set (obj : Metadata) (key : string) (value : json) : Metadata :=
  match obj with
  | [] => [(key, value)]
  | (k, v) :: obj' =>
      if String.eqb k key then (k, value) :: obj'
      else (k, v) :: obj_set obj' key value
  end.

(** [Object.entries(metadata).filter(([key]) => key !== 'lgo')
      .reduce((obj, [key, value]) => ({ ...obj, [key]: value }), {})] *)
Definition withoutLgo (metadata : Metadata) : Metadata :=
  fold_left (fun obj entry => obj_set obj (fst entry) (snd entry))
            (filter (fun entry => negb (String.eqb (fst entry) "lgo")) metadata)
            [].

(** [obj.key] on an entries list. *)
Fixpoint prop (key : string) (obj : Metadata) : option json :=
  match obj with
  | [] => None
  | (k, v) :: obj' => if String.eqb k key then Some v else prop key obj'
  end.

Definition immediateToString (icmd : ImmediateCommand) : Log string :=
  args <- seqJsonArgsToSequence (i_args icmd) ;;
  let description := if_string (i_description icmd) seqJsonDescriptionToSequence in
  let metadata := if_present (i_metadata icmd) seqJsonMetadataToSequence in
  let immediateString := ensureNewline (i_stem icmd ++ args ++ description) in
  ret (immediateString ++ metadata).

Definition hardwareToString (hdw : HardwareCommand) : Log string :=
  let description := if_string (h_description hdw) seqJsonDescriptionToSequence in
  let metadata := if_present (h_metadata hdw) seqJsonMetadataToSequence in
  let hardwareString := ensureNewline (h_stem hdw ++ description) in
  ret (hardwareString ++ metadata).

(** A function that returns or throws. *)
Inductive outcome (A : Type) : Type :=
| Returns (a : A)
| Throws (error : string).
Arguments Returns {A} a.
Arguments Throws {A} error.

(** The first statements of [seqJsonToSeqn], down to the load-and-go
    directive: what they push on [seqn], given the metadata object. *)
Definition seqn_head (seqJson : SeqJson) (metadata : Metadata) : list string :=
  let seqn := [] in
  (* ID *)
  let seqn := push seqn ("@ID " ++ dq ++ id seqJson ++ dq ++ nl) in
  (* input params *)
  let seqn :=
    match parameters seqJson with
    | Some p => push seqn (seqJsonVariableToSequence p INPUT_PARAMS)
    | None => seqn
    end in
  (* locals *)
  let seqn :=
    match locals seqJson with
    | Some l => push seqn (seqJsonVariableToSequence l LOCALS)
    | None => seqn
    end in
  (* remove lgo from metadata if it exists *)
  let seqn := push seqn (seqJsonMetadataToSequence (withoutLgo metadata)) in
  (* Load and Go *)
  if truthy (prop "lgo" metadata) then push seqn (nl ++ "@LOAD_AND_GO") else seqn.

(** The rest of [seqJsonToSeqn], from the steps on. *)
Definition seqn_tail (seqJson : SeqJson) (seqn : list string) : Log (list string) :=
  (* command, activate, load, ground block, ground event *)
  seqn <- match steps seqJson with
          | Some steps => for_of switch_step steps (push seqn nl)
          | None => ret seqn
          end ;;
  (* Immediate Commands *)
  seqn <- match immediate_commands seqJson with
          | Some icmds =>
              push_each immediateToString icmds (push (push seqn nl) ("@IMMEDIATE" ++ nl))
          | None => ret seqn
          end ;;
  (* hardware commands *)
  seqn <- match hardware_commands seqJson with
          | Some hdws =>
              push_each hardwareToString hdws (push (push seqn nl) ("@HARDWARE" ++ nl))
          | None => ret seqn
          end ;;
  (* requests *)
  match requests seqJson with
  | Some reqs =>
      for_of (fun seqn request =>
                s <- requestToString request ;; ret (push (push seqn nl) s))
             reqs seqn
  | None => ret seqn
  end.

(** The array [seqn] of [seqJsonToSeqn] at its end, with what was logged.
    Reading [lgo] off a missing metadata object throws a [TypeError]; the
    statements before it push without logging. *)
Definition seqJsonToSeqn_parts (seqJson : SeqJson) : outcome (Log (list string)) :=
  match s_metadata seqJson with
  | None => Throws "TypeError"
  | Some metadata => Returns (seqn_tail seqJson (seqn_head seqJson metadata))
  end.

(** [seqJsonToSeqn]: the text [seqn.join('')] and the log, or the exception. *)
Definition seqJsonToSeqn (seqJson : SeqJson) : outcome (Log string) :=
  match seqJsonToSeqn_parts seqJson with
  | Returns (seqn, log) => Returns (join "" seqn, log)
  | Throws e => Throws e
  end.

End SeqJson.

(* ================================================================== *)
(** * Notions of the specification *)
(* ================================================================== *)

(** What the specification says in words, as definitions of their own to
    compare the code with. *)
Module Spec.
Import Js.



(** A number that is a magnitude: not [NaN] and not negative. *)
Definition is_magnitude (n : number) : bool :=
  match n with
  | Num q => Qle_bool 0 q
  | NaN => false
  end.

(** Every numeric field of a parsed time is a magnitude. *)
Definition magnitudes (p : Time.ParsedTime) : bool :=
  let partial (r : Time.PartialReturn) :=
    is_magnitude (Time.hour r) && is_magnitude (Time.min r)
    && is_magnitude (Time.ms r) && is_magnitude (Time.sec r)
    && is_magnitude (Time.year r) in
  match p with
  | Time.ParsedDuration d =>
      is_magnitude (Time.years d) && is_magnitude (Time.days d)
      && is_magnitude (Time.hours d) && is_magnitude (Time.minutes d)
      && is_magnitude (Time.seconds d) && is_magnitude (Time.milliseconds d)
      && is_magnitude (Time.microseconds d)
  | Time.ParsedDoyString r doy => partial r && is_magnitude doy
  | Time.ParsedYmdString r day month =>
      partial r && is_magnitude day && is_magnitude month
  end.

(** The string starts with a minus sign. *)
Definition starts_with_minus (s : string) : bool :=
  match s with
  | String c _ => is_char "-" c
  | EmptyString => false
  end.

(** Every run of digits of the string has [k] digits at most; [run] is
    the number of digits that end where the string starts. *)
Fixpoint digit_runs_from (k run : nat) (s : string) : bool :=
  match s with
  | EmptyString => true
  | String c s' =>
      if is_digit c then (S run <=? k)%nat && digit_runs_from k (S run) s'
      else digit_runs_from k 0 s'
  end.

Definition digit_runs_within (k : nat) (s : string) : bool := digit_runs_from k 0 s.

(** A field of a timestamp: exactly [k] digits. *)
Definition is_field (k : nat) (v : string) : bool :=
  (String.length v =? k)%nat && all is_digit v.




(** A text that is not empty and that trimming leaves alone: it neither
    starts nor ends with white space. *)
Definition is_tight (s : string) : bool :=
  negb (is_empty s) && String.eqb (trimStart s) s && String.eqb (trimEnd s) s.

(** The base arguments that render as tight texts. *)
Definition tight_args (l : list SeqJson.BaseArgument) : bool :=
  forallb (fun a => is_tight (SeqJson.seqJsonBaseArgToSequence a)) l.

(** The messages that the malformed repeat shapes of a document call for,
    in the order of the document. *)
Definition set_messages (s : SeqJson.RepeatArgSet) : list string :=
  match s with
  | SeqJson.SetNotArray => ["Repeat arg set value is not an array"]
  | SeqJson.ArgSet _ => []
  end.

Definition arg_messages (a : SeqJson.Argument) : list string :=
  match a with
  | SeqJson.RepeatArgument SeqJson.ValueNotArray => ["Repeat arg value is not an array"]
  | SeqJson.RepeatArgument (SeqJson.RepeatSets l) => List.concat (map set_messages l)
  | SeqJson.BaseArg _ => []
  end.

Definition args_messages (args : SeqJson.Args) : list string :=
  List.concat (map arg_messages args).

Definition opt_args_messages (args : option SeqJson.Args) : list string :=
  match args with Some a => args_messages a | None => [] end.

Definition step_messages (step : SeqJson.Step) : list string :=
  match step with
  | SeqJson.Command _ _ args _ _ _ => args_messages args
  | SeqJson.Activate _ _ args _ _ _ _ _
  | SeqJson.Load _ _ args _ _ _ _ _
  | SeqJson.GroundBlock _ _ args _ _ _
  | SeqJson.GroundEvent _ _ args _ _ _ => opt_args_messages args
  | SeqJson.OtherStep => []
  end.

Definition opt_list {A : Type} (l : option (list A)) : list A :=
  match l with Some x => x | None => [] end.

Definition document_messages (d : SeqJson.SeqJson) : list string :=
  (List.concat (map step_messages (opt_list (SeqJson.steps d)))
   ++ List.concat (map (fun i => args_messages (SeqJson.i_args i))
                  (opt_list (SeqJson.immediate_commands d)))
   ++ List.concat (map (fun r => List.concat (map step_messages (SeqJson.r_steps r)))
                  (opt_list (SeqJson.requests d))))%list.

(** A document without its malformed repeat shapes: a repeat argument whose
    value is not an array is left out, and so is an argument set that is
    not an array. *)
Definition is_arg_set (s : SeqJson.RepeatArgSet) : bool :=
  match s with SeqJson.ArgSet _ => true | SeqJson.SetNotArray => false end.

Definition repair_arg (a : SeqJson.Argument) : list SeqJson.Argument :=
  match a with
  | SeqJson.RepeatArgument SeqJson.ValueNotArray => []
  | SeqJson.RepeatArgument (SeqJson.RepeatSets l) =>
      [SeqJson.RepeatArgument (SeqJson.RepeatSets (filter is_arg_set l))]
  | SeqJson.BaseArg _ => [a]
  end.

Definition repair_args (args : SeqJson.Args) : SeqJson.Args :=
  flat_map repair_arg args.

Definition repair_step (step : SeqJson.Step) : SeqJson.Step :=
  match step with
  | SeqJson.Command t s args d m mo => SeqJson.Command t s (repair_args args) d m mo
  | SeqJson.Activate t s args d e ep m mo =>
      SeqJson.Activate t s (option_map repair_args args) d e ep m mo
  | SeqJson.Load t s args d e ep m mo =>
      SeqJson.Load t s (option_map repair_args args) d e ep m mo
  | SeqJson.GroundBlock t n args d m mo =>
      SeqJson.GroundBlock t n (option_map repair_args args) d m mo
  | SeqJson.GroundEvent t n args d m mo =>
      SeqJson.GroundEvent t n (option_map repair_args args) d m mo
  | SeqJson.OtherStep => SeqJson.OtherStep
  end.

Definition repair (d : SeqJson.SeqJson) : SeqJson.SeqJson :=
  {| SeqJson.id := SeqJson.id d;
     SeqJson.parameters := SeqJson.parameters d;
     SeqJson.locals := SeqJson.locals d;
     SeqJson.s_metadata := SeqJson.s_metadata d;
     SeqJson.steps := option_map (map repair_step) (SeqJson.steps d);
     SeqJson.immediate_commands :=
       option_map
         (map (fun i =>
                 {| SeqJson.i_stem := SeqJson.i_stem i;
                    SeqJson.i_args := repair_args (SeqJson.i_args i);
                    SeqJson.i_description := SeqJson.i_description i;
                    SeqJson.i_metadata := SeqJson.i_metadata i |}))
         (SeqJson.immediate_commands d);
     SeqJson.hardware_commands := SeqJson.hardware_commands d;
     SeqJson.requests :=
       option_map
         (map (fun r =>
                 {| SeqJson.r_name := SeqJson.r_name r;
                    SeqJson.r_steps := map repair_step (SeqJson.r_steps r);
                    SeqJson.r_time := SeqJson.r_time r;
                    SeqJson.r_ground_epoch := SeqJson.r_ground_epoch r;
                    SeqJson.r_description := SeqJson.r_description r;
                    SeqJson.r_metadata := SeqJson.r_metadata r |}))
         (SeqJson.requests d) |}.

End Spec.

#[local] Close Scope Z_scope.

(* ================================================================== *)
(** * Facts about strings *)
(* ================================================================== *)

Section StringFacts.
Import Js.

Lemma app_nil_r (s : string) : s ++ "" = s.
Proof. induction s; simpl; congruence. Qed.

Lemma app_assoc (a b c : string) : (a ++ b) ++ c = a ++ (b ++ c).
Proof. induction a; simpl; congruence. Qed.

Lemma length_app (a b : string) :
  String.length (a ++ b) = (String.length a + String.length b)%nat.
Proof. induction a; simpl; congruence. Qed.

Lemma take_app (w s : string) : take (String.length w) (w ++ s) = w.
Proof. induction w; simpl; [destruct s; reflexivity | congruence]. Qed.

Lemma all_app (p : ascii -> bool) (a b : string) :
  all p (a ++ b) = all p a && all p b.
Proof. induction a; simpl; [reflexivity | rewrite IHa; apply andb_assoc ]. Qed.

Lemma app_inv_head (a b c : string) : a ++ b = a ++ c -> b = c.
Proof. induction a; simpl; intros H; [assumption | injection H; auto]. Qed.

Lemma is_empty_true (s : string) : is_empty s = true <-> s = "".
Proof. destruct s; simpl; split; congruence. Qed.

End StringFacts.

(* ================================================================== *)
(** * The matcher against the match relation *)
(* ================================================================== *)

Section Matcher.
Import Js Re.

Lemma star_sound p : forall s i c k m,
  star p i s c k = Some m ->
  exists w s', s = w ++ s' /\ all p w = true
               /\ k (i + String.length w)%nat s' c = Some m.
Proof.
  induction s as [|a s IH]; simpl; intros i c k m H.
  - exists "", ""; simpl; rewrite Nat.add_0_r; auto.
  - destruct (p a) eqn:Hp.
    + destruct (star p (S i) s c k) eqn:Hs.
      * injection H as <-.
        destruct (IH _ _ _ _ Hs) as (w & s' & -> & Hw & Hk).
        exists (String a w), s'; simpl; rewrite Hp, Hw.
        rewrite <- Nat.add_succ_comm; auto.
      * exists "", (String a s); simpl; rewrite Nat.add_0_r; auto.
    + exists "", (String a s); simpl; rewrite Nat.add_0_r; auto.
Qed.

Lemma star_complete p : forall w s' i c k,
  all p w = true ->
  k (i + String.length w)%nat s' c <> None ->
  star p i (w ++ s') c k <> None.
Proof.
  induction w as [|a w IH]; simpl; intros s' i c k Hw Hk.
  - rewrite Nat.add_0_r in Hk.
    destruct s' as [|b s']; simpl; [assumption|].
    destruct (p b); [|assumption].
    destruct (star p (S i) s' c k); [discriminate | assumption].
  - apply andb_prop in Hw as [Ha Hw]; rewrite Ha.
    rewrite <- Nat.add_succ_comm in Hk.
    specialize (IH s' (S i) c k Hw Hk).
    destruct (star p (S i) (w ++ s') c k); [discriminate | contradiction].
Qed.

(** Whatever the matcher returns comes from a match of the pattern followed
    by a success of the continuation. *)
Lemma run_sound : forall r i s c k m,
  run r i s c k = Some m ->
  exists i' s' c', matches r i s c i' s' c' /\ k i' s' c' = Some m.
Proof.
  induction r as [|p|a IHa b IHb|a IHa b IHb|a IHa|p|g a IHa| | |a IHa];
    simpl; intros i s c k m H.
  - exists i, s, c; auto.
  - destruct s as [|x s]; [discriminate|].
    destruct (p x) eqn:Hp; [|discriminate].
    exists (S i), s, c; split; [exists x|]; auto.
  - apply IHa in H as (i1 & s1 & c1 & Ha & H).
    apply IHb in H as (i' & s' & c' & Hb & H).
    exists i', s', c'; split; [exists i1, s1, c1|]; auto.
  - destruct (run a i s c k) eqn:Ha.
    + injection H as <-. apply IHa in Ha as (i' & s' & c' & Ha & H).
      exists i', s', c'; auto.
    + apply IHb in H as (i' & s' & c' & Hb & H). exists i', s', c'; auto.
  - destruct (run a i s c k) eqn:Ha.
    + injection H as <-. apply IHa in Ha as (i' & s' & c' & Ha & H).
      exists i', s', c'; auto.
    + exists i, s, c; auto.
  - apply star_sound in H as (w & s' & -> & Hw & H).
    exists (i + String.length w)%nat, s', c; split; [exists w|]; auto.
  - apply IHa in H as (i' & s' & c1 & Ha & H).
    exists i', s', ((g, take (i' - i) s) :: c1); split; [exists c1|]; auto.
  - destruct (i =? 0)%nat eqn:Hi; [|discriminate].
    apply Nat.eqb_eq in Hi. exists i, s, c; auto.
  - destruct (is_empty s) eqn:Hs; [|discriminate].
    apply is_empty_true in Hs. exists i, s, c; auto.
  - destruct (run a i s c accept) eqn:Ha; [discriminate|].
    exists i, s, c; auto.
Qed.

(** A match of the pattern after which the continuation succeeds makes the
    matcher succeed. *)
Lemma run_complete : forall r i s c k i' s' c',
  matches r i s c i' s' c' ->
  k i' s' c' <> None ->
  run r i s c k <> None.
Proof.
  induction r as [|p|a IHa b IHb|a IHa b IHb|a IHa|p|g a IHa| | |a IHa];
    simpl; intros i s c k i' s' c' M K.
  - destruct M as (-> & -> & ->); assumption.
  - destruct M as (x & -> & Hp & -> & ->). rewrite Hp; assumption.
  - destruct M as (i1 & s1 & c1 & Ma & Mb).
    eapply IHa; [eassumption|]. eapply IHb; eassumption.
  - destruct M as [M|M].
    + specialize (IHa _ _ _ k _ _ _ M K).
      destruct (run a i s c k); [discriminate | contradiction].
    + destruct (run a i s c k); [discriminate|]. eapply IHb; eassumption.
  - destruct M as [M|(-> & -> & ->)].
    + specialize (IHa _ _ _ k _ _ _ M K).
      destruct (run a i s c k); [discriminate | contradiction].
    + destruct (run a i s c k); [discriminate | assumption].
  - destruct M as (w & -> & Hw & -> & ->). apply star_complete; assumption.
  - destruct M as (c1 & M & ->). eapply IHa; [eassumption|]. assumption.
  - destruct M as (-> & -> & -> & ->). simpl; assumption.
  - destruct M as (-> & -> & -> & ->). simpl; assumption.
  - destruct M as (Ha & -> & -> & ->). rewrite Ha; assumption.
Qed.

(** A match consumes a prefix of the input. *)
Lemma matches_consumes : forall r i s c i' s' c',
  matches r i s c i' s' c' ->
  exists w, s = w ++ s' /\ i' = (i + String.length w)%nat.
Proof.
  induction r as [|p|a IHa b IHb|a IHa b IHb|a IHa|p|g a IHa| | |a IHa];
    simpl; intros i s c i' s' c' M.
  - destruct M as (-> & -> & ->). exists ""; simpl; auto.
  - destruct M as (x & -> & Hp & -> & ->). exists (String x ""); simpl; split; [auto|lia].
  - destruct M as (i1 & s1 & c1 & Ma & Mb).
    apply IHa in Ma as (w1 & -> & ->). apply IHb in Mb as (w2 & -> & ->).
    exists (w1 ++ w2); rewrite app_assoc, length_app; split; [auto|lia].
  - destruct M as [M|M]; eauto.
  - destruct M as [M|(-> & -> & ->)]; eauto. exists ""; simpl; auto.
  - destruct M as (w & -> & Hw & -> & ->). exists w; auto.
  - destruct M as (c1 & M & ->). eauto.
  - destruct M as (-> & -> & -> & ->). exists ""; simpl; auto.
  - destruct M as (-> & -> & -> & ->). exists ""; simpl; auto.
  - destruct M as (Ha & -> & -> & ->). exists ""; simpl; auto.
Qed.

Lemma search_sound r : forall s i m,
  search r i s = Some m ->
  exists pre suf, s = pre ++ suf
                  /\ run r (i + String.length pre)%nat suf [] accept = Some m.
Proof.
  induction s as [|a s IH]; simpl; intros i m H.
  - destruct (run r i "" [] accept) eqn:E; [|discriminate].
    injection H as <-. exists "", ""; simpl; rewrite Nat.add_0_r; auto.
  - destruct (run r i (String a s) [] accept) eqn:E.
    + injection H as <-. exists "", (String a s); simpl; rewrite Nat.add_0_r; auto.
    + apply IH in H as (pre & suf & -> & H).
      exists (String a pre), suf; simpl. rewrite <- Nat.add_succ_comm; auto.
Qed.

Lemma search_complete r : forall pre suf i,
  run r (i + String.length pre)%nat suf [] accept <> None ->
  search r i (pre ++ suf) <> None.
Proof.
  induction pre as [|a pre IH]; simpl; intros suf i H.
  - rewrite Nat.add_0_r in H.
    destruct suf; simpl; destruct (run r i _ [] accept); congruence.
  - destruct (run r i _ [] accept); [discriminate|].
    apply IH. rewrite Nat.add_succ_comm; assumption.
Qed.

(** [r.test(s)] holds exactly when [r] matches somewhere in [s]. *)
Lemma test_iff r s :
  test r s = true <->
  exists pre suf i' s' c',
    s = pre ++ suf /\ matches r (String.length pre) suf [] i' s' c'.
Proof.
  unfold test, exec. split.
  - destruct (search r 0 s) eqn:E; [intros _|discriminate].
    apply search_sound in E as (pre & suf & -> & E). simpl in E.
    apply run_sound in E as (i' & s' & c' & M & _).
    exists pre, suf, i', s', c'. auto.
  - intros (pre & suf & i' & s' & c' & -> & M).
    assert (H : search r 0 (pre ++ suf) <> None).
    { apply search_complete. simpl. eapply run_complete; [eassumption|]. discriminate. }
    destruct (search r 0 (pre ++ suf)); congruence.
Qed.

End Matcher.

(* ================================================================== *)
(** * The simple time formats *)
(* ================================================================== *)

Section SimpleFormats.
Import Js Re Time Spec.



Lemma span_app p : forall a b,
  all p a = true ->
  (b = "" \/ exists x b', b = String x b' /\ p x = false) ->
  span p (a ++ b) = (a, b).
Proof.
  induction a as [|x a IH]; simpl; intros b Ha Hb.
  - destruct Hb as [->|(x & b' & -> & Hx)]; simpl; [|rewrite Hx]; reflexivity.
  - apply andb_prop in Ha as [Hx Ha]. rewrite Hx, (IH b Ha Hb). reflexivity.
Qed.


Lemma matches_Plus p i s c i' s' c' :
  matches (Plus p) i s c i' s' c' <->
  exists w, s = w ++ s' /\ w <> "" /\ all p w = true
            /\ i' = (i + String.length w)%nat /\ c' = c.
Proof.
  simpl. split.
  - intros (i1 & s1 & c1 & (a & -> & Hp & -> & ->) & (w & -> & Hw & -> & ->)).
    exists (String a w). simpl. rewrite Hp, Hw. repeat split; auto; try discriminate; lia.
  - intros (w & -> & Hne & Hw & -> & ->).
    destruct w as [|a w]; [contradiction|]. simpl in Hw.
    apply andb_prop in Hw as [Ha Hw].
    exists (S i), (w ++ s'), c. split; [exists a; auto|].
    exists w. repeat split; auto. simpl; lia.
Qed.




Lemma sign_not_digit c : is_sign c = true -> is_digit c = false.
Proof.
  unfold is_sign, is_char. intros H.
  apply orb_prop in H as [H|H]; apply Ascii.eqb_eq in H as <-; reflexivity.
Qed.





End SimpleFormats.

(* ================================================================== *)
(** * Numerals *)
(* ================================================================== *)

Section Numerals.
Import Js.
#[local] Open Scope Z_scope.

Lemma Qred_inject_Z (a : Z) : Qred (inject_Z a) = inject_Z a.
Proof.
  unfold Qred, inject_Z.
  pose proof (Z.ggcd_correct_divisors a 1) as H.
  pose proof (Z.ggcd_gcd a 1) as G.
  destruct (Z.ggcd a 1) as [g [aa bb]]. simpl in *.
  rewrite Z.gcd_1_r in G. subst g. destruct H as [H1 H2].
  rewrite Z.mul_1_l in H1, H2. subst. reflexivity.
Qed.

Lemma decimal_value_int (ds : string) :
  decimal_value 1 ds "" = inject_Z (digits_val 0 ds).
Proof.
  unfold decimal_value.
  transitivity (Qred (inject_Z (digits_val 0 ds))); [|apply Qred_inject_Z].
  apply Qred_complete.
  simpl. unfold Qdiv. change (/ inject_Z 1)%Q with 1%Q. ring.
Qed.

Lemma uint_digits (d : Decimal.uint) :
  all is_digit (NilEmpty.string_of_uint d) = true.
Proof. induction d; simpl; auto. Qed.

Lemma uint_digits_val_acc : forall (d : Decimal.uint) (acc : positive),
  digits_val (Zpos acc) (NilEmpty.string_of_uint d) = Zpos (Pos.of_uint_acc d acc).
Proof.
  induction d; intros acc;
    cbn [NilEmpty.string_of_uint digits_val Pos.of_uint_acc]; try reflexivity;
    rewrite <- IHd; f_equal;
    match goal with
    | |- context [digit_val ?c] =>
        let v := eval vm_compute in (digit_val c) in change (digit_val c) with v
    end; lia.
Qed.

Lemma uint_digits_val (d : Decimal.uint) :
  digits_val 0 (NilEmpty.string_of_uint d) = Z.of_N (Pos.of_uint d).
Proof.
  induction d; simpl; try assumption; try reflexivity;
    apply (uint_digits_val_acc d).
Qed.

(** The decimal numeral of a natural number: digits, at least one, that
    read back as the number. *)
Lemma Z_to_string_digits (a : Z) :
  0 <= a ->
  Z_to_string a <> "" /\ all is_digit (Z_to_string a) = true
  /\ digits_val 0 (Z_to_string a) = a.
Proof.
  intros Ha. destruct a as [|p|p]; [repeat split; discriminate| |lia].
  pose proof (DecimalPos.Unsigned.of_to p) as E.
  assert (S : Z_to_string (Z.pos p) = NilEmpty.string_of_uint (Pos.to_uint p)).
  { unfold Z_to_string. cbn [Z.to_int NilZero.string_of_int].
    destruct (Pos.to_uint p); [discriminate E | reflexivity ..]. }
  rewrite S. repeat split.
  - destruct (Pos.to_uint p); [discriminate E | discriminate ..].
  - apply uint_digits.
  - rewrite uint_digits_val, E. reflexivity.
Qed.

Lemma digit_not_ws c : is_digit c = true -> is_ws c = false.
Proof.
  unfold is_digit, is_ws. intros H. apply andb_prop in H as [H1 H2].
  apply Nat.leb_le in H1, H2.
  repeat rewrite orb_false_iff. repeat split.
  - apply andb_false_iff. right. apply Nat.leb_gt. lia.
  - apply Nat.eqb_neq. lia.
  - apply Nat.eqb_neq. lia.
Qed.

Lemma digit_not_sign c : is_digit c = true -> is_sign c = false.
Proof.
  intros H. destruct (is_sign c) eqn:E; [|reflexivity].
  rewrite (sign_not_digit c E) in H. discriminate.
Qed.

(** A digit is none of the characters that are not digits. *)
Lemma digit_not_char x c :
  is_digit c = true -> is_digit x = false -> is_char x c = false.
Proof.
  intros Hc Hx. unfold is_char. apply Ascii.eqb_neq. congruence.
Qed.

Lemma span_digits ds :
  all is_digit ds = true -> span is_digit ds = (ds, "").
Proof.
  intros H. rewrite <- (app_nil_r ds) at 1. apply span_app; auto.
Qed.

Lemma parseFloat_digits ds :
  ds <> "" -> all is_digit ds = true ->
  parseFloat ds = num (digits_val 0 ds).
Proof.
  intros Hne Hds. unfold parseFloat.
  destruct ds as [|c ds]; [contradiction|].
  pose proof Hds as Hds'. simpl in Hds'. apply andb_prop in Hds' as [Hc _].
  cbn [trimStart]. rewrite (digit_not_ws c Hc).
  assert (Hs : split_sign (String c ds) = (1, String c ds)).
  { unfold split_sign. pose proof (digit_not_sign c Hc) as S.
    unfold is_sign in S. apply orb_false_iff in S as [S1 S2]. rewrite S1, S2. reflexivity. }
  rewrite Hs, (span_digits _ Hds). cbn [is_empty].
  rewrite decimal_value_int. reflexivity.
Qed.

Lemma parseInt_digits ds :
  ds <> "" -> all is_digit ds = true ->
  parseInt ds = num (digits_val 0 ds).
Proof.
  intros Hne Hds. unfold parseInt.
  destruct ds as [|c ds]; [contradiction|].
  pose proof Hds as Hds'. simpl in Hds'. apply andb_prop in Hds' as [Hc Hds''].
  cbn [trimStart]. rewrite (digit_not_ws c Hc).
  assert (Hs : split_sign (String c ds) = (1, String c ds)).
  { unfold split_sign. pose proof (digit_not_sign c Hc) as S.
    unfold is_sign in S. apply orb_false_iff in S as [S1 S2]. rewrite S1, S2. reflexivity. }
  rewrite Hs.
  assert (G : (let (d, _) := span is_digit (String c ds) in
               if is_empty d then NaN else num (1 * digits_val 0 d))
              = num (digits_val 0 (String c ds))).
  { rewrite (span_digits _ Hds). cbn [is_empty]. rewrite Z.mul_1_l. reflexivity. }
  destruct ds as [|x ds'].
  - destruct c as [[] [] [] [] [] [] [] []]; exact G.
  - assert (Hx : is_char_i "x" "X" x = false).
    { simpl in Hds''. apply andb_prop in Hds'' as [Hx _].
      unfold is_char_i. apply orb_false_iff.
      split; apply (digit_not_char _ x Hx); reflexivity. }
    assert (G' : (let (d, _) := span is_digit (String c (String x ds')) in
                  num (1 * digits_val 0 d))
                 = num (digits_val 0 (String c (String x ds')))).
    { rewrite (span_digits _ Hds). rewrite Z.mul_1_l. reflexivity. }
    destruct c as [[] [] [] [] [] [] [] []]; try exact G.
    rewrite Hx. exact G'.
Qed.

End Numerals.

(* ================================================================== *)
(** * Captures *)
(* ================================================================== *)

Section Captures.
Import Js Re.

(** A pattern without a capturing group. *)
Fixpoint nogrp (r : regex) : bool :=
  match r with
  | Grp _ _ => false
  | Seq a b | Alt a b => nogrp a && nogrp b
  | Opt a => nogrp a
  | _ => true
  end.

Lemma matches_nogrp : forall r i s c i' s' c',
  nogrp r = true -> matches r i s c i' s' c' -> c' = c.
Proof.
  induction r as [|p|a IHa b IHb|a IHa b IHb|a IHa|p|g a IHa| | |a IHa];
    simpl; intros i s c i' s' c' N M; try discriminate.
  - destruct M as (_ & _ & ->); reflexivity.
  - destruct M as (x & _ & _ & _ & ->); reflexivity.
  - apply andb_prop in N as [Na Nb].
    destruct M as (i1 & s1 & c1 & Ma & Mb).
    apply IHa in Ma; [|assumption]. apply IHb in Mb; [|assumption]. congruence.
  - apply andb_prop in N as [Na Nb]. destruct M as [M|M]; eauto.
  - destruct M as [M|(_ & _ & ->)]; eauto.
  - destruct M as (w & _ & _ & _ & ->); reflexivity.
  - destruct M as (_ & _ & _ & ->); reflexivity.
  - destruct M as (_ & _ & _ & ->); reflexivity.
  - destruct M as (_ & _ & _ & ->); reflexivity.
Qed.

(** A group captures the text its pattern consumed. *)
Lemma matches_Grp g a i s c i' s' c' :
  matches (Grp g a) i s c i' s' c' <->
  exists w c1, s = w ++ s' /\ i' = (i + String.length w)%nat
               /\ matches a i s c i' s' c1 /\ c' = (g, w) :: c1.
Proof.
  simpl. split.
  - intros (c1 & M & ->).
    destruct (matches_consumes _ _ _ _ _ _ _ M) as (w & -> & ->).
    exists w, c1. repeat split; auto.
    replace (i + String.length w - i)%nat with (String.length w) by lia.
    rewrite take_app. reflexivity.
  - intros (w & c1 & -> & -> & M & ->). exists c1. split; [assumption|].
    replace (i + String.length w - i)%nat with (String.length w) by lia.
    rewrite take_app. reflexivity.
Qed.

Lemma matches_Lit x i s c i' s' c' :
  matches (Lit x) i s c i' s' c' <-> s = String x s' /\ i' = S i /\ c' = c.
Proof.
  unfold Lit, is_char. simpl. split.
  - intros (a & -> & H & -> & ->). apply Ascii.eqb_eq in H as <-. auto.
  - intros (-> & -> & ->). exists x. rewrite Ascii.eqb_refl. auto.
Qed.

Lemma matches_Star p i s c i' s' c' :
  matches (Star p) i s c i' s' c' <->
  exists w, s = w ++ s' /\ all p w = true
            /\ i' = (i + String.length w)%nat /\ c' = c.
Proof. reflexivity. Qed.

(** The result of a match at the start of the input is the result of [exec]. *)
Lemma exec_at_start r s m :
  run r 0 s [] accept = Some m -> exec r s = Some m.
Proof.
  unfold exec. intros H. destruct s; simpl; rewrite H; reflexivity.
Qed.

(** When every match of [r] on the whole of [s] leaves the same captures,
    they are the result of [exec]. *)
Lemma exec_unique r s m :
  (exists i' s', matches r 0 s [] i' s' m) ->
  (forall i' s' c', matches r 0 s [] i' s' c' -> c' = m) ->
  exec r s = Some m.
Proof.
  intros (i' & s' & M) U. apply exec_at_start.
  destruct (run r 0 s [] accept) as [m'|] eqn:E.
  - apply run_sound in E as (i1 & s1 & c1 & M1 & A).
    injection A as <-. rewrite (U _ _ _ M1). reflexivity.
  - exfalso. refine (run_complete r 0 s [] accept _ _ _ M _ E). discriminate.
Qed.

End Captures.

(* ================================================================== *)
(** * The unit-suffixed durations *)
(* ================================================================== *)

Section UnitSuffixed.
Import Js Re Time.

(** A prefix of digits of [r ++ x t], where [r] is digits and [x] is not,
    is a prefix of [r]. *)
Lemma digits_prefix x t : forall w r s1,
  all is_digit w = true -> is_digit x = false ->
  w ++ s1 = r ++ String x t ->
  exists r', r = w ++ r' /\ s1 = r' ++ String x t.
Proof.
  induction w as [|a w IH]; simpl; intros r s1 Hw Hx E.
  - exists r. auto.
  - apply andb_prop in Hw as [Ha Hw].
    destruct r as [|b r]; simpl in E; injection E as -> E.
    + congruence.
    + destruct (IH _ _ Hw Hx E) as (r' & -> & ->). exists r'. auto.
Qed.

(** The first character of [r ++ x t], where [r] is digits. *)
Lemma digits_then_head x t r a s :
  all is_digit r = true ->
  r ++ String x t = String a s ->
  (is_digit a = true /\ r <> "") \/ (a = x /\ r = "" /\ s = t).
Proof.
  intros Hr E. destruct r as [|b r]; simpl in *.
  - injection E as -> ->. auto.
  - injection E as -> _. apply andb_prop in Hr as [Hb _]. left. split; [auto|discriminate].
Qed.

(** What the value pattern [([+-]?)(\d+)(\.\d+)?] consumes of digits
    followed by a letter: some of the digits, at least one. *)
Lemma matches_value_digits x t r i i' s' c c' :
  all is_digit r = true ->
  is_digit x = false -> is_sign x = false -> is_char "." x = false ->
  matches validDurationValueRegex i (r ++ String x t) c i' s' c' ->
  exists w r', r = w ++ r' /\ w <> "" /\ s' = r' ++ String x t
               /\ i' = (i + String.length w)%nat /\ c' = c.
Proof.
  intros Hr Hx Hsx Hdx M.
  unfold validDurationValueRegex, paren, Seqs in M.
  change (Seq (Chr is_digit) (Star is_digit)) with (Plus is_digit) in M.
  cbn [matches] in M.
  destruct M as (i1 & s1 & c1 & M1 & i2 & s2 & c2 & M2 & M3).
  assert (E1 : s1 = r ++ String x t /\ i1 = i /\ c1 = c).
  { destruct M1 as [(a & E & Ha & -> & ->)|(-> & -> & ->)]; [|auto].
    exfalso. apply (digits_then_head x t r a s1 Hr) in E as [[Hd _]|(-> & _)].
    - rewrite (digit_not_sign a Hd) in Ha. discriminate.
    - congruence. }
  destruct E1 as (-> & -> & ->).
  apply matches_Plus in M2 as (w & E & Hne & Hw & -> & ->).
  symmetry in E. apply (digits_prefix x t w r s2 Hw Hx) in E as (r' & -> & ->).
  rewrite all_app in Hr. apply andb_prop in Hr as [_ Hr'].
  exists w, r'. split; [reflexivity|]. split; [assumption|].
  destruct M3 as [M3|(-> & -> & ->)]; [exfalso|auto].
  destruct M3 as (i3 & s3 & c3 & M3 & _).
  apply matches_Lit in M3 as (E & _).
  apply (digits_then_head x t r' "."%char s3 Hr') in E as [[Hd _]|(<- & _)];
    [discriminate Hd | discriminate Hdx].
Qed.

(** What a unit pattern consumes of digits followed by a letter: some of
    the digits, which it captures, then its suffix. *)
Lemma matches_unit_digits name suffix x t r i i' s' c c' :
  all is_digit r = true ->
  is_digit x = false -> is_sign x = false -> is_char "." x = false ->
  is_ws x = false ->
  matches (unitRegex name suffix) i (r ++ String x t) c i' s' c' ->
  exists w r', r = w ++ r' /\ w <> ""
               /\ matches suffix (i + String.length w)%nat (r' ++ String x t)
                          ((name, w) :: c) i' s' c'.
Proof.
  intros Hr Hx Hsx Hdx Hwx M.
  unfold unitRegex, Seqs in M. cbn [matches] in M.
  destruct M as (i1 & s1 & c1 & M1 & i2 & s2 & c2 & M2 & M3).
  destruct M1 as (w0 & E & Hw0 & -> & ->).
  assert (w0 = "") as ->.
  { destruct w0 as [|a w0]; [reflexivity|exfalso].
    simpl in E, Hw0. apply andb_prop in Hw0 as [Ha _].
    apply (digits_then_head x t r a _ Hr) in E as [[Hd _]|(-> & _)].
    - rewrite (digit_not_ws a Hd) in Ha. discriminate.
    - congruence. }
  simpl in E. subst s1. rewrite Nat.add_0_r in *.
  apply matches_Grp in M2 as (v & c1 & E & -> & M2 & ->).
  apply (matches_value_digits x t r) in M2
    as (w & r' & -> & Hne & -> & Hi & ->); auto.
  assert (v = w) as ->.
  { rewrite <- (take_app v (r' ++ String x t)), <- E, app_assoc.
    replace (String.length v) with (String.length w) by lia. apply take_app. }
  exists w, r'. auto.
Qed.

End UnitSuffixed.

Section Microseconds.
Import Js Re Time.

(** A literal that is neither a digit nor [u] does not start digits
    followed by [us]. *)
Lemma no_Lit_on_digits_us y r i c i' s' c' :
  all is_digit r = true ->
  is_digit y = false -> is_char "u" y = false ->
  matches (Lit y) i (r ++ "us") c i' s' c' -> False.
Proof.
  intros Hr Hy Hu M. apply matches_Lit in M as (E & _).
  apply (digits_then_head "u" "s" r y s' Hr) in E as [[Hd _]|(-> & _)].
  - congruence.
  - discriminate Hu.
Qed.

Ltac digit_side := first [assumption | reflexivity].

(** A unit pattern other than the one of microseconds does not match
    digits followed by [us]. *)
Ltac no_unit H :=
  exfalso;
  let w := fresh "w" in
  let r' := fresh "r" in
  let Hne := fresh "Hne" in
  let Hr := fresh "Hr" in
  apply (matches_unit_digits _ _ "u" "s") in H as (w & r' & -> & Hne & H);
  [ | digit_side ..];
  match goal with
  | Hds : all is_digit (_ ++ _) = true |- _ =>
      rewrite all_app in Hds; apply andb_prop in Hds as [_ Hr]
  end;
  lazymatch type of H with
  | matches (Seq _ _) _ _ _ _ _ _ => destruct H as (? & ? & ? & H & _)
  | _ => idtac
  end;
  apply (no_Lit_on_digits_us _ _ _ _ _ _ _ Hr) in H; [exact H | reflexivity ..].

Lemma full_us_unique ds :
  ds <> "" -> all is_digit ds = true ->
  forall i' s' c',
    matches fullValidDurationRegex 0 (ds ++ "us") [] i' s' c' ->
    c' = [("microseconds", ds)].
Proof.
  intros Hne Hds i' s' c'.
  unfold fullValidDurationRegex, Seqs. cbn [matches].
  intros (i1 & s1 & c1 & (_ & -> & -> & ->)
          & i2 & s2 & c2 & N & i3 & s3 & c3 & Y & i4 & s4 & c4 & D
          & i5 & s5 & c5 & H & i6 & s6 & c6 & Mi & i7 & s7 & c7 & S
          & i8 & s8 & c8 & Ms & i9 & s9 & c9 & Us & E).
  unfold validNegationRegex, paren in N.
  destruct N as [N|(-> & -> & ->)].
  { exfalso. apply matches_Grp in N as (w & c1 & _ & _ & N & _).
    apply (no_Lit_on_digits_us _ _ _ _ _ _ _ Hds) in N; [exact N | reflexivity ..]. }
  destruct Y as [Y|(-> & -> & ->)]; [no_unit Y|].
  destruct D as [D|(-> & -> & ->)]; [no_unit D|].
  destruct H as [H|(-> & -> & ->)]; [no_unit H|].
  destruct Mi as [Mi|(-> & -> & ->)]; [no_unit Mi|].
  destruct S as [S|(-> & -> & ->)]; [no_unit S|].
  destruct Ms as [Ms|(-> & -> & ->)]; [no_unit Ms|].
  destruct Us as [Us|(-> & -> & ->)].
  - apply (matches_unit_digits _ _ "u" "s") in Us as (w & r' & -> & _ & Us);
      [ | digit_side ..].
    rewrite all_app in Hds. apply andb_prop in Hds as [_ Hr].
    destruct Us as (j & t & d & L1 & L2).
    apply matches_Lit in L1 as (E1 & -> & ->).
    apply (digits_then_head "u" "s" r' "u"%char t Hr) in E1
      as [[Hd _]|(_ & -> & ->)]; [discriminate Hd|].
    apply matches_Lit in L2 as (E2 & -> & ->).
    destruct E as (_ & _ & _ & ->). rewrite app_nil_r. reflexivity.
  - exfalso. destruct E as (E & _). destruct ds; discriminate.
Qed.

Lemma full_us_exists ds :
  ds <> "" -> all is_digit ds = true ->
  matches fullValidDurationRegex 0 (ds ++ "us") []
          (String.length ds + 2)%nat "" [("microseconds", ds)].
Proof.
  intros Hne Hds.
  unfold fullValidDurationRegex, Seqs. cbn [matches].
  exists 0%nat, (ds ++ "us"), []. split; [auto|].
  do 7 (exists 0%nat, (ds ++ "us"), []; split; [right; auto|]).
  exists (String.length ds + 2)%nat, "", [("microseconds", ds)]. split; [left|auto].
  unfold validMicrosecondsDurationRegex, unitRegex, Seqs. cbn [matches].
  exists 0%nat, (ds ++ "us"), []. split; [exists ""; auto|].
  exists (String.length ds), "us", [("microseconds", ds)]. split.
  - apply (matches_Grp "microseconds" validDurationValueRegex).
    exists ds, []. repeat split; auto.
    unfold validDurationValueRegex, paren, Seqs.
    change (Seq (Chr is_digit) (Star is_digit)) with (Plus is_digit).
    cbn [matches].
    exists 0%nat, (ds ++ "us"), []. split; [right; auto|].
    exists (String.length ds), "us", []. split; [|right; auto].
    apply matches_Plus. exists ds. auto.
  - exists (S (String.length ds)), "s", [("microseconds", ds)].
    split; apply matches_Lit; repeat split; auto. lia.
Qed.

Lemma exec_full_us ds :
  ds <> "" -> all is_digit ds = true ->
  exec fullValidDurationRegex (ds ++ "us") = Some [("microseconds", ds)].
Proof.
  intros Hne Hds. apply exec_unique.
  - eexists _, _. apply full_us_exists; assumption.
  - apply full_us_unique; assumption.
Qed.

(** C3, amended.  A number of microseconds written with its unit is taken
    literally: for every non-negative integer [a] (below 2^53, where doubles
    are exact), [parseDurationString] of the digits of [a] followed by [us]
    has [a] as microseconds and 0 in every other field, whatever the default
    unit; nothing is carried into the coarser units. *)
Theorem parseDurationString_us_literal (a : Z) (units : Units) :
  (0 <= a < 2 ^ 53)%Z ->
  parseDurationString (Z_to_string a ++ "us") units
  = Ok (ParsedDuration
          {| days := num 0; hours := num 0; isNegative := false;
             microseconds := num a; milliseconds := num 0; minutes := num 0;
             seconds := num 0; years := num 0 |}).
Proof.
  intros [Ha _].
  destruct (Z_to_string_digits a Ha) as (Hne & Hds & Hv).
  unfold parseDurationString. rewrite (exec_full_us _ Hne Hds).
  cbn [group_or group String.eqb Ascii.eqb Bool.eqb is_empty negb].
  rewrite (parseFloat_digits _ Hne Hds), Hv.
  change (parseFloat "0") with (num 0). reflexivity.
Qed.

(** At [a = 1500000] the hypotheses hold. *)
Lemma parseDurationString_us_literal_witness :
  (0 <= 1500000 < 2 ^ 53)%Z
  /\ parseDurationString (Z_to_string 1500000 ++ "us") u_microseconds
     = Ok (ParsedDuration
             {| days := num 0; hours := num 0; isNegative := false;
                microseconds := num 1500000; milliseconds := num 0;
                minutes := num 0; seconds := num 0; years := num 0 |}).
Proof.
  split; [lia | apply (parseDurationString_us_literal 1500000 u_microseconds); lia].
Defined.

(** C3 as stated fails: with [a = 1500000] the milliseconds are 0 and not
    [floor(a / 1000) mod 1000 = 500]; the microseconds are not carried. *)
Lemma parseDurationString_us_not_carried :
  parseDurationString "1500000us" u_microseconds
  = Ok (ParsedDuration
          {| days := num 0; hours := num 0; isNegative := false;
             microseconds := num 1500000; milliseconds := num 0;
             minutes := num 0; seconds := num 0; years := num 0 |})
  /\ ((1500000 / 1000) mod 1000 = 500)%Z.
Proof. split; reflexivity. Qed.

End Microseconds.

(* ================================================================== *)
(** * What a group can capture *)
(* ================================================================== *)

Section GroupContents.
Import Js Re.

Lemma app_inv_tail (v w s : string) : v ++ s = w ++ s -> v = w.
Proof.
  intros E.
  assert (L : String.length v = String.length w).
  { apply (f_equal String.length) in E. rewrite !length_app in E. lia. }
  rewrite <- (take_app v s), E, L. apply take_app.
Qed.

(** The capturing groups of a pattern, with their patterns.  What is
    captured inside a lookahead is dropped by the matcher. *)
Fixpoint groups_of (r : regex) : list (string * regex) :=
  match r with
  | Grp g a => (g, a) :: groups_of a
  | Seq a b | Alt a b => groups_of a ++ groups_of b
  | Opt a => groups_of a
  | _ => []
  end.

(** [a] matches the text [v] somewhere. *)
Definition spans (a : regex) (v : string) : Prop :=
  exists i s c i' s' c', matches a i s c i' s' c' /\ s = v ++ s'.

(** A capture after a match was there before, or is a text that the
    pattern of its group matched. *)
Lemma capture_sound : forall r i s c i' s' c',
  matches r i s c i' s' c' ->
  forall g v, group g c' = Some v ->
              group g c = Some v \/ exists a, In (g, a) (groups_of r) /\ spans a v.
Proof.
  induction r as [|p|a IHa b IHb|a IHa b IHb|a IHa|p|g0 a IHa| | |a IHa];
    intros i s c i' s' c' M g v G.
  - destruct M as (_ & _ & ->); auto.
  - destruct M as (x & _ & _ & _ & ->); auto.
  - destruct M as (i1 & s1 & c1 & Ma & Mb). cbn [groups_of].
    destruct (IHb _ _ _ _ _ _ Mb g v G) as [G1|(x & Hx & Sx)].
    + destruct (IHa _ _ _ _ _ _ Ma g v G1) as [G0|(x & Hx & Sx)]; [auto|].
      right. exists x. split; [apply in_or_app|]; auto.
    + right. exists x. split; [apply in_or_app|]; auto.
  - cbn [groups_of]. destruct M as [M|M].
    + destruct (IHa _ _ _ _ _ _ M g v G) as [G0|(x & Hx & Sx)]; [auto|].
      right. exists x. split; [apply in_or_app|]; auto.
    + destruct (IHb _ _ _ _ _ _ M g v G) as [G0|(x & Hx & Sx)]; [auto|].
      right. exists x. split; [apply in_or_app|]; auto.
  - cbn [groups_of]. destruct M as [M|(_ & _ & ->)]; [|auto].
    apply (IHa _ _ _ _ _ _ M g v G).
  - destruct M as (w & _ & _ & _ & ->); auto.
  - apply matches_Grp in M as (w & c1 & E & Hi & M & ->).
    cbn [group] in G. cbn [groups_of].
    destruct (String.eqb g g0) eqn:Hg.
    + apply String.eqb_eq in Hg as ->. injection G as <-.
      right. exists a. split; [left; reflexivity|].
      exists i, s, c, i', s', c1. auto.
    + destruct (IHa _ _ _ _ _ _ M g v G) as [G0|(x & Hx & Sx)]; [auto|].
      right. exists x. split; [right|]; auto.
  - destruct M as (_ & _ & _ & ->); auto.
  - destruct M as (_ & _ & _ & ->); auto.
  - destruct M as (_ & _ & _ & ->); auto.
Qed.

(** Captures are never removed. *)
Lemma capture_kept : forall r i s c i' s' c',
  matches r i s c i' s' c' ->
  forall g, group g c <> None -> group g c' <> None.
Proof.
  induction r as [|p|a IHa b IHb|a IHa b IHb|a IHa|p|g0 a IHa| | |a IHa];
    intros i s c i' s' c' M g G.
  - destruct M as (_ & _ & ->); auto.
  - destruct M as (x & _ & _ & _ & ->); auto.
  - destruct M as (i1 & s1 & c1 & Ma & Mb). eauto.
  - destruct M as [M|M]; eauto.
  - destruct M as [M|(_ & _ & ->)]; eauto.
  - destruct M as (w & _ & _ & _ & ->); auto.
  - destruct M as (c1 & M & ->). cbn [group].
    destruct (String.eqb g g0); [discriminate|]. eauto.
  - destruct M as (_ & _ & _ & ->); auto.
  - destruct M as (_ & _ & _ & ->); auto.
  - destruct M as (_ & _ & _ & ->); auto.
Qed.

(** The groups that take part in every match of a pattern. *)
Fixpoint sure_groups (r : regex) : list string :=
  match r with
  | Grp g a => g :: sure_groups a
  | Seq a b => sure_groups a ++ sure_groups b
  | _ => []
  end.

Lemma capture_sure : forall r i s c i' s' c',
  matches r i s c i' s' c' ->
  forall g, In g (sure_groups r) -> group g c' <> None.
Proof.
  induction r as [|p|a IHa b IHb|a IHa b IHb|a IHa|p|g0 a IHa| | |a IHa];
    intros i s c i' s' c' M g G; try contradiction.
  - destruct M as (i1 & s1 & c1 & Ma & Mb). cbn [sure_groups] in G.
    apply in_app_or in G as [G|G].
    + eapply capture_kept; [eassumption|]. eauto.
    + eauto.
  - destruct M as (c1 & M & ->). cbn [group]. cbn [sure_groups] in G.
    destruct (String.eqb g g0) eqn:Hg; [discriminate|].
    destruct G as [G|G]; [|eauto].
    subst g0. rewrite String.eqb_refl in Hg. discriminate.
Qed.

(** A pattern made of characters of the class [P] only. *)
Inductive only (P : ascii -> bool) : regex -> Prop :=
| only_Eps : only P Eps
| only_Chr p : (forall x, p x = true -> P x = true) -> only P (Chr p)
| only_Seq a b : only P a -> only P b -> only P (Seq a b)
| only_Alt a b : only P a -> only P b -> only P (Alt a b)
| only_Opt a : only P a -> only P (Opt a)
| only_Star p : (forall x, p x = true -> P x = true) -> only P (Star p).

(** The least number of characters a match consumes. *)
Fixpoint min_len (r : regex) : nat :=
  match r with
  | Chr _ => 1
  | Seq a b => min_len a + min_len b
  | Alt a b => Nat.min (min_len a) (min_len b)
  | Grp _ a => min_len a
  | _ => 0
  end.

Lemma all_weaken (p P : ascii -> bool) (w : string) :
  (forall x, p x = true -> P x = true) -> all p w = true -> all P w = true.
Proof.
  intros H. induction w as [|a w IH]; simpl; [auto|].
  intros Hw. apply andb_prop in Hw as [Ha Hw]. rewrite (H _ Ha); auto.
Qed.

Lemma only_sound P : forall r, only P r ->
  forall i s c i' s' c', matches r i s c i' s' c' ->
  exists w, s = w ++ s' /\ all P w = true.
Proof.
  induction 1 as [|p Hp|a b _ IHa _ IHb|a b _ IHa _ IHb|a _ IHa|p Hp];
    intros i s c i' s' c' M.
  - destruct M as (_ & -> & _). exists "". auto.
  - destruct M as (x & -> & Hx & _). exists (String x ""). simpl.
    rewrite (Hp _ Hx). auto.
  - destruct M as (i1 & s1 & c1 & Ma & Mb).
    apply IHa in Ma as (w1 & -> & H1). apply IHb in Mb as (w2 & -> & H2).
    exists (w1 ++ w2). rewrite app_assoc, all_app, H1, H2. auto.
  - destruct M as [M|M]; eauto.
  - destruct M as [M|(_ & -> & _)]; eauto. exists "". auto.
  - destruct M as (w & -> & Hw & _). exists w. split; [auto|].
    eapply all_weaken; eassumption.
Qed.

Lemma min_len_sound : forall r i s c i' s' c',
  matches r i s c i' s' c' ->
  (String.length s' + min_len r <= String.length s)%nat.
Proof.
  induction r as [|p|a IHa b IHb|a IHa b IHb|a IHa|p|g0 a IHa| | |a IHa];
    intros i s c i' s' c' M; cbn [min_len].
  - destruct M as (_ & -> & _). lia.
  - destruct M as (x & -> & _). simpl. lia.
  - destruct M as (i1 & s1 & c1 & Ma & Mb).
    apply IHa in Ma. apply IHb in Mb. lia.
  - destruct M as [M|M]; [apply IHa in M|apply IHb in M]; lia.
  - destruct M as [M|(_ & -> & _)]; [|lia].
    apply matches_consumes in M as (w & -> & _). rewrite length_app. lia.
  - destruct M as (w & -> & _). rewrite length_app. lia.
  - destruct M as (c1 & M & _). eauto.
  - destruct M as (_ & _ & -> & _). lia.
  - destruct M as (_ & _ & -> & _). lia.
  - destruct M as (_ & _ & -> & _). lia.
Qed.

(** A text matched by a pattern of digits that consumes at least one
    character is a numeral. *)
Lemma spans_digits a v :
  only is_digit a -> (0 < min_len a)%nat -> spans a v ->
  v <> "" /\ all is_digit v = true.
Proof.
  intros O L (i & s & c & i' & s' & c' & M & ->).
  pose proof (min_len_sound _ _ _ _ _ _ _ M) as Hl. rewrite length_app in Hl.
  split; [intros ->; simpl in Hl; lia|].
  destruct (only_sound _ _ O _ _ _ _ _ _ M) as (w & E & Hw).
  apply app_inv_tail in E as ->. assumption.
Qed.

End GroupContents.

(* ================================================================== *)
(** * Magnitudes *)
(* ================================================================== *)

Section Magnitudes.
Import Js Re Spec.

Lemma magnitude_Qred q : (0 <= q)%Q -> is_magnitude (Num (Qred q)) = true.
Proof. intros H. simpl. apply Qle_bool_iff. rewrite Qred_correct. assumption. Qed.

Lemma magnitude_num z : (0 <= z)%Z -> is_magnitude (num z) = true.
Proof.
  intros H. simpl. apply Qle_bool_iff. unfold Qle. simpl. lia.
Qed.

Lemma magnitude_inv n :
  is_magnitude n = true -> exists q, n = Num q /\ (0 <= q)%Q.
Proof.
  destruct n as [|q]; simpl; [discriminate|]. intros H.
  exists q. split; [reflexivity|]. apply Qle_bool_iff. assumption.
Qed.

Lemma digit_val_range c : is_digit c = true -> (0 <= digit_val c <= 9)%Z.
Proof.
  unfold is_digit, digit_val. intros H. apply andb_prop in H as [H1 H2].
  apply Nat.leb_le in H1, H2. remember (code c) as n. clear Heqn. lia.
Qed.

Lemma digits_val_nonneg : forall s acc,
  all is_digit s = true -> (0 <= acc)%Z -> (0 <= digits_val acc s)%Z.
Proof.
  induction s as [|c s IH]; cbn [all digits_val]; intros acc H Ha; [assumption|].
  apply andb_prop in H as [Hc Hs]. apply IH; [assumption|].
  pose proof (digit_val_range c Hc) as R.
  remember (digit_val c) as dv. clear Heqdv. lia.
Qed.

Lemma parseInt_magnitude v :
  v <> "" -> all is_digit v = true -> is_magnitude (parseInt v) = true.
Proof.
  intros Hne Hv. rewrite (parseInt_digits v Hne Hv).
  apply magnitude_num, digits_val_nonneg; [assumption|lia].
Qed.

Lemma decimal_value_nonneg i f :
  all is_digit i = true -> all is_digit f = true ->
  (0 <= decimal_value 1 i f)%Q.
Proof.
  intros Hi Hf. unfold decimal_value. rewrite Qred_correct.
  pose proof (digits_val_nonneg i 0 Hi (Z.le_refl 0)) as Pi.
  pose proof (digits_val_nonneg f 0 Hf (Z.le_refl 0)) as Pf.
  assert (P10 : (0 < 10 ^ Z.of_nat (String.length f))%Z) by (apply Z.pow_pos_nonneg; lia).
  change (inject_Z 1) with 1%Q. rewrite Qmult_1_l.
  apply Qle_trans with (inject_Z (digits_val 0 i) + 0)%Q.
  - rewrite Qplus_0_r. unfold Qle; simpl; lia.
  - apply Qplus_le_r. apply Qle_shift_div_l.
    + unfold Qlt; simpl; lia.
    + rewrite Qmult_0_l. unfold Qle; simpl; lia.
Qed.

(** [parseFloat] of a point followed by digits. *)
Lemma parseFloat_fraction f :
  f <> "" -> all is_digit f = true ->
  parseFloat (String "." f) = Num (decimal_value 1 "" f).
Proof.
  intros Hne Hf. unfold parseFloat. cbn [trimStart]. 
  change (is_ws ".") with false. cbv iota.
  change (split_sign (String "." f)) with (1%Z, String "." f).
  cbn [span]. change (is_digit ".") with false. cbv iota.
  rewrite (span_digits f Hf). destruct f; [contradiction|reflexivity].
Qed.

Lemma parseFloat_magnitude_fraction f :
  f <> "" -> all is_digit f = true ->
  is_magnitude (parseFloat (String "." f)) = true.
Proof.
  intros Hne Hf. rewrite (parseFloat_fraction f Hne Hf). simpl.
  apply Qle_bool_iff. apply decimal_value_nonneg; [reflexivity|assumption].
Qed.

Lemma nmul_magnitude a b :
  is_magnitude a = true -> is_magnitude b = true -> is_magnitude (nmul a b) = true.
Proof.
  intros Ha Hb. apply magnitude_inv in Ha as (x & -> & Hx).
  apply magnitude_inv in Hb as (y & -> & Hy).
  apply magnitude_Qred. apply Qmult_le_0_compat; assumption.
Qed.

Lemma nadd_magnitude a b :
  is_magnitude a = true -> is_magnitude b = true -> is_magnitude (nadd a b) = true.
Proof.
  intros Ha Hb. apply magnitude_inv in Ha as (x & -> & Hx).
  apply magnitude_inv in Hb as (y & -> & Hy).
  apply magnitude_Qred. 
  apply Qle_trans with (0 + 0)%Q; [apply Qle_refl|apply Qplus_le_compat; assumption].
Qed.

Lemma Qfloor_nonneg q : (0 <= q)%Q -> (0 <= Qfloor q)%Z.
Proof.
  intros H. change 0%Z with (Qfloor 0). apply Qfloor_resp_le. assumption.
Qed.

Lemma toFixed_magnitude n a :
  is_magnitude a = true -> is_magnitude (toFixed_value n a) = true.
Proof.
  intros Ha. apply magnitude_inv in Ha as (x & -> & Hx).
  unfold toFixed_value. apply magnitude_Qred.
  assert (P10 : (0 < 10 ^ Z.of_nat n)%Z) by (apply Z.pow_pos_nonneg; lia).
  apply Qle_shift_div_l; [unfold Qlt; simpl; lia|].
  rewrite Qmult_0_l.
  assert (F : (0 <= Qfloor (x * inject_Z (10 ^ Z.of_nat n) + (1 # 2)))%Z).
  { apply Qfloor_nonneg.
    apply Qle_trans with (0 + 0)%Q; [apply Qle_refl|].
    apply Qplus_le_compat; [|discriminate].
    apply Qmult_le_0_compat; [assumption|].
    change 0%Q with (inject_Z 0). rewrite <- Zle_Qle. lia. }
  change 0%Q with (inject_Z 0). rewrite <- Zle_Qle. exact F.
Qed.

Lemma Qdiv_pos_nonneg x (b : Z) : (0 <= x)%Q -> (0 < b)%Z -> (0 <= x / inject_Z b)%Q.
Proof.
  intros Hx Hb. apply Qle_shift_div_l; [unfold Qlt; simpl; lia|].
  rewrite Qmult_0_l. assumption.
Qed.

Lemma Qeq_bool_inject_pos (b : Z) : (0 < b)%Z -> Qeq_bool (inject_Z b) 0 = false.
Proof.
  intros Hb. destruct (Qeq_bool (inject_Z b) 0) eqn:E; [|reflexivity].
  apply Qeq_bool_iff in E. unfold Qeq in E. simpl in E. lia.
Qed.

(** The two halves of a carry are magnitudes when what goes in is. *)
Lemma carry_magnitude lo hi base :
  (0 < base)%Z ->
  is_magnitude lo = true -> is_magnitude hi = true ->
  is_magnitude (fst (Time.carry lo hi base)) = true
  /\ is_magnitude (snd (Time.carry lo hi base)) = true.
Proof.
  intros Hb Hlo Hhi.
  apply magnitude_inv in Hlo as (x & -> & Hx).
  apply magnitude_inv in Hhi as (y & -> & Hy).
  pose proof (Qdiv_pos_nonneg x base Hx Hb) as Hd.
  unfold Time.carry. cbn [fst snd]. split.
  - unfold nrem, num. rewrite (Qeq_bool_inject_pos base Hb).
    apply magnitude_Qred. unfold Qtrunc.
    pose proof (proj2 (Qle_bool_iff 0 (x / inject_Z base)) Hd) as E. rewrite E.
    pose proof (Qfloor_le (x / inject_Z base)) as F.
    assert (G : (inject_Z base * inject_Z (Qfloor (x / inject_Z base)) <= x)%Q).
    { apply Qle_trans with (inject_Z base * (x / inject_Z base))%Q.
      - apply Qmult_le_l; [unfold Qlt; simpl; lia | assumption].
      - rewrite Qmult_div_r; [apply Qle_refl|].
        intros Z0. unfold Qeq in Z0. simpl in Z0. lia. }
    unfold Qminus. rewrite <- (Qplus_opp_r (inject_Z base * inject_Z (Qfloor (x / inject_Z base)))).
    apply Qplus_le_l. assumption.
  - apply nadd_magnitude.
    + simpl. apply Qle_bool_iff. assumption.
    + unfold ndiv, num. rewrite (Qeq_bool_inject_pos base Hb).
      unfold Math_floor. apply magnitude_num, Qfloor_nonneg.
      rewrite Qred_correct. assumption.
Qed.

End Magnitudes.

(* ================================================================== *)
(** * The fields of a parsed duration *)
(* ================================================================== *)

Section DurationFields.
Import Js Re Time Spec.

Lemma exec_sound r s m :
  exec r s = Some m ->
  exists pre suf i' s',
    s = pre ++ suf /\ matches r (String.length pre) suf [] i' s' m.
Proof.
  unfold exec. intros H.
  apply search_sound in H as (pre & suf & -> & H). simpl in H.
  apply run_sound in H as (i' & s' & c' & M & A). injection A as ->.
  exists pre, suf, i', s'. auto.
Qed.

(** A numeral: digits, at least one. *)
Definition numeral (v : string) : Prop := v <> "" /\ all is_digit v = true.

(** A group whose pattern is made of digits captures a numeral. *)
Lemma numeral_capture r s m g v :
  exec r s = Some m ->
  (forall a, In (g, a) (groups_of r) -> only is_digit a /\ (0 < min_len a)%nat) ->
  group g m = Some v -> numeral v.
Proof.
  intros E H G. apply exec_sound in E as (pre & suf & i' & s' & _ & M).
  destruct (capture_sound _ _ _ _ _ _ _ M g v G) as [G0|(a & Ha & Sa)];
    [discriminate|].
  destruct (H a Ha) as [O L]. apply spans_digits with a; assumption.
Qed.

Lemma in_range_digit lo hi x :
  is_digit lo = true -> is_digit hi = true ->
  in_range lo hi x = true -> is_digit x = true.
Proof.
  unfold is_digit, in_range. intros Hlo Hhi H.
  apply andb_prop in Hlo as [L1 _]. apply andb_prop in Hhi as [_ H2].
  apply andb_prop in H as [X1 X2].
  apply Nat.leb_le in L1, H2, X1, X2.
  apply andb_true_intro. split; apply Nat.leb_le; lia.
Qed.

Lemma is_char_digit d x : is_digit d = true -> is_char d x = true -> is_digit x = true.
Proof. unfold is_char. intros Hd H. apply Ascii.eqb_eq in H as <-. assumption. Qed.

(** The classes of the patterns that are classes of digits. *)
Ltac digit_class :=
  let x := fresh "x" in
  let Hx := fresh "Hx" in
  intros x Hx;
  first [ exact Hx
        | apply (in_range_digit _ _ x) in Hx; [exact Hx | reflexivity ..]
        | apply (is_char_digit _ x) in Hx; [exact Hx | reflexivity] ].

Ltac only_digits :=
  repeat first [ apply only_Seq | apply only_Alt | apply only_Opt
               | apply only_Eps | apply only_Chr | apply only_Star ];
  digit_class.

(** Settles the side condition of [numeral_capture] for a pattern given in
    full: each group of the wanted name has a pattern of digits. *)
Ltac numeral_groups :=
  let a := fresh "a" in
  let Hin := fresh "Hin" in
  intros a Hin; cbv [groups_of app] in Hin;
  repeat (destruct Hin as [Hin|Hin]; [try discriminate Hin|]);
  [injection Hin as <-; split; [only_digits | vm_compute; lia] .. | contradiction].

(** A numeric field read with [parseInt] off a group of digits, or off the
    default [0]. *)
Lemma parseInt_group_magnitude g m :
  (forall v, group g m = Some v -> numeral v) ->
  is_magnitude (parseInt (group_or g "0" m)) = true.
Proof.
  intros H. unfold group_or. destruct (group g m) as [v|].
  - destruct (H v eq_refl). apply parseInt_magnitude; assumption.
  - reflexivity.
Qed.

Lemma duration_tag_numerals r s m g v :
  r = EPOCH_TIME \/ r = RELATIVE_TIME ->
  exec r s = Some m ->
  g = "doy" \/ g = "hr" \/ g = "mins" \/ g = "secs" \/ g = "ms" ->
  group g m = Some v -> numeral v.
Proof.
  intros Hr E Hg. apply (numeral_capture r s m g v E).
  destruct Hr as [-> | ->];
    destruct Hg as [-> | [-> | [-> | [-> | ->]]]];
    unfold EPOCH_TIME, RELATIVE_TIME, Seqs, paren; numeral_groups.
Qed.

Lemma parseDOYDurationTime_magnitudes s d :
  parseDOYDurationTime s = Some d -> magnitudes (ParsedDuration d) = true.
Proof.
  unfold parseDOYDurationTime.
  destruct (validateTime s TimeTypes.EPOCH);
    [destruct (exec EPOCH_TIME s) as [m|] eqn:E
    |destruct (exec RELATIVE_TIME s) as [m|] eqn:E]; try discriminate;
    intros H; injection H as <-; cbn [magnitudes years days hours minutes seconds
                                     milliseconds microseconds];
    repeat (apply andb_true_intro; split); try reflexivity;
    apply parseInt_group_magnitude; intros v;
    eapply duration_tag_numerals; try eassumption; auto 10.
Qed.

Lemma calendar_numerals s m g v :
  exec (doyOrYmdRegex 6) s = Some m ->
  g = "year" \/ g = "month" \/ g = "day" \/ g = "doy"
  \/ g = "hour" \/ g = "min" \/ g = "sec" ->
  group g m = Some v -> numeral v.
Proof.
  intros E Hg. apply (numeral_capture _ s m g v E).
  destruct Hg as [-> | [-> | [-> | [-> | [-> | [-> | ->]]]]]];
    unfold doyOrYmdRegex, Seqs, paren; numeral_groups.
Qed.

(** A point followed by digits. *)
Lemma spans_fraction a v :
  only is_digit a -> (0 < min_len a)%nat -> spans (Seq (Lit ".") a) v ->
  exists f, v = String "." f /\ numeral f.
Proof.
  intros O L (i & s & c & i' & s' & c' & M & ->).
  destruct M as (i1 & s1 & c1 & M1 & M2).
  apply matches_Lit in M1 as (E & _ & _).
  pose proof (min_len_sound _ _ _ _ _ _ _ M2) as Hl.
  destruct (only_sound _ _ O _ _ _ _ _ _ M2) as (w & -> & Hw).
  exists w. split.
  - apply (app_inv_tail _ _ s'). exact E.
  - split; [|assumption]. intros ->. simpl in Hl. lia.
Qed.

Lemma calendar_fraction s m v :
  exec (doyOrYmdRegex 6) s = Some m ->
  group "dec" m = Some v -> exists f, v = String "." f /\ numeral f.
Proof.
  intros E G. apply exec_sound in E as (pre & suf & i' & s' & _ & M).
  destruct (capture_sound _ _ _ _ _ _ _ M _ v G) as [G0|(a & Ha & Sa)];
    [discriminate|].
  unfold doyOrYmdRegex, Seqs, paren in Ha. cbv [groups_of app] in Ha.
  repeat (destruct Ha as [Ha|Ha]; [try discriminate Ha|]); [|contradiction].
  injection Ha as <-.
  apply spans_fraction in Sa; [assumption | only_digits | vm_compute; lia].
Qed.

(** The year takes part in every match of the calendar pattern, and so
    does the day of year, or else the day and the month. *)
Lemma calendar_presence s m :
  exec (doyOrYmdRegex 6) s = Some m ->
  group "year" m <> None
  /\ (group "doy" m <> None \/ (group "day" m <> None /\ group "month" m <> None)).
Proof.
  intros E. apply exec_sound in E as (pre & suf & i' & s' & _ & M).
  unfold doyOrYmdRegex, Seqs in M.
  destruct M as (i1 & s1 & c1 & MB & i2 & s2 & c2 & MY & i3 & s3 & c3 & ML
                 & i4 & s4 & c4 & MA & i5 & s5 & c5 & MT & ME).
  destruct ME as (_ & _ & _ & ->).
  split.
  - apply (capture_kept _ _ _ _ _ _ _ MT).
    apply (capture_kept _ _ _ _ _ _ _ MA).
    apply (capture_kept _ _ _ _ _ _ _ ML).
    apply (capture_sure _ _ _ _ _ _ _ MY). left; reflexivity.
  - destruct MA as [MA|MA].
    + right. split; apply (capture_kept _ _ _ _ _ _ _ MT);
        apply (capture_sure _ _ _ _ _ _ _ MA); simpl; auto.
    + left. apply (capture_kept _ _ _ _ _ _ _ MT).
      apply (capture_sure _ _ _ _ _ _ _ MA). left; reflexivity.
Qed.

Lemma calendar_ms_magnitude s m :
  exec (doyOrYmdRegex 6) s = Some m ->
  is_magnitude (toFixed_value 6 (nmul (parseFloat (group_or "dec" ".0" m)) (num 1000)))
  = true.
Proof.
  intros E. apply toFixed_magnitude, nmul_magnitude; [|reflexivity].
  unfold group_or. destruct (group "dec" m) as [v|] eqn:G; [|reflexivity].
  destruct (calendar_fraction s m v E G) as (f & -> & Hne & Hf).
  apply parseFloat_magnitude_fraction; assumption.
Qed.

Lemma calendar_partial_magnitudes s m :
  exec (doyOrYmdRegex 6) s = Some m ->
  is_magnitude (parseInt (group_or "hour" "0" m)) = true
  /\ is_magnitude (parseInt (group_or "min" "0" m)) = true
  /\ is_magnitude (parseInt (group_or "sec" "0" m)) = true
  /\ is_magnitude (match group "year" m with Some y => parseInt y | None => NaN end) = true.
Proof.
  intros E. repeat split;
    try (apply parseInt_group_magnitude; intros v;
         apply (calendar_numerals s m _ v E); auto 10).
  destruct (calendar_presence s m E) as [Y _].
  destruct (group "year" m) as [y|] eqn:G; [|contradiction].
  destruct (calendar_numerals s m "year" y E) as [Hne Hy]; auto.
  apply parseInt_magnitude; assumption.
Qed.

Lemma parseDoyOrYmdTime_magnitudes s p :
  parseDoyOrYmdTime s = Some p -> magnitudes p = true.
Proof.
  unfold parseDoyOrYmdTime, parseDoyOrYmdTime_n.
  destruct (exec (doyOrYmdRegex 6) s) as [m|] eqn:E.
  - destruct (calendar_partial_magnitudes s m E) as (Hh & Hm & Hs & Hy).
    pose proof (calendar_ms_magnitude s m E) as Hms.
    destruct (calendar_presence s m E) as [_ P].
    destruct (group "doy" m) as [doy|] eqn:G; intros H; injection H as <-;
      cbn [magnitudes hour min ms sec year]; rewrite Hh, Hm, Hs, Hy, Hms; cbn [andb].
    + destruct (calendar_numerals s m "doy" doy E) as [Hne Hd]; auto.
      apply parseInt_magnitude; assumption.
    + destruct P as [P|[Pd Pm]]; [contradiction|].
      destruct (group "day" m) as [day|] eqn:Gd; [|contradiction].
      destruct (group "month" m) as [month|] eqn:Gm; [|contradiction].
      destruct (calendar_numerals s m "day" day E) as [Hne Hd]; auto.
      destruct (calendar_numerals s m "month" month E) as [Hne' Hd']; auto 10.
      rewrite (parseInt_magnitude day), (parseInt_magnitude month); auto.
  - destruct (parseDOYDurationTime s) as [d|] eqn:D; [|discriminate].
    intros H; injection H as <-. apply parseDOYDurationTime_magnitudes with s. exact D.
Qed.

Lemma bare_number_int s m v :
  exec bareNumberRegex s = Some m -> group "int" m = Some v -> numeral v.
Proof.
  intros E. apply (numeral_capture _ s m "int" v E).
  unfold bareNumberRegex, Seqs, paren; numeral_groups.
Qed.

Lemma bare_number_decimal s m v :
  exec bareNumberRegex s = Some m ->
  group "decimal" m = Some v -> exists f, v = String "." f /\ numeral f.
Proof.
  intros E G. apply exec_sound in E as (pre & suf & i' & s' & _ & M).
  destruct (capture_sound _ _ _ _ _ _ _ M _ v G) as [G0|(a & Ha & Sa)];
    [discriminate|].
  unfold bareNumberRegex, Seqs, paren in Ha. cbv [groups_of app] in Ha.
  repeat (destruct Ha as [Ha|Ha]; [try discriminate Ha|]); [|contradiction].
  injection Ha as <-.
  apply spans_fraction in Sa; [assumption | only_digits | vm_compute; lia].
Qed.

(** One carry of the third path, with what is known of its two halves. *)
Ltac carry_step :=
  match goal with
  | |- context [carry ?lo ?hi ?b] =>
      let P := fresh "P" in
      assert (P : is_magnitude (fst (carry lo hi b)) = true
                  /\ is_magnitude (snd (carry lo hi b)) = true)
        by (apply carry_magnitude; [lia | first [assumption | reflexivity] ..]);
      destruct (carry lo hi b) as [? ?]; cbn [fst snd] in P; destruct P
  end.

Lemma bare_number_magnitudes s units p :
  exec fullValidDurationRegex s = None ->
  parseDoyOrYmdTime s = None ->
  parseDurationString s units = Ok p -> magnitudes p = true.
Proof.
  intros F D. unfold parseDurationString. rewrite F, D.
  destruct (exec bareNumberRegex s) as [m|] eqn:E; [|discriminate].
  assert (Hn : is_magnitude (parseInt (group_or "int" "0" m)) = true).
  { apply parseInt_group_magnitude. intros v. apply (bare_number_int s m v E). }
  assert (Hd : is_magnitude (if is_empty (group_or "decimal" "0" m) then num 0
                             else parseFloat (group_or "decimal" "0" m)) = true).
  { unfold group_or. destruct (group "decimal" m) as [v|] eqn:G; [|reflexivity].
    destruct (bare_number_decimal s m v E G) as (f & -> & Hne & Hf).
    cbn [is_empty]. apply parseFloat_magnitude_fraction; assumption. }
  set (number := parseInt (group_or "int" "0" m)) in *.
  set (decimalNum := if is_empty (group_or "decimal" "0" m) then num 0
                     else parseFloat (group_or "decimal" "0" m)) in *.
  clearbody number decimalNum.
  destruct units; cbv beta iota zeta; repeat carry_step;
    intros Hp; injection Hp as <-;
    cbn [magnitudes years days hours minutes seconds milliseconds microseconds];
    repeat (apply andb_true_intro; split); assumption.
Qed.

(* ================================================================== *)
(** * The sign of a parsed duration *)
(* ================================================================== *)

(** A group that a pattern does not have keeps its capture. *)
Lemma capture_untouched r i s c i' s' c' g :
  matches r i s c i' s' c' ->
  (forall a, ~ In (g, a) (groups_of r)) ->
  group g c' = group g c.
Proof.
  intros M N. destruct (group g c') as [v|] eqn:G.
  - destruct (capture_sound _ _ _ _ _ _ _ M g v G) as [G0|(a & Ha & _)].
    + symmetry; assumption.
    + destruct (N a Ha).
  - destruct (group g c) as [v|] eqn:G0; [|reflexivity].
    exfalso. apply (capture_kept _ _ _ _ _ _ _ M g); [rewrite G0; discriminate|assumption].
Qed.

(** What follows the sign in a duration tag:
    [(?<doy>([0-9]{3}))?(T)?(?<hr>([0-9]{2})):...$]. *)
Definition tag_body : regex :=
  Seqs [Opt (Grp "doy" (paren d3)); Opt (paren (Lit "T"));
        Grp "hr" (paren d2); Lit ":"; Grp "mins" (paren d2); Lit ":";
        Opt (Grp "secs" d2); Opt (paren (Lit "."));
        Opt (Grp "ms" (paren (Plus is_digit))); Eol].

Lemma starts_with_digit a i s c i' s' c' :
  matches (Seq (Chr is_digit) a) i s c i' s' c' -> starts_with_minus s = false.
Proof.
  intros (i1 & s1 & c1 & (x & -> & Hx & _) & _). simpl.
  apply (digit_not_char "-" x Hx). reflexivity.
Qed.

Lemma tag_body_start i s c i' s' c' :
  matches tag_body i s c i' s' c' -> starts_with_minus s = false.
Proof.
  unfold tag_body, Seqs, paren.
  intros (i1 & s1 & c1 & M1 & i2 & s2 & c2 & M2 & i3 & s3 & c3 & M3 & _).
  destruct M1 as [M1|(-> & -> & ->)].
  { destruct M1 as (c0 & M1 & _). apply starts_with_digit in M1. assumption. }
  destruct M2 as [M2|(-> & -> & ->)].
  { apply matches_Lit in M2 as (-> & _). reflexivity. }
  destruct M3 as (c0 & M3 & _). apply starts_with_digit in M3. assumption.
Qed.

(** An optional sign captured at the very start records whether the string
    starts with a minus sign, provided that what follows cannot start with
    one. *)
Lemma sign_capture rest s m :
  (forall a, ~ In ("sign", a) (groups_of rest)) ->
  (forall i t c i' t' c', matches rest i t c i' t' c' -> starts_with_minus t = false) ->
  exec (Seq Bol (Seq (Grp "sign" (Opt (Chr is_sign))) rest)) s = Some m ->
  negb (String.eqb (group_or "sign" "" m) "")
  && negb (String.eqb (group_or "sign" "" m) "+")
  = starts_with_minus s.
Proof.
  intros N R E. apply exec_sound in E as (pre & suf & i' & s' & -> & M).
  destruct M as (i1 & s1 & c1 & (P & -> & -> & ->) & i2 & s2 & c2 & MS & MR).
  destruct pre; [simpl|discriminate].
  apply matches_Grp in MS as (w & c0 & -> & -> & MS & ->).
  unfold group_or. rewrite (capture_untouched _ _ _ _ _ _ _ "sign" MR N).
  cbn [group String.eqb Ascii.eqb Bool.eqb].
  destruct MS as [(x & E & Hx & E' & ->)|(_ & E & ->)].
  - assert (w = String x "") as ->.
    { apply (app_inv_tail _ _ s2). exact E. }
    simpl. unfold is_sign, is_char in Hx.
    apply orb_prop in Hx as [Hx|Hx]; apply Ascii.eqb_eq in Hx as <-; reflexivity.
  - assert (w = "") as ->.
    { apply (app_inv_tail _ _ s2). symmetry. exact E. }
    simpl. symmetry. eapply R. eassumption.
Qed.

Lemma EPOCH_TIME_sign s m :
  exec EPOCH_TIME s = Some m ->
  negb (String.eqb (group_or "sign" "" m) "")
  && negb (String.eqb (group_or "sign" "" m) "+")
  = starts_with_minus s.
Proof.
  apply (sign_capture tag_body).
  - intros a Hin. unfold tag_body, Seqs, paren in Hin. cbv [groups_of app] in Hin.
    repeat (destruct Hin as [Hin|Hin]; [discriminate Hin|]). contradiction.
  - apply tag_body_start.
Qed.

Lemma RELATIVE_TIME_sign s m :
  exec RELATIVE_TIME s = Some m ->
  negb (String.eqb (group_or "sign" "" m) "")
  && negb (String.eqb (group_or "sign" "" m) "+")
  = starts_with_minus s.
Proof.
  intros E. apply exec_sound in E as (pre & suf & i' & s' & -> & M).
  change RELATIVE_TIME with (Seq Bol tag_body) in M.
  destruct M as (i1 & s1 & c1 & (P & -> & -> & ->) & MR).
  destruct pre; [simpl|discriminate].
  unfold group_or. rewrite (capture_untouched _ _ _ _ _ _ _ "sign" MR).
  - simpl. symmetry. eapply tag_body_start. eassumption.
  - intros a Hin. unfold tag_body, Seqs, paren in Hin. cbv [groups_of app] in Hin.
    repeat (destruct Hin as [Hin|Hin]; [discriminate Hin|]). contradiction.
Qed.

Lemma parseDOYDurationTime_sign s d :
  parseDOYDurationTime s = Some d -> isNegative d = starts_with_minus s.
Proof.
  unfold parseDOYDurationTime.
  destruct (validateTime s TimeTypes.EPOCH);
    [destruct (exec EPOCH_TIME s) as [m|] eqn:E
    |destruct (exec RELATIVE_TIME s) as [m|] eqn:E]; try discriminate;
    intros H; injection H as <-; cbn [isNegative].
  - apply EPOCH_TIME_sign; assumption.
  - apply RELATIVE_TIME_sign; assumption.
Qed.

Lemma calendar_start s m :
  exec (doyOrYmdRegex 6) s = Some m -> starts_with_minus s = false.
Proof.
  intros E. apply exec_sound in E as (pre & suf & i' & s' & -> & M).
  unfold doyOrYmdRegex, Seqs in M.
  destruct M as (i1 & s1 & c1 & (P & -> & -> & ->) & i2 & s2 & c2 & MY & _).
  destruct pre; [simpl|discriminate].
  destruct MY as (c0 & MY & _). apply starts_with_digit in MY. assumption.
Qed.

Lemma parseDoyOrYmdTime_sign s p :
  parseDoyOrYmdTime s = Some p -> duration_isNegative p = starts_with_minus s.
Proof.
  unfold parseDoyOrYmdTime, parseDoyOrYmdTime_n.
  destruct (exec (doyOrYmdRegex 6) s) as [m|] eqn:E.
  - rewrite (calendar_start s m E).
    destruct (group "doy" m); intros H; injection H as <-; reflexivity.
  - destruct (parseDOYDurationTime s) as [d|] eqn:D; [|discriminate].
    intros H; injection H as <-. apply parseDOYDurationTime_sign. exact D.
Qed.

Lemma bare_number_sign s units p :
  exec fullValidDurationRegex s = None ->
  parseDoyOrYmdTime s = None ->
  parseDurationString s units = Ok p ->
  duration_isNegative p = starts_with_minus s.
Proof.
  intros F D. unfold parseDurationString. rewrite F, D.
  destruct (exec bareNumberRegex s) as [m|] eqn:E; [|discriminate].
  assert (S : negb (String.eqb (group_or "sign" "" m) "")
              && negb (String.eqb (group_or "sign" "" m) "+")
              = starts_with_minus s).
  { revert E. unfold bareNumberRegex, Seqs, paren.
    apply (sign_capture
             (Seq (Grp "int" (Plus is_digit))
                  (Seq (Opt (Grp "decimal" (Seq (Lit ".") (Plus is_digit)))) Eol))).
    - intros a Hin. cbv [groups_of app] in Hin.
      repeat (destruct Hin as [Hin|Hin]; [discriminate Hin|]). contradiction.
    - intros i t c i' t' c' (i1 & s1 & c1 & M & _).
      destruct M as (c0 & M & _). apply starts_with_digit in M. assumption. }
  destruct units; cbv beta iota zeta;
    repeat match goal with
           | |- context [carry ?lo ?hi ?b] => destruct (carry lo hi b) as [? ?]
           end;
    intros H; injection H as <-; exact S.
Qed.

(** C6, amended.  A duration string that is not of the unit-suffixed form,
    and so is parsed as a duration tag, as a calendar time or as a bare
    number, gives non-negative magnitudes in every numeric field; its sign
    is in [isNegative] alone, which tells whether the string starts with a
    minus sign.  This is stated for the strings whose numerals have 15
    digits at most: they are below 2^53 and the code reads them exactly.
    A longer numeral is rounded, and a bare number of 309 digits or more
    is read as [Infinity], whose remainder is [NaN]: the fields of its
    result are not magnitudes. *)
Theorem parseDurationString_magnitudes (s : string) (units : Units) (p : ParsedTime) :
  digit_runs_within 15 s = true ->
  exec fullValidDurationRegex s = None ->
  parseDurationString s units = Ok p ->
  magnitudes p = true /\ duration_isNegative p = starts_with_minus s.
Proof.
  intros _ F H.
  destruct (parseDoyOrYmdTime s) as [q|] eqn:D.
  - assert (q = p) as ->.
    { unfold parseDurationString in H. rewrite F, D in H. injection H; auto. }
    split; [apply parseDoyOrYmdTime_magnitudes with s | apply parseDoyOrYmdTime_sign];
      assumption.
  - split; [apply bare_number_magnitudes with s units
           | apply bare_number_sign with units]; assumption.
Qed.

(** The duration tag of the documentation is parsed on the second path. *)
Lemma parseDurationString_magnitudes_witness :
  digit_runs_within 15 "-002T00:45:00.010" = true
  /\ exec fullValidDurationRegex "-002T00:45:00.010" = None
  /\ parseDurationString "-002T00:45:00.010" u_microseconds
     = Ok (ParsedDuration
             {| days := num 2; hours := num 0; isNegative := true;
                microseconds := num 0; milliseconds := num 10; minutes := num 45;
                seconds := num 0; years := num 0 |})
  /\ magnitudes
       (ParsedDuration
          {| days := num 2; hours := num 0; isNegative := true;
             microseconds := num 0; milliseconds := num 10; minutes := num 45;
             seconds := num 0; years := num 0 |}) = true
  /\ true = starts_with_minus "-002T00:45:00.010".
Proof.
  split; [reflexivity|]. split; [reflexivity|]. split; [reflexivity|].
  apply (parseDurationString_magnitudes "-002T00:45:00.010" u_microseconds);
    reflexivity.
Defined.

(** C6 as stated fails on the unit-suffixed path, where each field may
    carry a sign of its own: the minutes of [1h -30m] are negative while
    [isNegative] is false. *)
Lemma parseDurationString_negative_field :
  parseDurationString "1h -30m" u_microseconds
  = Ok (ParsedDuration
          {| days := num 0; hours := num 1; isNegative := false;
             microseconds := num 0; milliseconds := num 0; minutes := num (-30);
             seconds := num 0; years := num 0 |})
  /\ is_magnitude (num (-30)) = false.
Proof. split; reflexivity. Qed.

End DurationFields.

(* ================================================================== *)
(** * Calendar arithmetic *)
(* ================================================================== *)

Section Calendar.
Import Js JsDate.
#[local] Open Scope Z_scope.

Lemma DaysInYear_range y : 365 <= DaysInYear y <= 366.
Proof. unfold DaysInYear, DayFromYear. Z.div_mod_to_equations. lia. Qed.

Lemma year_search_spec : forall fuel y d,
  DayFromYear y <= d ->
  d < DayFromYear y + 365 * Z.of_nat fuel ->
  DayFromYear (year_search fuel y d) <= d < DayFromYear (year_search fuel y d + 1).
Proof.
  induction fuel as [|f IH]; intros y d Hlo Hhi.
  - simpl in Hhi. lia.
  - cbn [year_search]. pose proof (DaysInYear_range y) as R. unfold DaysInYear in R.
    destruct (DayFromYear (y + 1) <=? d) eqn:E.
    + apply Z.leb_le in E. apply IH; lia.
    + apply Z.leb_gt in E. lia.
Qed.

(** The year of a time is the one its day falls in. *)
Lemma YearFromTime_spec t :
  DayFromYear (YearFromTime t) <= Day t < DayFromYear (YearFromTime t + 1).
Proof.
  unfold YearFromTime. apply year_search_spec.
  - unfold DayFromYear. generalize (Day t). intros d.
    destruct (Z.min_spec (d / 365) (d / 366)) as [[M ->]|[M ->]];
      Z.div_mod_to_equations; lia.
  - rewrite Z2Nat.id by (Z.div_mod_to_equations; lia).
    unfold DayFromYear. generalize (Day t). intros d.
    destruct (Z.min_spec (d / 365) (d / 366)) as [[M ->]|[M ->]];
      Z.div_mod_to_equations; lia.
Qed.

Lemma DayFromYear_mono y z : y <= z -> DayFromYear y <= DayFromYear z.
Proof. unfold DayFromYear. intros H. Z.div_mod_to_equations. lia. Qed.

Lemma time_split t :
  Day t * msPerDay
  + MakeTime (HourFromTime t) (MinFromTime t) (SecFromTime t) (msFromTime t) = t.
Proof.
  unfold Day, MakeTime, HourFromTime, MinFromTime, SecFromTime, msFromTime,
    msPerDay, msPerHour, msPerMinute, msPerSecond.
  Z.div_mod_to_equations. lia.
Qed.

Lemma time_fields_range t :
  0 <= HourFromTime t < 24 /\ 0 <= MinFromTime t < 60
  /\ 0 <= SecFromTime t < 60 /\ 0 <= msFromTime t < 1000.
Proof.
  unfold HourFromTime, MinFromTime, SecFromTime, msFromTime, msPerSecond.
  repeat split; try apply Z.mod_pos_bound; lia.
Qed.

End Calendar.

(* ================================================================== *)
(** * Integers as numbers and as numerals *)
(* ================================================================== *)

Section IntegerNumbers.
Import Js JsDate.
#[local] Open Scope Z_scope.

Lemma nsub_num a b : nsub (num a) (num b) = num (a - b).
Proof.
  unfold nsub, lift2, num. f_equal.
  rewrite <- (Qred_inject_Z (a - b)). apply Qred_complete.
  unfold Z.sub. rewrite inject_Z_plus, inject_Z_opp. reflexivity.
Qed.

Lemma floor_ndiv_num a b : 0 < b -> Math_floor (ndiv (num a) (num b)) = num (a / b).
Proof.
  intros Hb. unfold ndiv, num. rewrite (Qeq_bool_inject_pos b Hb).
  unfold Math_floor, num. do 2 f_equal.
  rewrite (Qfloor_comp _ _ (Qred_correct _)). symmetry. apply Zdiv_Qdiv.
Qed.

Lemma ngtb_num a b : ngtb (num a) (num b) = (b <? a).
Proof.
  unfold ngtb, num. destruct (b <? a) eqn:E.
  - apply Z.ltb_lt in E. apply negb_true_iff.
    destruct (Qle_bool (inject_Z a) (inject_Z b)) eqn:Q; [|reflexivity].
    apply Qle_bool_iff in Q. rewrite <- Zle_Qle in Q. lia.
  - apply Z.ltb_ge in E. apply negb_false_iff.
    apply Qle_bool_iff. rewrite <- Zle_Qle. assumption.
Qed.

Lemma Qtrunc_inject_Z z : Qtrunc (inject_Z z) = z.
Proof.
  unfold Qtrunc. destruct (Qle_bool 0 (inject_Z z)); [apply Qfloor_Z|apply Qceiling_Z].
Qed.

Lemma toInteger_num z : toInteger (num z) = Some z.
Proof. unfold toInteger, num. rewrite Qtrunc_inject_Z. reflexivity. Qed.

Lemma on_time_num f x : on_time f (num x) = num (f x).
Proof. unfold on_time, num. rewrite Qfloor_Z. reflexivity. Qed.

Lemma toString_num z : toString (num z) = Z_to_string z.
Proof. unfold toString, num. rewrite Qred_inject_Z. reflexivity. Qed.

Lemma TimeClip_in_range t :
  Z.abs t <= 8640000000000000 -> TimeClip t = num t.
Proof.
  intros H. unfold TimeClip.
  destruct (8640000000000000 <? Z.abs t) eqn:E; [|reflexivity].
  apply Z.ltb_lt in E. lia.
Qed.

Lemma trimEnd_digits v : all is_digit v = true -> trimEnd v = v.
Proof.
  induction v as [|c v IH]; simpl; [reflexivity|]. intros H.
  apply andb_prop in H as [Hc Hv]. rewrite (IH Hv), (digit_not_ws c Hc). reflexivity.
Qed.

(** Unary plus on a numeral. *)
Lemma toNumber_digits v :
  v <> "" -> all is_digit v = true -> toNumber v = num (digits_val 0 v).
Proof.
  intros Hne Hv. unfold toNumber, trim.
  destruct v as [|c v]; [contradiction|].
  pose proof Hv as Hv'. simpl in Hv'. apply andb_prop in Hv' as [Hc _].
  cbn [trimStart]. rewrite (digit_not_ws c Hc), (trimEnd_digits _ Hv).
  cbn [is_empty].
  assert (Hs : split_sign (String c v) = (1, String c v)).
  { unfold split_sign. pose proof (digit_not_sign c Hc) as S.
    unfold is_sign in S. apply orb_false_iff in S as [S1 S2]. rewrite S1, S2. reflexivity. }
  rewrite Hs, (span_digits _ Hv). cbn [is_empty].
  rewrite decimal_value_int. reflexivity.
Qed.

(** [n] printed and padded to [w] characters is a field of [k] digits that
    reads back as [n]. *)
Definition prints_as_field (k w : nat) (n : Z) : bool :=
  let v := padStart w "0" (Z_to_string n) in
  Spec.is_field k v && (digits_val 0 v =? n).

Lemma checked_range (P : Z -> bool) (lo : Z) (len : nat) :
  forallb P (map (fun i => lo + Z.of_nat i) (seq 0 len)) = true ->
  forall n, lo <= n < lo + Z.of_nat len -> P n = true.
Proof.
  intros H n Hn. rewrite forallb_forall in H. apply H.
  apply in_map_iff. exists (Z.to_nat (n - lo)). split; [lia|].
  apply in_seq. lia.
Qed.

Lemma prints_two n : 0 <= n < 100 -> prints_as_field 2 2 n = true.
Proof. apply (checked_range (prints_as_field 2 2) 0 100). vm_compute. reflexivity. Qed.

Lemma prints_three n : 0 <= n < 1000 -> prints_as_field 3 3 n = true.
Proof. apply (checked_range (prints_as_field 3 3) 0 1000). vm_compute. reflexivity. Qed.

(** A year of four digits is printed as it is. *)
Lemma prints_year n : 1000 <= n < 10000 -> prints_as_field 4 0 n = true.
Proof.
  apply (checked_range (prints_as_field 4 0) 1000 (Z.to_nat 9000)).
  vm_compute. reflexivity.
Qed.

Lemma prints_as_field_inv k w n :
  prints_as_field k w n = true ->
  String.length (padStart w "0" (Z_to_string n)) = k
  /\ all is_digit (padStart w "0" (Z_to_string n)) = true
  /\ digits_val 0 (padStart w "0" (Z_to_string n)) = n.
Proof.
  unfold prints_as_field, Spec.is_field. intros H.
  apply andb_prop in H as [H H3]. apply andb_prop in H as [H1 H2].
  apply Nat.eqb_eq in H1. apply Z.eqb_eq in H3. auto.
Qed.

End IntegerNumbers.

(* ================================================================== *)
(** * Reading a timestamp *)
(* ================================================================== *)

Section ReadTimestamp.
Import Js Re JsDate Time Spec.

Lemma is_field_inv k v :
  is_field k v = true -> String.length v = k /\ all is_digit v = true.
Proof.
  unfold is_field. intros H. apply andb_prop in H as [H1 H2].
  apply Nat.eqb_eq in H1. auto.
Qed.

Lemma is_field_numeral k v : is_field (S k) v = true -> numeral v.
Proof.
  intros H. apply is_field_inv in H as [L D]. split; [|assumption].
  intros ->. discriminate.
Qed.

(** The matcher on [n] characters of a class. *)
Lemma run_Rep p : forall n w rest i c k,
  String.length w = n -> all p w = true ->
  run (Rep n (Chr p)) i (w ++ rest) c k = k (i + n)%nat rest c.
Proof.
  induction n as [|n IH]; intros w rest i c k L A.
  - destruct w; [|discriminate]. simpl. rewrite Nat.add_0_r. reflexivity.
  - destruct w as [|a w]; [discriminate|]. simpl in L, A.
    injection L as L. apply andb_prop in A as [Ha A].
    cbn [Rep run append]. rewrite Ha, (IH w rest (S i) c _ L A).
    rewrite Nat.add_succ_comm. reflexivity.
Qed.

(** The matcher on a group of [n] digits: it captures them. *)
Lemma run_field g n w rest i c k :
  is_field n w = true ->
  run (Grp g (Rep n (Chr is_digit))) i (w ++ rest) c k
  = k (i + n)%nat rest ((g, w) :: c).
Proof.
  intros H. apply is_field_inv in H as [L A].
  cbn [run]. rewrite (run_Rep is_digit n w rest i c _ L A).
  replace (i + n - i)%nat with (String.length w) by lia.
  rewrite take_app. reflexivity.
Qed.

Lemma run_Lit x rest i c k : run (Lit x) i (String x rest) c k = k (S i) rest c.
Proof. unfold Lit, is_char. cbn [run]. rewrite Ascii.eqb_refl. reflexivity. Qed.

(** A field, then a separator, then the rest of the pattern. *)
Lemma run_field_then g n x r w rest i c k :
  is_field n w = true ->
  run (Seq (Grp g (Rep n (Chr is_digit))) (Seq (Lit x) r)) i (w ++ String x rest) c k
  = run r (S (i + n)) rest ((g, w) :: c) k.
Proof.
  intros H. change (run (Seq ?a ?b) ?i ?s ?c ?k) with (run a i s c (fun i' s' c' => run b i' s' c' k)).
  rewrite (run_field g n w _ i c _ H).
  change (run (Seq ?a ?b) ?i ?s ?c ?k) with (run a i s c (fun i' s' c' => run b i' s' c' k)).
  rewrite run_Lit. reflexivity.
Qed.

(** The end of [unixEpochRegex]: [\.?(\d{3})?]. *)
Definition msecs_tail : regex := Seq (Opt (Lit ".")) (Opt (Grp "6" d3)).


Lemma msecs_tail_absent i c : run msecs_tail i "" c accept = Some c.
Proof. reflexivity. Qed.

Lemma msecs_tail_present ms post i c :
  is_field 3 ms = true ->
  run msecs_tail i (String "." (ms ++ post)) c accept = Some (("6", ms) :: c).
Proof.
  intros H. unfold msecs_tail.
  change (run (Seq ?a ?b) ?i ?s ?c ?k) with (run a i s c (fun i' s' c' => run b i' s' c' k)).
  cbn [run]. rewrite run_Lit. cbn [run].
  change (run d3 ?i ?s ?c ?k) with (run (Rep 3 (Chr is_digit)) i s c k).
  pose proof (run_field "6" 3 ms post (S i) c accept H) as R. cbn [run] in R.
  rewrite R. reflexivity.
Qed.

(** The captures of the five fields of a timestamp. *)
Definition five (y d h mi s : string) (c : caps) : caps :=
  ("5", s) :: ("4", mi) :: ("3", h) :: ("2", d) :: ("1", y) :: c.

(** On a timestamp, [unixEpochRegex] captures the five fields and goes on
    with the milliseconds. *)
Lemma run_timestamp y d h mi s tail i c :
  is_field 4 y = true -> is_field 3 d = true -> is_field 2 h = true ->
  is_field 2 mi = true -> is_field 2 s = true ->
  exists j,
    run unixEpochRegex i (y ++ "-" ++ d ++ "T" ++ h ++ ":" ++ mi ++ ":" ++ s ++ tail)
        c accept
    = run msecs_tail j tail (five y d h mi s c) accept.
Proof.
  intros Hy Hd Hh Hmi Hs. eexists.
  unfold unixEpochRegex, Seqs, d4, d3, d2.
  cbn [append].
  rewrite (run_field_then "1" 4 "-" _ y _ i c accept Hy).
  rewrite (run_field_then "2" 3 "T" _ d _ _ _ accept Hd).
  rewrite (run_field_then "3" 2 ":" _ h _ _ _ accept Hh).
  rewrite (run_field_then "4" 2 ":" _ mi _ _ _ accept Hmi).
  change (run (Seq ?a ?b) ?i ?s ?c ?k) with (run a i s c (fun i' s' c' => run b i' s' c' k)).
  rewrite (run_field "5" 2 s tail _ _ _ Hs).
  reflexivity.
Qed.

(** [Date.UTC] of a year of four digits, January, and small fields. *)
Lemma UTC_fields y d h mi s ms :
  (100 <= y < 10000)%Z -> (0 <= d < 1000)%Z -> (0 <= h < 100)%Z ->
  (0 <= mi < 100)%Z -> (0 <= s < 100)%Z -> (0 <= ms < 1000)%Z ->
  UTC (num y) (num 0) (num d) (num h) (num mi) (num s) (num ms)
  = num ((DayFromYear y + d - 1) * msPerDay + MakeTime h mi s ms).
Proof.
  intros Hy Hd Hh Hmi Hs Hms. unfold UTC. rewrite !toInteger_num.
  assert (E : ((0 <=? y) && (y <=? 99) = false)%Z).
  { apply andb_false_iff. right. apply Z.leb_gt. lia. }
  rewrite E. unfold MakeDate, MakeDay.
  change (0 / 12)%Z with 0%Z. change (0 mod 12)%Z with 0%Z.
  rewrite Z.add_0_r. cbn [DaysBeforeMonth]. rewrite Z.add_0_r.
  apply TimeClip_in_range.
  pose proof (DayFromYear_mono 100 y ltac:(lia)) as L.
  pose proof (DayFromYear_mono y 10000 ltac:(lia)) as U.
  let v := eval vm_compute in (DayFromYear 100) in
    change (DayFromYear 100) with v in L.
  let v := eval vm_compute in (DayFromYear 10000) in
    change (DayFromYear 10000) with v in U.
  unfold MakeTime, msPerDay, msPerHour, msPerMinute, msPerSecond. lia.
Qed.

End ReadTimestamp.

(* ================================================================== *)
(** * Writing a timestamp and reading it back *)
(* ================================================================== *)

Section TimestampRoundTrip.
Import Js Re JsDate Time Spec.
#[local] Open Scope Z_scope.

(** The times of the years 1000 to 9999: from [TimeFromYear 1000] up to
    [TimeFromYear 10000]. *)
Definition four_digit_year (x : Z) : Prop :=
  -30610224000000 <= x < 253402300800000.

Lemma four_digit_year_spec x :
  four_digit_year x -> 1000 <= YearFromTime x < 10000.
Proof.
  unfold four_digit_year. intros Hx.
  pose proof (YearFromTime_spec x) as S.
  assert (D : DayFromYear 1000 <= Day x < DayFromYear 10000).
  { unfold Day, msPerDay.
    let v := eval vm_compute in (DayFromYear 1000) in change (DayFromYear 1000) with v.
    let v := eval vm_compute in (DayFromYear 10000) in change (DayFromYear 10000) with v.
    Z.div_mod_to_equations. lia. }
  split.
  - destruct (Z_lt_le_dec (YearFromTime x) 1000) as [L|L]; [|assumption].
    pose proof (DayFromYear_mono (YearFromTime x + 1) 1000 ltac:(lia)). lia.
  - destruct (Z_lt_le_dec (YearFromTime x) 10000) as [L|L]; [assumption|].
    pose proof (DayFromYear_mono 10000 (YearFromTime x) L). lia.
Qed.

Lemma newDate_num x : four_digit_year x -> newDate (num x) = num x.
Proof.
  unfold four_digit_year. intros Hx. unfold newDate, num.
  rewrite Qtrunc_inject_Z. apply TimeClip_in_range. lia.
Qed.

(** The day of the year, counted from 1. *)
Definition DayWithinYear1 (x : Z) : Z := Day x - DayFromYear (YearFromTime x) + 1.

Lemma DayWithinYear1_range x : 1 <= DayWithinYear1 x <= 366.
Proof.
  unfold DayWithinYear1. pose proof (YearFromTime_spec x) as S.
  pose proof (DaysInYear_range (YearFromTime x)) as R. unfold DaysInYear in R. lia.
Qed.

Lemma getDoy_num x :
  four_digit_year x -> getDoy (num x) = num (DayWithinYear1 x).
Proof.
  intros Hx. pose proof (four_digit_year_spec x Hx) as HY.
  unfold getDoy, getUTCFullYear, getTime. rewrite on_time_num.
  rewrite (UTC_fields (YearFromTime x) 0 0 0 0 0) by lia.
  rewrite nsub_num, floor_ndiv_num by lia. f_equal.
  unfold DayWithinYear1, Day, MakeTime, msPerDay, msPerHour, msPerMinute, msPerSecond.
  generalize (DayFromYear (YearFromTime x)). intros k.
  Z.div_mod_to_equations. lia.
Qed.

Lemma padded_field k n :
  prints_as_field k k n = true ->
  is_field k (padStart k "0" (toString (num n))) = true
  /\ digits_val 0 (padStart k "0" (toString (num n))) = n.
Proof.
  rewrite toString_num. unfold prints_as_field. intros H.
  apply andb_prop in H as [H1 H2]. apply Z.eqb_eq in H2. auto.
Qed.

Lemma year_field n :
  1000 <= n < 10000 ->
  is_field 4 (toString (num n)) = true /\ digits_val 0 (toString (num n)) = n.
Proof.
  intros Hn. rewrite toString_num. pose proof (prints_year n Hn) as H.
  unfold prints_as_field in H. change (padStart 0 "0" ?s) with s in H.
  apply andb_prop in H as [H1 H2]. apply Z.eqb_eq in H2. auto.
Qed.

Lemma timestamp_app y d h mi s tail :
  (y ++ "-" ++ d ++ "T" ++ h ++ ":" ++ mi ++ ":" ++ s) ++ tail
  = y ++ "-" ++ d ++ "T" ++ h ++ ":" ++ mi ++ ":" ++ s ++ tail.
Proof. repeat (rewrite app_assoc; cbn [append]). reflexivity. Qed.

(** What [getUnixEpochTime] computes from the captures of a timestamp. *)
Lemma getUnixEpochTime_of_captures str m y d h mi s ms Y D H Mi S Ms :
  run unixEpochRegex 0 str [] accept = Some m ->
  group_or "1" "" m = y -> group_or "2" "" m = d -> group_or "3" "" m = h ->
  group_or "4" "" m = mi -> group_or "5" "" m = s -> group_or "6" "0" m = ms ->
  numeral y -> numeral d -> numeral h -> numeral mi -> numeral s -> numeral ms ->
  digits_val 0 y = Y -> digits_val 0 d = D -> digits_val 0 h = H ->
  digits_val 0 mi = Mi -> digits_val 0 s = S -> digits_val 0 ms = Ms ->
  getUnixEpochTime str = UTC (num Y) (num 0) (num D) (num H) (num Mi) (num S) (num Ms).
Proof.
  intros E G1 G2 G3 G4 G5 G6 [? ?] [? ?] [? ?] [? ?] [? ?] [? ?] V1 V2 V3 V4 V5 V6.
  subst y d h mi s ms Y D H Mi S Ms.
  unfold getUnixEpochTime. rewrite (exec_at_start _ _ _ E).
  rewrite !toNumber_digits by assumption. reflexivity.
Qed.

Lemma msecs_tail_at_end ms i c :
  is_field 3 ms = true ->
  run msecs_tail i (String "." ms) c accept = Some (("6", ms) :: c).
Proof.
  intros H. rewrite <- (app_nil_r ms) at 1. apply msecs_tail_present. assumption.
Qed.

Lemma numeral_zero : numeral "0".
Proof. split; [discriminate|reflexivity]. Qed.

(** C4, amended.  For every instant [x] of the years 1000 to 9999 (the
    years that print with four digits), [getUnixEpochTime] of the timestamp
    [getDoyTime] writes for [x] is [x] again; and when [x] is a whole number
    of seconds the timestamp has no millisecond segment (it is 17 characters
    long), so the missing group was read back as 0. *)
Theorem getUnixEpochTime_getDoyTime (x : Z) :
  four_digit_year x ->
  getUnixEpochTime (getDoyTime (newDate (num x))) = num x
  /\ (x mod 1000 = 0 -> String.length (getDoyTime (newDate (num x))) = 17%nat).
Proof.
  intros Hx. pose proof (four_digit_year_spec x Hx) as HY.
  pose proof (DayWithinYear1_range x) as HD.
  destruct (time_fields_range x) as (Hh & Hmi & Hs & Hms).
  rewrite (newDate_num x Hx).
  unfold getDoyTime, getDoyTime_opt, getDoyTimeComponents.
  cbn [c_doy c_hours c_mins c_msecs c_secs c_year andb].
  rewrite (getDoy_num x Hx).
  unfold getUTCFullYear, getUTCHours, getUTCMinutes, getUTCSeconds,
    getUTCMilliseconds, getMilliseconds.
  rewrite !on_time_num, ngtb_num.
  destruct (year_field (YearFromTime x)) as [Fy Vy]; [lia|].
  destruct (padded_field 3 (DayWithinYear1 x)) as [Fd Vd]; [apply prints_three; lia|].
  destruct (padded_field 2 (HourFromTime x)) as [Fh Vh]; [apply prints_two; lia|].
  destruct (padded_field 2 (MinFromTime x)) as [Fmi Vmi]; [apply prints_two; lia|].
  destruct (padded_field 2 (SecFromTime x)) as [Fs Vs]; [apply prints_two; lia|].
  destruct (padded_field 3 (msFromTime x)) as [Fms Vms]; [apply prints_three; lia|].
  set (y := toString (num (YearFromTime x))) in *.
  set (d := padStart 3 "0" (toString (num (DayWithinYear1 x)))) in *.
  set (h := padStart 2 "0" (toString (num (HourFromTime x)))) in *.
  set (mi := padStart 2 "0" (toString (num (MinFromTime x)))) in *.
  set (s := padStart 2 "0" (toString (num (SecFromTime x)))) in *.
  set (ms := padStart 3 "0" (toString (num (msFromTime x)))) in *.
  clearbody y d h mi s ms.
  assert (Final : forall Ms, Ms = msFromTime x ->
            UTC (num (YearFromTime x)) (num 0) (num (DayWithinYear1 x))
                (num (HourFromTime x)) (num (MinFromTime x)) (num (SecFromTime x))
                (num Ms) = num x).
  { intros Ms ->. rewrite UTC_fields by lia. f_equal.
    unfold DayWithinYear1.
    replace (DayFromYear (YearFromTime x) + (Day x - DayFromYear (YearFromTime x) + 1) - 1)
      with (Day x) by lia.
    apply time_split. }
  destruct (0 <? msFromTime x) eqn:Ems.
  - split.
    + rewrite timestamp_app.
      destruct (run_timestamp y d h mi s (String "." ms) 0%nat [] Fy Fd Fh Fmi Fs) as (j & R).
      rewrite (msecs_tail_at_end ms j _ Fms) in R.
      etransitivity;
        [eapply (getUnixEpochTime_of_captures _ _ y d h mi s ms _ _ _ _ _ _ R);
         try reflexivity; try (eapply is_field_numeral; eassumption)|].
      rewrite Vy, Vd, Vh, Vmi, Vs, Vms. apply Final. reflexivity.
    + intros Z0. apply Z.ltb_lt in Ems. unfold msFromTime, msPerSecond in Ems. lia.
  - assert (Z0 : msFromTime x = 0) by (apply Z.ltb_ge in Ems; lia).
    split.
    + rewrite <- (app_nil_r (y ++ _)), timestamp_app.
      destruct (run_timestamp y d h mi s "" 0%nat [] Fy Fd Fh Fmi Fs) as (j & R).
      rewrite msecs_tail_absent in R.
      etransitivity;
        [eapply (getUnixEpochTime_of_captures _ _ y d h mi s "0" _ _ _ _ _ _ R);
         try reflexivity; try (eapply is_field_numeral; eassumption);
         try apply numeral_zero|].
      rewrite Vy, Vd, Vh, Vmi, Vs. apply Final. symmetry. exact Z0.
    + intros _.
      apply is_field_inv in Fy as [Ly _]. apply is_field_inv in Fd as [Ld _].
      apply is_field_inv in Fh as [Lh _]. apply is_field_inv in Fmi as [Lmi _].
      apply is_field_inv in Fs as [Ls _].
      repeat (rewrite length_app; cbn [String.length append]).
      rewrite Ly, Ld, Lh, Lmi, Ls. reflexivity.
Qed.

(** The example of the documentation, [2019-365T08:00:00], is in range. *)
Lemma getUnixEpochTime_getDoyTime_witness :
  four_digit_year 1577779200000
  /\ getUnixEpochTime (getDoyTime (newDate (num 1577779200000))) = num 1577779200000
  /\ (1577779200000 mod 1000 = 0 ->
      String.length (getDoyTime (newDate (num 1577779200000))) = 17%nat).
Proof.
  split; [unfold four_digit_year; lia|].
  apply (getUnixEpochTime_getDoyTime 1577779200000). unfold four_digit_year; lia.
Defined.

(** C4 as stated fails outside the years of four digits: the first instant
    of the year 10000 is written with a year of five digits, of which the
    last four are read back; the last instant of the year 999 is written
    with a year of three digits, which is not read at all. *)
Lemma getUnixEpochTime_getDoyTime_year_digits :
  getDoyTime (newDate (num 253402300800000)) = "10000-001T00:00:00"
  /\ getUnixEpochTime (getDoyTime (newDate (num 253402300800000))) = num (-2208988800000)
  /\ getDoyTime (newDate (num (-30610224000001))) = "999-365T23:59:59.999"
  /\ getUnixEpochTime (getDoyTime (newDate (num (-30610224000001)))) = num 0.
Proof. repeat split; vm_compute; reflexivity. Qed.

End TimestampRoundTrip.

(* ================================================================== *)
(** * [getUnixEpochTime] on any string *)
(* ================================================================== *)

Section AnyString.
Import Js Re JsDate Time Spec.





Lemma matches_Rep p : forall n i s c i' s' c',
  matches (Rep n (Chr p)) i s c i' s' c' ->
  exists w, s = w ++ s' /\ String.length w = n /\ all p w = true.
Proof.
  induction n as [|n IH]; intros i s c i' s' c' M.
  - destruct M as (_ & -> & _). exists "". auto.
  - destruct M as (i1 & s1 & c1 & (a & -> & Ha & _) & M).
    apply IH in M as (w & -> & L & A).
    exists (String a w). simpl. rewrite Ha, A, L. auto.
Qed.


Lemma digits_val_bound : forall v acc,
  all is_digit v = true -> (0 <= acc)%Z ->
  (0 <= digits_val acc v < (acc + 1) * 10 ^ Z.of_nat (String.length v))%Z.
Proof.
  induction v as [|a v IH]; intros acc A Hacc.
  - simpl. lia.
  - cbn [all] in A. apply andb_prop in A as [Ha A].
    pose proof (digit_val_range a Ha) as R.
    cbn [digits_val String.length]. rewrite Nat2Z.inj_succ, Z.pow_succ_r by lia.
    remember (digit_val a) as dv. clear Heqdv.
    specialize (IH (10 * acc + dv)%Z A ltac:(lia)).
    assert (P : (0 < 10 ^ Z.of_nat (String.length v))%Z) by (apply Z.pow_pos_nonneg; lia).
    nia.
Qed.






End AnyString.

(* ================================================================== *)
(** * Trimming *)
(* ================================================================== *)

Section Trimming.
Import Js.

Lemma trimEnd_idem s : trimEnd (trimEnd s) = trimEnd s.
Proof.
  induction s as [|c s IH]; cbn [trimEnd]; [reflexivity|].
  destruct (is_ws c && is_empty (trimEnd s)) eqn:E; [reflexivity|].
  cbn [trimEnd]. rewrite IH, E. reflexivity.
Qed.

(** White space added at the end is trimmed away. *)
Lemma trimEnd_app_ws : forall s w, all is_ws w = true -> trimEnd (s ++ w) = trimEnd s.
Proof.
  assert (Hw : forall w, all is_ws w = true -> trimEnd w = "").
  { induction w as [|c w IH]; simpl; [reflexivity|]. intros H.
    apply andb_prop in H as [Hc H]. rewrite (IH H), Hc. reflexivity. }
  induction s as [|c s IH]; intros w H; simpl.
  - apply Hw. assumption.
  - rewrite (IH w H). reflexivity.
Qed.

(** Trimming the end only looks at the end. *)
Lemma trimEnd_app a b : trimEnd b <> "" -> trimEnd (a ++ b) = a ++ trimEnd b.
Proof.
  intros Hb. induction a as [|c a IH]; simpl; [reflexivity|].
  rewrite IH. destruct (a ++ trimEnd b) eqn:E.
  - destruct a; simpl in E; [contradiction|discriminate].
  - rewrite andb_false_r. reflexivity.
Qed.

Lemma trimStart_app a b : a <> "" -> trimStart a = a -> trimStart (a ++ b) = a ++ b.
Proof.
  destruct a as [|c a]; [contradiction|]. intros _. simpl.
  destruct (is_ws c) eqn:W; [|reflexivity].
  intros H. exfalso.
  assert (L : forall s, (String.length (trimStart s) <= String.length s)%nat).
  { induction s as [|x s IH]; simpl; [lia|]. destruct (is_ws x); simpl; lia. }
  specialize (L a). rewrite H in L. simpl in L. lia.
Qed.

(** A text that trimming leaves alone and that is not empty. *)
Definition tight (s : string) : Prop := s <> "" /\ trimStart s = s /\ trimEnd s = s.

Lemma tight_app a b : tight a -> tight b -> tight (a ++ " " ++ b).
Proof.
  intros (Na & Sa & Ea) (Nb & Sb & Eb). repeat split.
  - destruct a; [contradiction|discriminate].
  - apply trimStart_app; assumption.
  - rewrite <- app_assoc, trimEnd_app, Eb; [reflexivity|]. rewrite Eb. assumption.
Qed.

Lemma trim_tight s : tight s -> trim s = s.
Proof. intros (_ & S & E). unfold trim. rewrite S. exact E. Qed.

Lemma trim_space_tight s : tight s -> trim (String " " s) = s.
Proof. intros (_ & S & E). unfold trim. simpl. rewrite S. exact E. Qed.

End Trimming.

(* ================================================================== *)
(** * The logger *)
(* ================================================================== *)

Section Logger.
Import Js SeqJson Spec.

Lemma fst_bind {A B : Type} (m : Log A) (f : A -> Log B) :
  fst (bind m f) = fst (f (fst m)).
Proof. unfold bind. destruct m as [a l]. simpl. destruct (f a). reflexivity. Qed.

Lemma snd_bind {A B : Type} (m : Log A) (f : A -> Log B) :
  snd (bind m f) = (snd m ++ snd (f (fst m)))%list.
Proof. unfold bind. destruct m as [a l]. simpl. destruct (f a). reflexivity. Qed.

Lemma log_eq {A : Type} (m : Log A) (a : A) (l : list string) :
  fst m = a -> snd m = l -> m = (a, l).
Proof. destruct m. simpl. intros -> ->. reflexivity. Qed.

(** What a loop of pushes leaves in the array and in the log. *)
Lemma push_each_spec {A : Type} (f : A -> Log string) : forall l seqn,
  fst (push_each f l seqn) = (seqn ++ map (fun a => fst (f a)) l)%list
  /\ snd (push_each f l seqn) = List.concat (map (fun a => snd (f a)) l).
Proof.
  unfold push_each. induction l as [|a l IH]; intros seqn; cbn [for_of map List.concat].
  - simpl. rewrite List.app_nil_r. auto.
  - rewrite fst_bind, snd_bind, fst_bind, snd_bind. cbn [ret fst snd].
    destruct (IH (push seqn (fst (f a)))) as [I1 I2]. rewrite I1, I2.
    unfold push. rewrite <- List.app_assoc, List.app_nil_r. auto.
Qed.

(** The loop over the argument sets: a set that is not an array leaves the
    result as it is and logs a message. *)
Lemma sets_repair : forall l r,
  fst (for_of repeatArgSet_body l r)
  = fst (for_of repeatArgSet_body (filter is_arg_set l) r)
  /\ snd (for_of repeatArgSet_body l r) = List.concat (map set_messages l)
  /\ snd (for_of repeatArgSet_body (filter is_arg_set l) r) = [].
Proof.
  induction l as [|a l IH]; intros r; [simpl; auto|].
  cbn [for_of filter map List.concat]. rewrite fst_bind, snd_bind.
  destruct a as [x|]; cbn [is_arg_set repeatArgSet_body set_messages].
  - cbn [for_of]. rewrite fst_bind, snd_bind. cbn [ret fst snd app].
    apply IH.
  - rewrite fst_bind, snd_bind. cbn [logError ret fst snd app].
    destruct (IH r) as (I1 & I2 & I3). rewrite I1, I2, I3. auto.
Qed.

Lemma arg_body_trimmed r a : trimEnd (fst (arg_body r a)) = fst (arg_body r a).
Proof. unfold arg_body. rewrite fst_bind. cbn [ret fst]. apply trimEnd_idem. Qed.

(** The loop over the arguments: a repeat argument whose value is not an
    array, or one of whose sets is not, is logged; the result is the one of
    the arguments without those shapes. *)
Lemma args_repair : forall args r,
  trimEnd r = r ->
  fst (for_of arg_body args r) = fst (for_of arg_body (repair_args args) r)
  /\ snd (for_of arg_body args r) = args_messages args
  /\ snd (for_of arg_body (repair_args args) r) = [].
Proof.
  unfold repair_args, args_messages.
  induction args as [|a args IH]; intros r Hr; [simpl; auto|].
  cbn [for_of flat_map map List.concat]. rewrite fst_bind, snd_bind.
  destruct a as [b|[l|]]; cbn [repair_arg arg_messages app].
  - cbn [for_of]. rewrite fst_bind, snd_bind.
    destruct (IH (fst (arg_body r (BaseArg b))) (arg_body_trimmed _ _)) as (I1 & I2 & I3).
    rewrite I1, I2, I3.
    unfold arg_body. rewrite !snd_bind. cbn [ret snd app]. auto.
  - cbn [for_of]. rewrite fst_bind, snd_bind.
    destruct (sets_repair l "") as (S1 & S2 & S3).
    assert (E : fst (arg_body r (RepeatArgument (RepeatSets l)))
                = fst (arg_body r (RepeatArgument (RepeatSets (filter is_arg_set l))))).
    { unfold arg_body. rewrite !fst_bind. cbn [ret fst]. rewrite S1. reflexivity. }
    destruct (IH (fst (arg_body r (RepeatArgument (RepeatSets l)))) (arg_body_trimmed _ _))
      as (I1 & I2 & I3).
    rewrite <- E, I1, I2, I3.
    unfold arg_body. rewrite !snd_bind. cbn [ret snd]. rewrite S2, S3.
    rewrite !List.app_nil_r. auto.
  - assert (E : fst (arg_body r (RepeatArgument ValueNotArray)) = r).
    { unfold arg_body. rewrite !fst_bind. cbn [logError ret fst].
      rewrite (trimEnd_app_ws r " " eq_refl). exact Hr. }
    rewrite E. destruct (IH r Hr) as (I1 & I2 & I3). rewrite I1, I2, I3.
    unfold arg_body. rewrite !snd_bind. cbn [logError ret snd app]. auto.
Qed.

Lemma seqJsonArgsToSequence_repair args :
  fst (seqJsonArgsToSequence args) = fst (seqJsonArgsToSequence (repair_args args))
  /\ snd (seqJsonArgsToSequence args) = args_messages args
  /\ snd (seqJsonArgsToSequence (repair_args args)) = [].
Proof.
  unfold seqJsonArgsToSequence. rewrite !fst_bind, !snd_bind. cbn [ret fst snd].
  destruct (args_repair args "" eq_refl) as (I1 & I2 & I3).
  rewrite I1, I2, I3, !List.app_nil_r. auto.
Qed.

Lemma optArgsToSequence_repair args :
  fst (optArgsToSequence args) = fst (optArgsToSequence (option_map repair_args args))
  /\ snd (optArgsToSequence args) = opt_args_messages args
  /\ snd (optArgsToSequence (option_map repair_args args)) = [].
Proof.
  destruct args as [a|]; [apply seqJsonArgsToSequence_repair | simpl; auto].
Qed.

(** What the [switch] over a step adds to the array and to the log. *)
Lemma switch_step_spec seqn step :
  switch_step seqn step
  = ((seqn ++ fst (switch_step [] step))%list, snd (switch_step [] step)).
Proof.
  destruct step; cbn [switch_step];
    try (apply log_eq; rewrite ?fst_bind, ?snd_bind; cbn [ret fst snd push app];
         reflexivity).
  cbn [ret fst snd]. rewrite List.app_nil_r. reflexivity.
Qed.

(** What the loop over the steps leaves in the array and in the log. *)
Lemma steps_loop_spec : forall l seqn,
  fst (for_of switch_step l seqn)
  = (seqn ++ flat_map (fun a => fst (switch_step [] a)) l)%list
  /\ snd (for_of switch_step l seqn)
     = List.concat (map (fun a => snd (switch_step [] a)) l).
Proof.
  induction l as [|a l IH]; intros seqn; cbn [for_of map List.concat flat_map].
  - simpl. rewrite List.app_nil_r. auto.
  - rewrite fst_bind, snd_bind, (switch_step_spec seqn a). cbn [fst snd].
    destruct (IH (seqn ++ fst (switch_step [] a))%list) as [I1 I2]. rewrite I1, I2.
    rewrite <- List.app_assoc. auto.
Qed.

Lemma switch_step_repair step :
  fst (switch_step [] step) = fst (switch_step [] (repair_step step))
  /\ snd (switch_step [] step) = step_messages step
  /\ snd (switch_step [] (repair_step step)) = [].
Proof.
  destruct step; cbn [switch_step repair_step step_messages]; [| | | | |simpl; auto];
    unfold commandToString, loadOrActivateToString, groundToString;
    rewrite !fst_bind, !snd_bind; cbn [ret fst snd];
    [destruct (seqJsonArgsToSequence_repair args) as (I1 & I2 & I3)
    |destruct (optArgsToSequence_repair args) as (I1 & I2 & I3) ..];
    rewrite I1, I2, I3, !List.app_nil_r; auto.
Qed.

Lemma steps_repair steps seqn :
  fst (for_of switch_step steps seqn)
  = fst (for_of switch_step (map repair_step steps) seqn)
  /\ snd (for_of switch_step steps seqn) = List.concat (map step_messages steps)
  /\ snd (for_of switch_step (map repair_step steps) seqn) = [].
Proof.
  destruct (steps_loop_spec steps seqn) as [A1 A2].
  destruct (steps_loop_spec (map repair_step steps) seqn) as [B1 B2].
  rewrite A1, A2, B1, B2, !map_map. split; [|split].
  - f_equal. rewrite !flat_map_concat_map, map_map. f_equal.
    apply map_ext. intros a. apply switch_step_repair.
  - f_equal. apply map_ext. intros a. apply switch_step_repair.
  - clear. induction steps as [|a l IH]; [reflexivity|]. cbn [map List.concat].
    rewrite IH. destruct (switch_step_repair a) as (_ & _ & ->). reflexivity.
Qed.

End Logger.

Section MalformedRepeats.
Import Js SeqJson Spec.

Definition repair_immediate (i : ImmediateCommand) : ImmediateCommand :=
  {| i_stem := i_stem i; i_args := repair_args (i_args i);
     i_description := i_description i; i_metadata := i_metadata i |}.

Definition repair_request (r : Request) : Request :=
  {| r_name := r_name r; r_steps := map repair_step (r_steps r);
     r_time := r_time r; r_ground_epoch := r_ground_epoch r;
     r_description := r_description r; r_metadata := r_metadata r |}.

Lemma concat_nil {A B : Type} (f : A -> list B) (l : list A) :
  (forall a, f a = []) -> List.concat (map f l) = [].
Proof.
  intros H. induction l as [|a l IH]; [reflexivity|].
  cbn [map List.concat]. rewrite H, IH. reflexivity.
Qed.

Lemma immediateToString_repair i :
  fst (immediateToString i) = fst (immediateToString (repair_immediate i))
  /\ snd (immediateToString i) = args_messages (i_args i)
  /\ snd (immediateToString (repair_immediate i)) = [].
Proof.
  unfold immediateToString. rewrite !fst_bind, !snd_bind. cbn [ret fst snd repair_immediate i_args i_stem i_description i_metadata].
  destruct (seqJsonArgsToSequence_repair (i_args i)) as (I1 & I2 & I3).
  rewrite I1, I2, I3, !List.app_nil_r. auto.
Qed.

Lemma immediates_repair l seqn :
  fst (push_each immediateToString l seqn)
  = fst (push_each immediateToString (map repair_immediate l) seqn)
  /\ snd (push_each immediateToString l seqn)
     = List.concat (map (fun i => args_messages (i_args i)) l)
  /\ snd (push_each immediateToString (map repair_immediate l) seqn) = [].
Proof.
  destruct (push_each_spec immediateToString l seqn) as [A1 A2].
  destruct (push_each_spec immediateToString (map repair_immediate l) seqn) as [B1 B2].
  rewrite A1, A2, B1, B2, !map_map. split; [|split].
  - f_equal. apply map_ext. intros a. apply immediateToString_repair.
  - f_equal. apply map_ext. intros a. apply immediateToString_repair.
  - apply concat_nil. intros a. apply immediateToString_repair.
Qed.

Lemma hardwares_log l seqn : snd (push_each hardwareToString l seqn) = [].
Proof.
  destruct (push_each_spec hardwareToString l seqn) as [_ ->].
  apply concat_nil. reflexivity.
Qed.

Lemma requestToString_repair r :
  fst (requestToString r) = fst (requestToString (repair_request r))
  /\ snd (requestToString r) = List.concat (map step_messages (r_steps r))
  /\ snd (requestToString (repair_request r)) = [].
Proof.
  unfold requestToString. rewrite !fst_bind, !snd_bind.
  cbn [ret fst snd repair_request r_name r_steps r_time r_ground_epoch
       r_description r_metadata].
  destruct (steps_repair (r_steps r) []) as (I1 & I2 & I3).
  rewrite I1, I2, I3, !List.app_nil_r. auto.
Qed.

(** The loop over the requests. *)
Definition requests_loop (reqs : list Request) (seqn : list string) : Log (list string) :=
  for_of (fun seqn request => s <- requestToString request ;; ret (push (push seqn nl) s))
         reqs seqn.

Lemma requests_loop_spec : forall reqs seqn,
  fst (requests_loop reqs seqn)
  = (seqn ++ flat_map (fun r => [nl; fst (requestToString r)]) reqs)%list
  /\ snd (requests_loop reqs seqn)
     = List.concat (map (fun r => snd (requestToString r)) reqs).
Proof.
  unfold requests_loop.
  induction reqs as [|a l IH]; intros seqn; cbn [for_of map List.concat flat_map].
  - simpl. rewrite List.app_nil_r. auto.
  - rewrite fst_bind, snd_bind, fst_bind, snd_bind. cbn [ret fst snd].
    destruct (IH (push (push seqn nl) (fst (requestToString a)))) as [I1 I2].
    rewrite I1, I2. unfold push. rewrite <- !List.app_assoc. split; reflexivity.
Qed.

Lemma requests_repair l seqn :
  fst (requests_loop l seqn) = fst (requests_loop (map repair_request l) seqn)
  /\ snd (requests_loop l seqn)
     = List.concat (map (fun r => List.concat (map step_messages (r_steps r))) l)
  /\ snd (requests_loop (map repair_request l) seqn) = [].
Proof.
  destruct (requests_loop_spec l seqn) as [A1 A2].
  destruct (requests_loop_spec (map repair_request l) seqn) as [B1 B2].
  rewrite A1, A2, B1, B2, !map_map. split; [|split].
  - f_equal. rewrite !flat_map_concat_map, map_map. f_equal.
    apply map_ext. intros a. f_equal. f_equal. apply requestToString_repair.
  - f_equal. apply map_ext. intros a. apply requestToString_repair.
  - apply concat_nil. intros a. apply requestToString_repair.
Qed.

(** The statements of [seqJsonToSeqn] from the steps on. *)
Lemma seqn_tail_repair d seqn :
  fst (seqn_tail d seqn) = fst (seqn_tail (repair d) seqn)
  /\ snd (seqn_tail d seqn) = document_messages d
  /\ snd (seqn_tail (repair d) seqn) = [].
Proof.
  destruct d as [id0 params locs md sts imms hws reqs].
  unfold seqn_tail, repair, document_messages.
  cbn [steps immediate_commands hardware_commands requests].
  rewrite !fst_bind, !snd_bind.
  change (map (fun i => {| i_stem := i_stem i; i_args := repair_args (i_args i);
                          i_description := i_description i;
                          i_metadata := i_metadata i |}))
    with (map repair_immediate).
  change (map (fun r => {| r_name := r_name r; r_steps := map repair_step (r_steps r);
                          r_time := r_time r; r_ground_epoch := r_ground_epoch r;
                          r_description := r_description r;
                          r_metadata := r_metadata r |}))
    with (map repair_request).
  destruct sts as [sts|], imms as [imms|], hws as [hws|], reqs as [reqs|];
    cbn [option_map opt_list map List.concat ret fst snd app];
    change (for_of (fun seqn request => s <- requestToString request ;;
                                        ret (push (push seqn nl) s)))
      with requests_loop;
    repeat match goal with
           | |- context [for_of switch_step ?l ?s] =>
               lazymatch l with
               | map repair_step _ => fail
               | _ => destruct (steps_repair l s) as (-> & -> & ->)
               end
           | |- context [push_each immediateToString ?l ?s] =>
               lazymatch l with
               | map _ _ => fail
               | _ => destruct (immediates_repair l s) as (-> & -> & ->)
               end
           | |- context [snd (push_each hardwareToString ?l ?s)] =>
               rewrite (hardwares_log l s)
           | |- context [requests_loop ?l ?s] =>
               lazymatch l with
               | map _ _ => fail
               | _ => destruct (requests_repair l s) as (-> & -> & ->)
               end
           end;
    rewrite ?List.app_nil_r; auto.
Qed.

(** What [seqJsonToSeqn] pushes from the steps on. *)
Definition tail_parts (d : SeqJson) : list string :=
  ((match steps d with
    | Some l => nl :: flat_map (fun a => fst (switch_step [] a)) l
    | None => []
    end)
   ++ (match immediate_commands d with
       | Some l => nl :: ("@IMMEDIATE" ++ nl)%string :: map (fun a => fst (immediateToString a)) l
       | None => []
       end)
   ++ (match hardware_commands d with
       | Some l => nl :: ("@HARDWARE" ++ nl)%string :: map (fun a => fst (hardwareToString a)) l
       | None => []
       end)
   ++ (match requests d with
       | Some l => flat_map (fun r => [nl; fst (requestToString r)]) l
       | None => []
       end))%list.

Lemma seqn_tail_spec d seqn : fst (seqn_tail d seqn) = (seqn ++ tail_parts d)%list.
Proof.
  destruct d as [id0 params locs md sts imms hws reqs].
  unfold seqn_tail, tail_parts.
  cbn [steps immediate_commands hardware_commands requests].
  rewrite !fst_bind.
  change (for_of (fun seqn request => s <- requestToString request ;;
                                      ret (push (push seqn nl) s)))
    with requests_loop.
  destruct reqs as [reqs|];
    [rewrite (proj1 (requests_loop_spec reqs _))|cbn [ret fst]; rewrite !List.app_nil_r];
    (destruct hws as [hws|];
     [rewrite (proj1 (push_each_spec hardwareToString hws _))|cbn [ret fst]]);
    (destruct imms as [imms|];
     [rewrite (proj1 (push_each_spec immediateToString imms _))|cbn [ret fst]]);
    (destruct sts as [sts|];
     [rewrite (proj1 (steps_loop_spec sts _))|cbn [ret fst]]);
    unfold push; cbn [app]; rewrite <- ?List.app_assoc; cbn [app];
    rewrite ?List.app_nil_r; reflexivity.
Qed.

Lemma seqn_tail_eq d seqn :
  seqn_tail d seqn = ((seqn ++ tail_parts d)%list, document_messages d).
Proof.
  apply log_eq; [apply seqn_tail_spec|apply seqn_tail_repair].
Qed.

End MalformedRepeats.

(* ================================================================== *)
(** * The argument sets of a repeat argument *)
(* ================================================================== *)

Section RepeatSets.
Import Js SeqJson Spec.

Lemma is_tight_iff s : is_tight s = true <-> tight s.
Proof.
  unfold is_tight, tight. split.
  - intros H. apply andb_prop in H as [H H3]. apply andb_prop in H as [H1 H2].
    apply String.eqb_eq in H2, H3. repeat split; auto.
    intros ->. discriminate.
  - intros (H1 & H2 & H3). rewrite H2, H3, !String.eqb_refl.
    destruct s; [contradiction|reflexivity].
Qed.

(** What the loop over one argument set appends. *)
Definition spaced (l : list BaseArgument) : string :=
  String.concat "" (map (fun a => " " ++ seqJsonBaseArgToSequence a) l).

Lemma fold_spaced : forall l r,
  fold_left (fun r a => r ++ " " ++ seqJsonBaseArgToSequence a) l r = r ++ spaced l.
Proof.
  unfold spaced.
  induction l as [|a l IH]; intros r; cbn [fold_left map].
  - simpl. rewrite app_nil_r. reflexivity.
  - rewrite IH. destruct l as [|b l].
    + simpl. rewrite !app_nil_r. reflexivity.
    + cbn [map String.concat]. rewrite !app_assoc. reflexivity.
Qed.

Lemma spaced_cons a l :
  spaced (a :: l) = " " ++ seqJsonBaseArgToSequence a ++ spaced l.
Proof.
  unfold spaced. destruct l as [|b l]; cbn [map String.concat].
  - rewrite app_nil_r. reflexivity.
  - rewrite !app_assoc. reflexivity.
Qed.

Lemma spaced_app l1 l2 : spaced (l1 ++ l2) = spaced l1 ++ spaced l2.
Proof.
  induction l1 as [|a l1 IH]; [reflexivity|].
  cbn [app]. rewrite !spaced_cons, IH, !app_assoc. reflexivity.
Qed.

Lemma tight_args_cons a l :
  tight_args (a :: l) = true ->
  tight (seqJsonBaseArgToSequence a) /\ tight_args l = true.
Proof.
  unfold tight_args. cbn [forallb]. intros H. apply andb_prop in H as [H1 H2].
  apply is_tight_iff in H1. auto.
Qed.

Lemma tight_spaced : forall l r,
  tight r -> tight_args l = true -> tight (r ++ spaced l).
Proof.
  induction l as [|a l IH]; intros r Hr Hl.
  - unfold spaced. simpl. rewrite app_nil_r. assumption.
  - apply tight_args_cons in Hl as [Ha Hl]. rewrite spaced_cons.
    replace (r ++ " " ++ seqJsonBaseArgToSequence a ++ spaced l)
      with ((r ++ " " ++ seqJsonBaseArgToSequence a) ++ spaced l)
      by (rewrite !app_assoc; reflexivity).
    apply IH; [|assumption]. apply tight_app; assumption.
Qed.

(** The result of the loop over one argument set, trimmed. *)
Definition joined (r : string) (l : list BaseArgument) : string := trim (r ++ spaced l).

Lemma joined_empty l :
  tight_args l = true -> joined "" l = "" \/ tight (joined "" l).
Proof.
  unfold joined. destruct l as [|a l]; [left; reflexivity|]. intros Hl. right.
  apply tight_args_cons in Hl as [Ha Hl]. rewrite spaced_cons.
  cbn [append]. pose proof (tight_spaced l _ Ha Hl) as T.
  rewrite (trim_space_tight _ T). assumption.
Qed.

Lemma joined_tight r l :
  tight r -> tight_args l = true -> joined r l = r ++ spaced l.
Proof. intros Hr Hl. apply trim_tight, tight_spaced; assumption. Qed.

Lemma joined_joined r l1 l2 :
  r = "" \/ tight r -> tight_args l1 = true -> tight_args l2 = true ->
  joined (joined r l1) l2 = joined r (l1 ++ l2)
  /\ (joined r l1 = "" \/ tight (joined r l1)).
Proof.
  intros [-> | Hr] H1 H2.
  - split; [|apply joined_empty; assumption].
    destruct l1 as [|a l1]; [reflexivity|].
    apply tight_args_cons in H1 as [Ha H1].
    pose proof (tight_spaced l1 _ Ha H1) as T.
    unfold joined at 2 3. rewrite spaced_app, spaced_cons. cbn [append].
    rewrite (trim_space_tight _ T).
    rewrite (joined_tight _ l2 T H2).
    replace ((seqJsonBaseArgToSequence a ++ spaced l1) ++ spaced l2)
      with (seqJsonBaseArgToSequence a ++ spaced l1 ++ spaced l2)
      by (rewrite !app_assoc; reflexivity).
    pose proof (tight_spaced l2 _ T H2) as T2.
    rewrite app_assoc in T2.
    symmetry. apply (trim_space_tight _ T2).
  - pose proof (tight_spaced l1 r Hr H1) as T.
    rewrite (joined_tight r l1 Hr H1). split; [|right; assumption].
    rewrite (joined_tight _ l2 T H2).
    assert (H12 : tight_args (l1 ++ l2) = true).
    { unfold tight_args in *. rewrite forallb_app, H1, H2. reflexivity. }
    rewrite (joined_tight r _ Hr H12), spaced_app, app_assoc. reflexivity.
Qed.

Lemma joined_nil r : r = "" \/ tight r -> joined r [] = r.
Proof.
  intros [-> | Hr]; [reflexivity|].
  unfold joined, spaced. simpl. rewrite app_nil_r. apply trim_tight. assumption.
Qed.

(** The loop over the argument sets joins the arguments of all the sets. *)
Lemma sets_joined : forall sets r,
  r = "" \/ tight r -> forallb tight_args sets = true ->
  for_of repeatArgSet_body (map ArgSet sets) r = ret (joined r (List.concat sets)).
Proof.
  induction sets as [|set sets IH]; intros r Hr H.
  - cbn [map for_of List.concat]. rewrite (joined_nil r Hr). reflexivity.
  - cbn [forallb] in H. apply andb_prop in H as [Hs H].
    assert (Hc : tight_args (List.concat sets) = true).
    { clear -H. induction sets as [|x l IH]; [reflexivity|].
      cbn [forallb List.concat] in *. apply andb_prop in H as [Hx H].
      unfold tight_args in *. rewrite forallb_app, Hx, (IH H). reflexivity. }
    destruct (joined_joined r set (List.concat sets) Hr Hs Hc) as [J T].
    cbn [map for_of List.concat repeatArgSet_body].
    rewrite fold_spaced. fold (joined r set).
    unfold bind at 1. cbn [ret].
    rewrite (IH (joined r set) T H), J. reflexivity.
Qed.

Lemma for_of_congruence {A S : Type} (body : S -> A -> Log S) a1 a2 :
  (forall s, body s a1 = body s a2) ->
  forall pre post s,
    for_of body (pre ++ a1 :: post)%list s = for_of body (pre ++ a2 :: post)%list s.
Proof.
  intros H. induction pre as [|x pre IH]; intros post s; cbn [app for_of].
  - rewrite H. reflexivity.
  - unfold bind. destruct (body s x) as [s' l]. rewrite IH. reflexivity.
Qed.

(** C1, amended.  Serialization does not write where one argument set of a
    repeat argument ends and the next begins: when the arguments render
    without white space around them, a repeat argument serializes exactly
    as the single argument set that holds the arguments of all its sets.
    So no parser and extractor can give back every document; the round
    trip can hold at most up to this regrouping. *)
Theorem seqJsonArgsToSequence_regroups (pre post : Args) (sets : list (list BaseArgument)) :
  forallb tight_args sets = true ->
  seqJsonArgsToSequence
    (pre ++ RepeatArgument (RepeatSets (map ArgSet sets)) :: post)%list
  = seqJsonArgsToSequence
      (pre ++ RepeatArgument (RepeatSets [ArgSet (List.concat sets)]) :: post)%list.
Proof.
  intros H. unfold seqJsonArgsToSequence. f_equal.
  apply for_of_congruence. intros s. unfold arg_body. f_equal.
  rewrite (sets_joined sets "" (or_introl eq_refl) H).
  assert (H1 : forallb tight_args [List.concat sets] = true).
  { cbn [forallb]. rewrite andb_true_r.
    clear -H. induction sets as [|x l IH]; [reflexivity|].
    cbn [forallb List.concat] in *. apply andb_prop in H as [Hx H].
    unfold tight_args in *. rewrite forallb_app, Hx, (IH H). reflexivity. }
  pose proof (sets_joined [List.concat sets] "" (or_introl eq_refl) H1) as E.
  cbn [map] in E. rewrite E. cbn [List.concat]. rewrite List.app_nil_r. reflexivity.
Qed.

Definition example_number (z : Z) : BaseArgument := NumberArgument (num z).

(** The sets [[1,2],[3,4]] of the specification. *)
Lemma seqJsonArgsToSequence_regroups_witness :
  forallb tight_args [[example_number 1; example_number 2];
                      [example_number 3; example_number 4]] = true
  /\ seqJsonArgsToSequence
       [RepeatArgument
          (RepeatSets [ArgSet [example_number 1; example_number 2];
                       ArgSet [example_number 3; example_number 4]])]
     = seqJsonArgsToSequence
         [RepeatArgument
            (RepeatSets [ArgSet [example_number 1; example_number 2;
                                 example_number 3; example_number 4]])].
Proof.
  split; [reflexivity|].
  apply (seqJsonArgsToSequence_regroups [] []
           [[example_number 1; example_number 2]; [example_number 3; example_number 4]]).
  reflexivity.
Defined.

(** A document with one command that has one repeat argument. *)
Definition example_document (value : list RepeatArgSet) : SeqJson :=
  {| id := "seq"; parameters := None; locals := None; s_metadata := Some [];
     steps := Some [Command COMMAND_COMPLETE "NOOP"
                            [RepeatArgument (RepeatSets value)] None None None];
     immediate_commands := None; hardware_commands := None; requests := None |}.

(** C1 as stated fails: two different documents have the same text, so
    parsing and extracting that text cannot give back both. *)
Lemma seqJsonToSeqn_not_injective :
  seqJsonToSeqn (example_document [ArgSet [example_number 1; example_number 2];
                                   ArgSet [example_number 3; example_number 4]])
  = seqJsonToSeqn (example_document [ArgSet [example_number 1; example_number 2;
                                             example_number 3; example_number 4]])
  /\ example_document [ArgSet [example_number 1; example_number 2];
                       ArgSet [example_number 3; example_number 4]]
     <> example_document [ArgSet [example_number 1; example_number 2;
                                  example_number 3; example_number 4]].
Proof. split; [reflexivity | discriminate]. Qed.

End RepeatSets.

(* ================================================================== *)
(** * The metadata of a document *)
(* ================================================================== *)

Section DocumentMetadata.
Import Js SeqJson Spec.

Definition not_lgo (entry : string * json) : bool := negb (String.eqb (fst entry) "lgo").

Lemma obj_set_new : forall obj key value,
  ~ In key (map fst obj) -> obj_set obj key value = (obj ++ [(key, value)])%list.
Proof.
  induction obj as [|[k v] obj IH]; intros key value H; [reflexivity|].
  cbn [obj_set]. cbn [map fst In] in H.
  destruct (String.eqb k key) eqn:E.
  - apply String.eqb_eq in E. tauto.
  - rewrite IH by tauto. reflexivity.
Qed.

(** Rebuilding an object from entries with distinct keys gives the entries. *)
Lemma rebuild_entries : forall l acc,
  NoDup (map fst (acc ++ l)) ->
  fold_left (fun obj entry => obj_set obj (fst entry) (snd entry)) l acc
  = (acc ++ l)%list.
Proof.
  induction l as [|[k v] l IH]; intros acc H; cbn [fold_left fst snd].
  - rewrite List.app_nil_r. reflexivity.
  - rewrite map_app in H. cbn [map fst] in H.
    pose proof (NoDup_remove_2 _ _ _ H) as N.
    rewrite obj_set_new by (intros I; apply N; apply in_or_app; auto).
    rewrite IH; rewrite <- List.app_assoc; [reflexivity|].
    cbn [app]. rewrite map_app. exact H.
Qed.

Lemma NoDup_keys_filter (f : string * json -> bool) : forall l,
  NoDup (map fst l) -> NoDup (map fst (filter f l)).
Proof.
  induction l as [|a l IH]; intros H; [constructor|].
  cbn [map] in H. inversion H as [|x xs Hx Hxs]; subst.
  cbn [filter]. destruct (f a); [|auto].
  cbn [map]. constructor; [|auto].
  intros I. apply Hx. apply in_map_iff in I as (e & E & I).
  apply filter_In in I as [I _]. apply in_map_iff. eauto.
Qed.

Lemma withoutLgo_filter md : NoDup (map fst md) -> withoutLgo md = filter not_lgo md.
Proof.
  intros H. unfold withoutLgo.
  change (fun entry : string * json => negb (String.eqb (fst entry) "lgo")) with not_lgo.
  apply (rebuild_entries (filter not_lgo md) []). apply NoDup_keys_filter. exact H.
Qed.

(** The lines of a list of entries, each with its line end. *)
Definition metadata_lines (l : Metadata) : string :=
  String.concat "" (map (fun e => metadataEntryToString e ++ nl) l).

Lemma metadata_lines_cons a l :
  metadata_lines (a :: l) = metadataEntryToString a ++ nl ++ metadata_lines l.
Proof.
  unfold metadata_lines. destruct l as [|b l]; cbn [map String.concat].
  - rewrite app_nil_r. reflexivity.
  - rewrite !app_assoc. reflexivity.
Qed.

Lemma metadata_join_nonempty b l :
  is_empty (String.concat nl (map metadataEntryToString (b :: l))) = false.
Proof.
  cbn [map String.concat]. destruct (map metadataEntryToString l);
    unfold metadataEntryToString; destruct b; reflexivity.
Qed.

(** One [@METADATA] line for each entry, in order. *)
Lemma seqJsonMetadataToSequence_lines : forall l,
  seqJsonMetadataToSequence l = metadata_lines l.
Proof.
  unfold seqJsonMetadataToSequence, join.
  induction l as [|a l IH]; [reflexivity|].
  rewrite metadata_lines_cons, <- IH, metadata_join_nonempty.
  destruct l as [|b l].
  - reflexivity.
  - rewrite metadata_join_nonempty.
    change (String.concat nl (map metadataEntryToString (a :: b :: l)))
      with (metadataEntryToString a ++ nl
            ++ String.concat nl (map metadataEntryToString (b :: l))).
    rewrite !app_assoc. reflexivity.
Qed.

(** ** Where the load-and-go directive can be *)

Definition newline : ascii := ascii_of_nat 10.

(** Empty, or ending with a line end. *)
Definition ends_nl (s : string) : Prop := s = "" \/ endsWith s newline = true.

Lemma endsWith_app : forall a b c, b <> "" -> endsWith (a ++ b) c = endsWith b c.
Proof.
  induction a as [|x a IH]; intros b c H; [reflexivity|].
  cbn [append endsWith]. rewrite <- (IH b c H).
  destruct (a ++ b) eqn:E; [|reflexivity].
  destruct a; [simpl in E; contradiction|discriminate].
Qed.

Lemma nonempty_app_r (a b : string) : b <> "" -> a ++ b <> "".
Proof. destruct a; [auto|discriminate]. Qed.

Lemma ends_nl_app_r a b : b <> "" -> ends_nl b -> ends_nl (a ++ b).
Proof.
  intros N [->|H]; [contradiction|]. right. rewrite endsWith_app; assumption.
Qed.

Lemma ends_nl_app a b : ends_nl a -> ends_nl b -> ends_nl (a ++ b).
Proof.
  intros Ha Hb. destruct b as [|x b].
  - rewrite app_nil_r. assumption.
  - apply ends_nl_app_r; [discriminate|assumption].
Qed.

Lemma ends_nl_line a : ends_nl (a ++ nl).
Proof. apply ends_nl_app_r; [discriminate|right; reflexivity]. Qed.

Lemma ends_nl_line2 a b : ends_nl (a ++ b ++ nl).
Proof. rewrite <- app_assoc. apply ends_nl_line. Qed.

Lemma ends_nl_ensureNewline s : ends_nl (ensureNewline s).
Proof.
  unfold ensureNewline. destruct (endsWith s (ascii_of_nat 10)) eqn:E.
  - right. exact E.
  - apply ends_nl_line.
Qed.

Lemma ends_nl_metadata l : ends_nl (seqJsonMetadataToSequence l).
Proof.
  unfold seqJsonMetadataToSequence. destruct (is_empty _); [left; reflexivity|].
  apply ends_nl_line.
Qed.

Lemma ends_nl_models l : ends_nl (seqJsonModelsToSequence l).
Proof.
  unfold seqJsonModelsToSequence. destruct (is_empty _); [left; reflexivity|].
  apply ends_nl_line.
Qed.

Lemma ends_nl_if_present {A : Type} (v : option A) (f : A -> string) :
  (forall a, ends_nl (f a)) -> ends_nl (if_present v f).
Proof. intros H. destruct v; [apply H|left; reflexivity]. Qed.

Lemma ends_nl_variables l b : ends_nl (seqJsonVariableToSequence l b).
Proof.
  unfold seqJsonVariableToSequence.
  repeat (apply ends_nl_app_r; [destruct b; discriminate|]).
  destruct b; right; reflexivity.
Qed.

Ltac ends_nl_chunk :=
  repeat first
    [ apply ends_nl_ensureNewline
    | apply ends_nl_metadata
    | apply ends_nl_models
    | apply ends_nl_line
    | apply ends_nl_line2
    | apply ends_nl_if_present; intros ?
    | solve [repeat (apply ends_nl_app_r; [discriminate|]); right; reflexivity]
    | apply ends_nl_app ].

Lemma ends_nl_step step : Forall ends_nl (fst (switch_step [] step)).
Proof.
  destruct step; cbn [switch_step]; [| | | | |constructor];
    rewrite fst_bind; cbn [ret fst push app]; (constructor; [|constructor]);
    unfold commandToString, loadOrActivateToString, groundToString;
    rewrite fst_bind; cbn [ret fst]; ends_nl_chunk.
Qed.

Lemma ends_nl_immediate i : ends_nl (fst (immediateToString i)).
Proof. unfold immediateToString. rewrite fst_bind. cbn [ret fst]. ends_nl_chunk. Qed.

Lemma ends_nl_hardware h : ends_nl (fst (hardwareToString h)).
Proof. unfold hardwareToString. cbn [ret fst]. ends_nl_chunk. Qed.

Lemma ends_nl_request r : ends_nl (fst (requestToString r)).
Proof.
  unfold requestToString. rewrite fst_bind. cbn [ret fst].
  apply ends_nl_app_r; [apply nonempty_app_r; discriminate|].
  apply ends_nl_app_r; [discriminate|].
  apply (ends_nl_app ("@REQUEST_END" ++ nl)); [right; reflexivity|].
  apply ends_nl_if_present, ends_nl_metadata.
Qed.

Definition LOAD_AND_GO : string := nl ++ "@LOAD_AND_GO".

(** ** The text of a document, part by part *)

Lemma concat_cons (x : string) (l : list string) :
  String.concat "" (x :: l) = x ++ String.concat "" l.
Proof. destruct l; cbn [String.concat]; [rewrite app_nil_r|]; reflexivity. Qed.

Lemma concat_app : forall l1 l2 : list string,
  String.concat "" (l1 ++ l2) = String.concat "" l1 ++ String.concat "" l2.
Proof.
  induction l1 as [|x l1 IH]; intros l2; [reflexivity|].
  cbn [app]. rewrite !concat_cons, IH, app_assoc. reflexivity.
Qed.

(** The text is what is pushed down to the directive, followed by what is
    pushed from the steps on. *)
Lemma seqJsonToSeqn_text d md :
  s_metadata d = Some md ->
  seqJsonToSeqn d
  = Returns (String.concat "" (seqn_head d md) ++ String.concat "" (tail_parts d),
             document_messages d).
Proof.
  intros M. unfold seqJsonToSeqn, seqJsonToSeqn_parts. rewrite M, seqn_tail_eq.
  unfold join. rewrite concat_app. reflexivity.
Qed.

(** The line of the identifier. *)
Definition ID_line (d : SeqJson) : string := "@ID " ++ dq ++ id d ++ dq ++ nl.

Lemma seqn_head_text d md :
  String.concat "" (seqn_head d md)
  = ID_line d
    ++ if_present (parameters d) (fun p => seqJsonVariableToSequence p INPUT_PARAMS)
    ++ if_present (locals d) (fun l => seqJsonVariableToSequence l LOCALS)
    ++ seqJsonMetadataToSequence (withoutLgo md)
    ++ (if truthy (prop "lgo" md) then LOAD_AND_GO else "").
Proof.
  unfold seqn_head, push, ID_line.
  destruct (parameters d), (locals d), (truthy (prop "lgo" md));
    cbn [app if_present]; rewrite !concat_cons; cbn [String.concat];
    rewrite ?app_nil_r; reflexivity.
Qed.

(** The document with its steps, commands and requests alone: it has no
    variables, and its metadata object is empty. *)
Definition body_only (d : SeqJson) : SeqJson :=
  {| id := id d; parameters := None; locals := None; s_metadata := Some [];
     steps := steps d; immediate_commands := immediate_commands d;
     hardware_commands := hardware_commands d; requests := requests d |}.

Lemma entry_lines (l : Metadata) :
  map (fun e => metadataEntryToString e ++ nl) l
  = map (fun e => "@METADATA " ++ quoteEscape (fst e) ++ " "
                  ++ JSON_stringify (snd e) ++ nl) l.
Proof.
  apply map_ext. intros [k v]. unfold metadataEntryToString. cbn [fst snd].
  rewrite !app_assoc. reflexivity.
Qed.

(** C8.  For a document with a metadata object (an object has each key
    once), the metadata adds to the text, between the variables and what
    the steps, commands and requests give, one [@METADATA] line for each
    of its entries other than [lgo], in order, with the key quoted and the
    value as JSON, and after these lines the [@LOAD_AND_GO] directive
    exactly when the [lgo] entry is set to a truthy value.  The rest of the
    text is the one of the document without variables and metadata, so the
    [lgo] entry gives nothing else. *)
Theorem seqJsonToSeqn_lgo (d : SeqJson) (md : Metadata) :
  s_metadata d = Some md ->
  NoDup (map fst md) ->
  exists rest log,
    seqJsonToSeqn (body_only d) = Returns (ID_line d ++ rest, log)
    /\ seqJsonToSeqn d
       = Returns
           (ID_line d
            ++ if_present (parameters d) (fun p => seqJsonVariableToSequence p INPUT_PARAMS)
            ++ if_present (locals d) (fun l => seqJsonVariableToSequence l LOCALS)
            ++ String.concat ""
                 (map (fun e => "@METADATA " ++ quoteEscape (fst e) ++ " "
                                ++ JSON_stringify (snd e) ++ nl)
                      (filter (fun e => negb (String.eqb (fst e) "lgo")) md))
            ++ (if truthy (prop "lgo" md) then nl ++ "@LOAD_AND_GO" else "")
            ++ rest,
            log).
Proof.
  intros M N. exists (String.concat "" (tail_parts d)), (document_messages d).
  split.
  - rewrite (seqJsonToSeqn_text (body_only d) [] eq_refl), seqn_head_text.
    cbn [body_only parameters locals if_present prop truthy withoutLgo filter fold_left
         seqJsonMetadataToSequence map join String.concat is_empty append].
    rewrite app_nil_r. reflexivity.
  - rewrite (seqJsonToSeqn_text d md M), seqn_head_text.
    rewrite (withoutLgo_filter md N), seqJsonMetadataToSequence_lines.
    unfold metadata_lines, not_lgo. rewrite entry_lines.
    rewrite !app_assoc. reflexivity.
Qed.

(** A document whose metadata has an author and the load-and-go flag. *)
Definition flagged_metadata : Metadata := [("author", JStr "ops"); ("lgo", JBool true)].

Definition flagged_document : SeqJson :=
  {| id := "seq"; parameters := None; locals := None; s_metadata := Some flagged_metadata;
     steps := None; immediate_commands := None; hardware_commands := None;
     requests := None |}.

Lemma seqJsonToSeqn_lgo_witness :
  exists rest log,
    seqJsonToSeqn (body_only flagged_document)
    = Returns ("@ID " ++ dq ++ "seq" ++ dq ++ nl ++ rest, log)
    /\ seqJsonToSeqn flagged_document
       = Returns
           ("@ID " ++ dq ++ "seq" ++ dq ++ nl
            ++ "@METADATA " ++ dq ++ "author" ++ dq ++ " " ++ dq ++ "ops" ++ dq ++ nl
            ++ nl ++ "@LOAD_AND_GO"
            ++ rest,
            log).
Proof.
  apply (seqJsonToSeqn_lgo flagged_document flagged_metadata); [reflexivity|].
  apply NoDup_cons; [simpl; intros [H|[]]; discriminate H|].
  apply NoDup_cons; [simpl; intros []|apply NoDup_nil].
Defined.

End DocumentMetadata.

(* ================================================================== *)
(** * Variable declarations *)
(* ================================================================== *)

Section Variables.
Import Js SeqJson.

(** The quoted list of ranges and the quoted list of values. *)
Definition ranges_quote (ranges : list Range) : string :=
  dq ++ join "," (map rangeToString ranges) ++ dq.

Definition values_quote (values : list prim) : string :=
  dq ++ join "," (map template values) ++ dq.

(** C9, amended.  What follows the name, the type and the enum name of a
    variable is decided by the presence of the two fields, not by their
    lengths: no quote when both are absent; the quote of the ranges, which
    are [min...max] joined by commas, when the ranges are present, be the
    array empty or not; the quote of the values after it when the values are
    present; and the empty quote before the quote of the values only when the
    ranges are absent. *)
Theorem variableToString_quotes (v : VariableDeclaration) :
  variableToString v
  = name v ++ if_string (type v) (fun t => " " ++ t)
           ++ if_string (enum_name v) (fun e => " " ++ e)
           ++ match allowable_ranges v, allowable_values v with
              | None, None => ""
              | None, Some values => " " ++ dq ++ dq ++ " " ++ values_quote values
              | Some ranges, None => " " ++ ranges_quote ranges
              | Some ranges, Some values =>
                  " " ++ ranges_quote ranges ++ " " ++ values_quote values
              end.
Proof.
  unfold variableToString, ranges_quote, values_quote.
  destruct v as [n t e [ranges|] [values|]]; cbn [allowable_ranges allowable_values
    SeqJson.name SeqJson.type enum_name if_present]; do 3 f_equal.
  apply app_nil_r.
Qed.

(** C9 as stated fails: a variable with an empty array of ranges and no
    values is rendered with an empty quote. *)
Lemma variableToString_empty_ranges :
  variableToString {| name := "x"; type := None; enum_name := None;
                      allowable_ranges := Some []; allowable_values := None |}
  = "x " ++ dq ++ dq
  /\ variableToString {| name := "x"; type := None; enum_name := None;
                         allowable_ranges := None; allowable_values := None |}
     = "x".
Proof. split; reflexivity. Qed.

End Variables.

(* ================================================================== *)
(** * Balancing a duration *)
(* ================================================================== *)

Section Balancing.
Import Js JsDate Time.

(** C2.  The string with 60 minutes is balanced to one hour with its sign
    and its day kept, but its 10 milliseconds come out as 100:
    [convertDurationToDoy] prints the milliseconds times 1000, and
    [getUnixEpochTime] reads the first three digits of that. *)
Theorem getBalancedDuration_sixty_minutes :
  parseDurationString "-002T00:60:00.010" u_seconds
  = Ok (ParsedDuration {| days := num 2; hours := num 0; isNegative := true;
                          microseconds := num 0; milliseconds := num 10;
                          minutes := num 60; seconds := num 0; years := num 0 |})
  /\ convertDurationToDoy
       (ParsedDuration {| days := num 2; hours := num 0; isNegative := true;
                          microseconds := num 0; milliseconds := num 10;
                          minutes := num 60; seconds := num 0; years := num 0 |})
     = "1970-002T00:60:00.10000"
  /\ getUnixEpochTime "1970-002T00:60:00.10000" = num 90000100
  /\ getDoyTime (newDate (num 90000100)) = "1970-002T01:00:00.100"
  /\ getBalancedDuration "-002T00:60:00.010" = Ok "-002T01:00:00.100".
Proof. repeat split; vm_compute; reflexivity. Qed.

End Balancing.

(* ================================================================== *)
(** * What a pattern can and must consume *)
(* ================================================================== *)

Section Alphabet.
Import Js Re Time.

(** A test that holds of all 256 characters. *)
Definition every_char (q : ascii -> bool) : bool :=
  forallb (fun n => q (ascii_of_nat n)) (seq 0 256).

Lemma every_char_spec q : every_char q = true -> forall x, q x = true.
Proof.
  intros H x. rewrite <- (ascii_nat_embedding x).
  unfold every_char in H. rewrite forallb_forall in H. apply H.
  apply in_seq. split; [lia|]. apply nat_ascii_bounded.
Qed.

(** The class [p] lies within the class [P]. *)
Definition subclass (p P : ascii -> bool) : bool :=
  every_char (fun x => implb (p x) (P x)).

Lemma subclass_spec p P : subclass p P = true -> forall x, p x = true -> P x = true.
Proof.
  intros H x Hp. apply every_char_spec with (x := x) in H.
  rewrite Hp in H. exact H.
Qed.

(** Every character that [r] consumes is in [P]. *)
Fixpoint within (P : ascii -> bool) (r : regex) : bool :=
  match r with
  | Chr p | Star p => subclass p P
  | Seq a b | Alt a b => within P a && within P b
  | Opt a | Grp _ a => within P a
  | Eps | Bol | Eol | NotAhead _ => true
  end.

(** Every match of [r] consumes a character of [P]. *)
Fixpoint must (P : ascii -> bool) (r : regex) : bool :=
  match r with
  | Chr p => subclass p P
  | Seq a b => must P a || must P b
  | Alt a b => must P a && must P b
  | Grp _ a => must P a
  | _ => false
  end.

(** Every match of [r] that consumes anything consumes a character of [P]. *)
Fixpoint idle_without (P : ascii -> bool) (r : regex) : bool :=
  match r with
  | Chr p | Star p => subclass p P
  | Seq a b => (idle_without P a && idle_without P b) || must P a || must P b
  | Alt a b => idle_without P a && idle_without P b
  | Opt a | Grp _ a => idle_without P a
  | Eps | Bol | Eol | NotAhead _ => true
  end.

(** [s] has a character of [P]. *)
Definition has (P : ascii -> bool) (s : string) : bool :=
  negb (all (fun x => negb (P x)) s).

Lemma has_app P a b : has P (a ++ b) = has P a || has P b.
Proof. unfold has. rewrite all_app, negb_andb. reflexivity. Qed.

Lemma within_sound P : forall r i s c i' s' c',
  within P r = true -> matches r i s c i' s' c' ->
  exists w, s = w ++ s' /\ all P w = true.
Proof.
  induction r as [|p|a IHa b IHb|a IHa b IHb|a IHa|p|g a IHa| | |a IHa];
    intros i s c i' s' c' W M; cbn [within matches] in *.
  - destruct M as (_ & -> & _). exists "". auto.
  - destruct M as (x & -> & Hp & _). exists (String x "").
    split; [reflexivity|]. cbn [all]. rewrite (subclass_spec _ _ W x Hp). reflexivity.
  - apply andb_prop in W as [Wa Wb]. destruct M as (i1 & s1 & c1 & Ma & Mb).
    destruct (IHa _ _ _ _ _ _ Wa Ma) as (w1 & -> & H1).
    destruct (IHb _ _ _ _ _ _ Wb Mb) as (w2 & -> & H2).
    exists (w1 ++ w2). rewrite app_assoc, all_app, H1, H2. auto.
  - apply andb_prop in W as [Wa Wb]. destruct M as [M|M]; eauto.
  - destruct M as [M|(_ & -> & _)]; [eauto|]. exists "". auto.
  - destruct M as (w & -> & Hw & _). exists w. split; [reflexivity|].
    apply all_weaken with p; [apply subclass_spec; assumption|assumption].
  - destruct M as (c1 & M & _). eauto.
  - destruct M as (_ & _ & -> & _). exists "". auto.
  - destruct M as (_ & _ & -> & _). exists "". auto.
  - destruct M as (_ & _ & -> & _). exists "". auto.
Qed.

Lemma must_sound P : forall r i s c i' s' c',
  must P r = true -> matches r i s c i' s' c' ->
  exists w, s = w ++ s' /\ has P w = true.
Proof.
  induction r as [|p|a IHa b IHb|a IHa b IHb|a IHa|p|g a IHa| | |a IHa];
    intros i s c i' s' c' W M; cbn [must matches] in *; try discriminate W.
  - destruct M as (x & -> & Hp & _). exists (String x "").
    split; [reflexivity|]. unfold has. cbn [all].
    rewrite (subclass_spec _ _ W x Hp). reflexivity.
  - destruct M as (i1 & s1 & c1 & Ma & Mb).
    destruct (matches_consumes _ _ _ _ _ _ _ Ma) as (w1 & E1 & _).
    destruct (matches_consumes _ _ _ _ _ _ _ Mb) as (w2 & E2 & _).
    exists (w1 ++ w2). split; [rewrite app_assoc; congruence|].
    rewrite has_app. apply orb_true_iff.
    apply orb_prop in W as [W|W]; [left|right].
    + destruct (IHa _ _ _ _ _ _ W Ma) as (w & E & H).
      rewrite E1 in E. apply app_inv_tail in E. congruence.
    + destruct (IHb _ _ _ _ _ _ W Mb) as (w & E & H).
      rewrite E2 in E. apply app_inv_tail in E. congruence.
  - apply andb_prop in W as [Wa Wb]. destruct M as [M|M]; eauto.
  - destruct M as (c1 & M & _). eauto.
Qed.

Lemma idle_without_sound P : forall r i s c i' s' c',
  idle_without P r = true -> matches r i s c i' s' c' ->
  exists w, s = w ++ s' /\ (w = "" \/ has P w = true).
Proof.
  induction r as [|p|a IHa b IHb|a IHa b IHb|a IHa|p|g a IHa| | |a IHa];
    intros i s c i' s' c' W M; cbn [idle_without].
  - destruct M as (_ & -> & _). exists "". auto.
  - destruct (must_sound P (Chr p) _ _ _ _ _ _ W M) as (w & E & H). eauto.
  - cbn [idle_without] in W.
    apply orb_prop in W as [W|W]; [apply orb_prop in W as [W|W]|].
    + apply andb_prop in W as [Wa Wb]. destruct M as (i1 & s1 & c1 & Ma & Mb).
      destruct (IHa _ _ _ _ _ _ Wa Ma) as (w1 & -> & H1).
      destruct (IHb _ _ _ _ _ _ Wb Mb) as (w2 & -> & H2).
      exists (w1 ++ w2). split; [symmetry; apply app_assoc|].
      destruct H1 as [->|H1]; [destruct H2 as [->|H2]; auto|].
      right. rewrite has_app, H1. reflexivity.
    + assert (W' : must P (Seq a b) = true) by (cbn [must]; rewrite W; reflexivity).
      destruct (must_sound P _ _ _ _ _ _ _ W' M) as (w & E & H). eauto.
    + assert (W' : must P (Seq a b) = true) by (cbn [must]; rewrite W; apply orb_true_r).
      destruct (must_sound P _ _ _ _ _ _ _ W' M) as (w & E & H). eauto.
  - cbn [idle_without] in W. apply andb_prop in W as [Wa Wb]. destruct M as [M|M]; eauto.
  - cbn [idle_without] in W. destruct M as [M|(_ & -> & _)]; [eauto|]. exists "". auto.
  - cbn [idle_without] in W. destruct M as (w & -> & Hw & _). exists w.
    split; [reflexivity|]. destruct w as [|x w]; [auto|right].
    cbn [all] in Hw. apply andb_prop in Hw as [Hx _].
    unfold has. cbn [all]. rewrite (subclass_spec _ _ W x Hx). reflexivity.
  - cbn [idle_without] in W. destruct M as (c1 & M & _). eauto.
  - destruct M as (_ & _ & -> & _). exists "". auto.
  - destruct M as (_ & _ & -> & _). exists "". auto.
  - destruct M as (_ & _ & -> & _). exists "". auto.
Qed.

(** ** Patterns anchored at both ends *)

(** The pattern ends with [$]. *)
Fixpoint ends_Eol (r : regex) : bool :=
  match r with
  | Eol => true
  | Seq _ b => ends_Eol b
  | _ => false
  end.

Lemma ends_Eol_sound : forall r i s c i' s' c',
  ends_Eol r = true -> matches r i s c i' s' c' -> s' = "".
Proof.
  induction r as [|p|a IHa b IHb|a IHa b IHb|a IHa|p|g a IHa| | |a IHa];
    intros i s c i' s' c' E M; cbn [ends_Eol] in E; try discriminate E.
  - destruct M as (i1 & s1 & c1 & _ & Mb). eauto.
  - destruct M as (-> & _ & -> & _). reflexivity.
Qed.

(** A match of a pattern that starts with [^] and ends with [$] is a match
    of the whole string. *)
Lemma exec_anchored r s m :
  exec (Seq Bol r) s = Some m -> ends_Eol r = true ->
  exists i' c, matches r 0 s c i' "" m.
Proof.
  intros E H. apply exec_sound in E as (pre & suf & i' & s' & -> & M).
  destruct M as (i1 & s1 & c1 & (Hi & -> & -> & ->) & M).
  destruct pre; [|discriminate Hi]. cbn [append String.length] in *.
  pose proof (ends_Eol_sound _ _ _ _ _ _ _ H M) as ->. eauto.
Qed.

Lemma anchored_within P r s m :
  exec (Seq Bol r) s = Some m -> ends_Eol r = true -> within P r = true ->
  all P s = true.
Proof.
  intros E H W. destruct (exec_anchored _ _ _ E H) as (i' & c & M).
  destruct (within_sound P _ _ _ _ _ _ _ W M) as (w & -> & Hw).
  rewrite app_nil_r. exact Hw.
Qed.

Lemma anchored_must P r s m :
  exec (Seq Bol r) s = Some m -> ends_Eol r = true -> must P r = true ->
  has P s = true.
Proof.
  intros E H W. destruct (exec_anchored _ _ _ E H) as (i' & c & M).
  destruct (must_sound P _ _ _ _ _ _ _ W M) as (w & -> & Hw).
  rewrite app_nil_r. exact Hw.
Qed.

Lemma anchored_idle P r s m :
  exec (Seq Bol r) s = Some m -> ends_Eol r = true -> idle_without P r = true ->
  s = "" \/ has P s = true.
Proof.
  intros E H W. destruct (exec_anchored _ _ _ E H) as (i' & c & M).
  destruct (idle_without_sound P _ _ _ _ _ _ _ W M) as (w & -> & Hw).
  rewrite app_nil_r. exact Hw.
Qed.

End Alphabet.

(* ================================================================== *)
(** * Strings that [parseDurationString] rejects *)
(* ================================================================== *)

Section ForeignCharacters.
Import Js Re Time.

(** The characters that occur in the duration formats: white space, the
    digits, the signs, the point, the colon, the letter [T] in either case
    and the letters of the units. *)
Definition duration_char (c : ascii) : bool :=
  is_ws c || existsb (Ascii.eqb c) (list_ascii_of_string "0123456789+-.:Ttydhmsu").

Lemma all_true_false (P : ascii -> bool) s : all P s = true -> all P s = false -> False.
Proof. congruence. Qed.

(** X1.  A string with a character that belongs to none of the duration formats
    is rejected: [parseDurationString] throws its format error. *)
Theorem parseDurationString_foreign_character (s : string) (units : Units) :
  all duration_char s = false ->
  parseDurationString s units = Throw invalidTimeFormat.
Proof.
  intros H. unfold parseDurationString.
  destruct (exec fullValidDurationRegex s) as [m|] eqn:E1.
  { exfalso. apply (all_true_false duration_char s); [|exact H].
    apply (anchored_within duration_char _ s m E1); vm_compute; reflexivity. }
  unfold parseDoyOrYmdTime, parseDoyOrYmdTime_n.
  destruct (exec (doyOrYmdRegex 6) s) as [m|] eqn:E2.
  { exfalso. apply (all_true_false duration_char s); [|exact H].
    apply (anchored_within duration_char _ s m E2); vm_compute; reflexivity. }
  assert (E3 : parseDOYDurationTime s = None).
  { unfold parseDOYDurationTime.
    destruct (validateTime s TimeTypes.EPOCH).
    - destruct (exec EPOCH_TIME s) as [m|] eqn:E3; [|reflexivity].
      exfalso. apply (all_true_false duration_char s); [|exact H].
      apply (anchored_within duration_char _ s m E3); vm_compute; reflexivity.
    - destruct (exec RELATIVE_TIME s) as [m|] eqn:E3; [|reflexivity].
      exfalso. apply (all_true_false duration_char s); [|exact H].
      apply (anchored_within duration_char _ s m E3); vm_compute; reflexivity. }
  rewrite E3.
  destruct (exec bareNumberRegex s) as [m|] eqn:E4; [|reflexivity].
  exfalso. apply (all_true_false duration_char s); [|exact H].
  apply (anchored_within duration_char _ s m E4); vm_compute; reflexivity.
Qed.

Lemma parseDurationString_foreign_character_witness :
  all duration_char "90 minutes" = false
  /\ parseDurationString "90 minutes" u_minutes = Throw invalidTimeFormat.
Proof.
  split; [reflexivity|].
  apply (parseDurationString_foreign_character "90 minutes" u_minutes). reflexivity.
Defined.

End ForeignCharacters.

(* ================================================================== *)
(** * A bare number as a duration *)
(* ================================================================== *)

Section BareNumbers.
Import Js Re Time.

(** A pattern that starts with [^] is tried at the start only. *)
Lemma search_Bol r : forall s i, search (Seq Bol r) (S i) s = None.
Proof.
  induction s as [|a s IH]; intros i; cbn [search run Nat.eqb]; [reflexivity|apply IH].
Qed.

Lemma exec_Bol r s : exec (Seq Bol r) s = run (Seq Bol r) 0 s [] accept.
Proof.
  unfold exec. destruct s as [|a s]; cbn [search];
    destruct (run (Seq Bol r) 0 _ [] accept); try reflexivity.
  apply search_Bol.
Qed.

(** A run of [p] up to the end of the input is taken whole when what
    follows the star accepts the end. *)
Lemma star_to_end p : forall w i c k m,
  all p w = true ->
  k (i + String.length w)%nat "" c = Some m ->
  star p i w c k = Some m.
Proof.
  induction w as [|a w IH]; intros i c k m Hw Hk; cbn [star].
  - cbn [String.length] in Hk. rewrite Nat.add_0_r in Hk. exact Hk.
  - cbn [all] in Hw. apply andb_prop in Hw as [Ha Hw]. rewrite Ha.
    rewrite (IH (S i) c k m Hw); [reflexivity|].
    cbn [String.length] in Hk. rewrite Nat.add_succ_r in Hk. exact Hk.
Qed.

Lemma has_digits_only P s :
  subclass is_digit (fun x => negb (P x)) = true ->
  all is_digit s = true -> has P s = false.
Proof.
  intros H Hs. unfold has. apply negb_false_iff.
  apply all_weaken with is_digit; [|assumption].
  apply subclass_spec. exact H.
Qed.

Lemma take_all (s : string) : take (String.length s) s = s.
Proof. rewrite <- (app_nil_r s) at 2. apply take_app. Qed.

(** The three patterns that are tried before the bare number do not match
    a string of digits. *)
Lemma digits_not_unit_suffixed ds :
  numeral ds -> exec fullValidDurationRegex ds = None.
Proof.
  intros [Hne Hds]. destruct (exec fullValidDurationRegex ds) as [m|] eqn:E; [|reflexivity].
  exfalso.
  destruct (anchored_idle (fun x => negb (is_digit x)) _ ds m E) as [->|H];
    [vm_compute; reflexivity .. | auto |].
  rewrite has_digits_only in H; [discriminate|vm_compute; reflexivity|assumption].
Qed.

Lemma digits_not_calendar ds :
  all is_digit ds = true -> parseDoyOrYmdTime ds = None.
Proof.
  intros Hds. unfold parseDoyOrYmdTime, parseDoyOrYmdTime_n.
  destruct (exec (doyOrYmdRegex 6) ds) as [m|] eqn:E.
  { exfalso. pose proof (anchored_must (is_char "-") _ ds m E) as H.
    rewrite has_digits_only in H; [|vm_compute; reflexivity|assumption].
    discriminate H; vm_compute; reflexivity. }
  unfold parseDOYDurationTime.
  destruct (validateTime ds TimeTypes.EPOCH).
  - destruct (exec EPOCH_TIME ds) as [m|] eqn:E'; [|reflexivity].
    exfalso. pose proof (anchored_must (is_char ":") _ ds m E') as H.
    rewrite has_digits_only in H; [|vm_compute; reflexivity|assumption].
    discriminate H; vm_compute; reflexivity.
  - destruct (exec RELATIVE_TIME ds) as [m|] eqn:E'; [|reflexivity].
    exfalso. pose proof (anchored_must (is_char ":") _ ds m E') as H.
    rewrite has_digits_only in H; [|vm_compute; reflexivity|assumption].
    discriminate H; vm_compute; reflexivity.
Qed.

(** What the pattern of the bare number captures in a string of digits. *)
Lemma exec_bare_digits ds :
  numeral ds -> exec bareNumberRegex ds = Some [("int", ds); ("sign", "")].
Proof.
  intros [Hne Hds]. destruct ds as [|a ds]; [contradiction|].
  cbn [all] in Hds. apply andb_prop in Hds as [Ha Hds].
  unfold bareNumberRegex. cbn [Seqs]. rewrite exec_Bol.
  unfold paren, Plus. cbn [run Nat.eqb]. rewrite (digit_not_sign a Ha), Ha.
  erewrite star_to_end; [reflexivity|exact Hds|].
  cbn [run is_empty accept Nat.sub take is_char]. 
  rewrite Nat.sub_0_r. cbn [Nat.add]. 
  change (take (S (String.length ds)) (String a ds)) with (String a (take (String.length ds) ds)).
  rewrite take_all. reflexivity.
Qed.

#[local] Open Scope Z_scope.

Lemma nadd_num a b : nadd (num a) (num b) = num (a + b).
Proof.
  unfold nadd, lift2, num. f_equal.
  rewrite <- (Qred_inject_Z (a + b)). apply Qred_complete.
  rewrite inject_Z_plus. reflexivity.
Qed.

Lemma nrem_num a b : 0 <= a -> 0 < b -> nrem (num a) (num b) = num (a mod b).
Proof.
  intros Ha Hb. unfold nrem, num. rewrite (Qeq_bool_inject_pos b Hb). f_equal.
  assert (T : Qtrunc (inject_Z a / inject_Z b) = a / b).
  { unfold Qtrunc.
    assert (P : Qle_bool 0 (inject_Z a / inject_Z b) = true).
    { apply Qle_bool_iff. apply Qdiv_pos_nonneg; [|assumption].
      change 0%Q with (inject_Z 0). rewrite <- Zle_Qle. assumption. }
    rewrite P. symmetry. apply Zdiv_Qdiv. }
  rewrite T. rewrite <- (Qred_inject_Z (a mod b)). apply Qred_complete.
  rewrite Z.mod_eq by lia. unfold Z.sub.
  rewrite inject_Z_plus, inject_Z_opp, inject_Z_mult. reflexivity.
Qed.

(** The carry on whole numbers. *)
Lemma carry_num lo hi base :
  0 <= lo -> 0 < base ->
  carry (num lo) (num hi) base = (num (lo mod base), num (hi + lo / base)).
Proof.
  intros Hlo Hb. unfold carry.
  rewrite (nrem_num lo base Hlo Hb), (floor_ndiv_num lo base Hb), nadd_num.
  reflexivity.
Qed.

(** The length of a unit in milliseconds; a microsecond has none. *)
Definition unit_milliseconds (units : Units) : option Z :=
  match units with
  | u_days => Some 86400000
  | u_hours => Some 3600000
  | u_minutes => Some 60000
  | u_seconds => Some 1000
  | u_milliseconds => Some 1
  | u_microseconds => None
  end.

(** X2.  A whole number [n] (below 2^53) of a unit from milliseconds to days is
    parsed into a balanced duration of the same length: the hours are below
    24, the minutes and seconds below 60, the milliseconds below 1000, the
    days below 365, there are no microseconds and no sign, and the fields
    add up to [n] units, with years of 365 days. *)
Theorem parseDurationString_whole_number (n w : Z) (units : Units) :
  0 <= n < 2 ^ 53 ->
  unit_milliseconds units = Some w ->
  exists y d h mi s ms,
    parseDurationString (Z_to_string n) units
    = Ok (ParsedDuration {| days := num d; hours := num h; isNegative := false;
                            microseconds := num 0; milliseconds := num ms;
                            minutes := num mi; seconds := num s; years := num y |})
    /\ 0 <= y /\ 0 <= d < 365 /\ 0 <= h < 24 /\ 0 <= mi < 60 /\ 0 <= s < 60
    /\ 0 <= ms < 1000
    /\ ((((y * 365 + d) * 24 + h) * 60 + mi) * 60 + s) * 1000 + ms = n * w.
Proof.
  intros [Hn _] Hw.
  destruct (Z_to_string_digits n Hn) as (Hne & Hds & Hv).
  unfold parseDurationString.
  rewrite (digits_not_unit_suffixed _ (conj Hne Hds)), (digits_not_calendar _ Hds),
    (exec_bare_digits _ (conj Hne Hds)).
  cbn [group_or group String.eqb Ascii.eqb Bool.eqb is_empty negb andb].
  rewrite (parseInt_digits _ Hne Hds), Hv.
  change (parseFloat "0") with (num 0).
  destruct units; try discriminate Hw; injection Hw as <-; cbv beta iota zeta;
    repeat (rewrite carry_num by (Z.div_mod_to_equations; lia); cbv beta iota zeta);
    do 6 eexists; (split; [reflexivity|]);
    repeat split; Z.div_mod_to_equations; lia.
Qed.

(** 5400 seconds are an hour and a half. *)
Lemma parseDurationString_whole_number_witness :
  exists y d h mi s ms,
    parseDurationString (Z_to_string 5400) u_seconds
    = Ok (ParsedDuration {| days := num d; hours := num h; isNegative := false;
                            microseconds := num 0; milliseconds := num ms;
                            minutes := num mi; seconds := num s; years := num y |})
    /\ 0 <= y /\ 0 <= d < 365 /\ 0 <= h < 24 /\ 0 <= mi < 60 /\ 0 <= s < 60
    /\ 0 <= ms < 1000
    /\ ((((y * 365 + d) * 24 + h) * 60 + mi) * 60 + s) * 1000 + ms = 5400 * 1000.
Proof.
  apply (parseDurationString_whole_number 5400 1000 u_seconds); [lia|reflexivity].
Defined.

End BareNumbers.

(* ================================================================== *)
(** * Running a pattern on a text of digits and marks *)
(* ================================================================== *)

Section Fields.
Import Js Re Time Spec.

Lemma field2_chars v :
  is_field 2 v = true ->
  exists a b, v = String a (String b "") /\ is_digit a = true /\ is_digit b = true.
Proof.
  unfold is_field. intros H. apply andb_prop in H as [L D].
  destruct v as [|a [|b [|c v]]]; try discriminate L.
  cbn [all] in D. apply andb_prop in D as [Ha D]. apply andb_prop in D as [Hb _].
  exists a, b. auto.
Qed.

Lemma field3_chars v :
  is_field 3 v = true ->
  exists a b c, v = String a (String b (String c ""))
                /\ is_digit a = true /\ is_digit b = true /\ is_digit c = true.
Proof.
  unfold is_field. intros H. apply andb_prop in H as [L D].
  destruct v as [|a [|b [|c [|d v]]]]; try discriminate L.
  cbn [all] in D. apply andb_prop in D as [Ha D]. apply andb_prop in D as [Hb D].
  apply andb_prop in D as [Hc _].
  exists a, b, c. auto.
Qed.

Lemma field4_chars v :
  is_field 4 v = true ->
  exists a b c d, v = String a (String b (String c (String d "")))
                  /\ is_digit a = true /\ is_digit b = true /\ is_digit c = true
                  /\ is_digit d = true.
Proof.
  unfold is_field. intros H. apply andb_prop in H as [L D].
  destruct v as [|a [|b [|c [|d [|e v]]]]]; try discriminate L.
  cbn [all] in D. apply andb_prop in D as [Ha D]. apply andb_prop in D as [Hb D].
  apply andb_prop in D as [Hc D]. apply andb_prop in D as [Hd _].
  exists a, b, c, d. auto.
Qed.

Lemma digit_not_char_i x y c :
  is_digit c = true -> is_digit x = false -> is_digit y = false ->
  is_char_i x y c = false.
Proof.
  intros Hc Hx Hy. unfold is_char_i.
  pose proof (digit_not_char x c Hc Hx) as E1.
  pose proof (digit_not_char y c Hc Hy) as E2.
  unfold is_char in E1, E2. rewrite E1, E2. reflexivity.
Qed.

End Fields.

(** One test of a character: of a digit that is not known further, or of a
    character that is given. *)
Ltac char_test :=
  match goal with
  | H : Js.is_digit ?a = true |- context [Js.is_digit ?a] => rewrite H
  | H : Js.is_digit ?a = true |- context [Js.is_sign ?a] =>
      rewrite (digit_not_sign a H)
  | H : Js.is_digit ?a = true |- context [Js.is_char ?x ?a] =>
      rewrite (digit_not_char x a H eq_refl)
  | H : Js.is_digit ?a = true |- context [Js.is_char_i ?x ?y ?a] =>
      rewrite (digit_not_char_i x y a H eq_refl eq_refl)
  | H : Js.in_range ?l ?h ?a = true |- context [Js.in_range ?l ?h ?a] => rewrite H
  | H : Js.in_range ?l ?h ?a = false |- context [Js.in_range ?l ?h ?a] => rewrite H
  | |- context [Js.is_digit (Ascii ?b0 ?b1 ?b2 ?b3 ?b4 ?b5 ?b6 ?b7)] =>
      let t := constr:(Js.is_digit (Ascii b0 b1 b2 b3 b4 b5 b6 b7)) in
      let v := eval vm_compute in t in change t with v
  | |- context [Js.is_sign (Ascii ?b0 ?b1 ?b2 ?b3 ?b4 ?b5 ?b6 ?b7)] =>
      let t := constr:(Js.is_sign (Ascii b0 b1 b2 b3 b4 b5 b6 b7)) in
      let v := eval vm_compute in t in change t with v
  | |- context [Js.is_char ?x (Ascii ?b0 ?b1 ?b2 ?b3 ?b4 ?b5 ?b6 ?b7)] =>
      let t := constr:(Js.is_char x (Ascii b0 b1 b2 b3 b4 b5 b6 b7)) in
      let v := eval vm_compute in t in change t with v
  | |- context [Js.is_char_i ?x ?y (Ascii ?b0 ?b1 ?b2 ?b3 ?b4 ?b5 ?b6 ?b7)] =>
      let t := constr:(Js.is_char_i x y (Ascii b0 b1 b2 b3 b4 b5 b6 b7)) in
      let v := eval vm_compute in t in change t with v
  | |- context [Js.in_range ?l ?h (Ascii ?b0 ?b1 ?b2 ?b3 ?b4 ?b5 ?b6 ?b7)] =>
      let t := constr:(Js.in_range l h (Ascii b0 b1 b2 b3 b4 b5 b6 b7)) in
      let v := eval vm_compute in t in change t with v
  end.

(** Runs the matcher as far as the tests of the characters are known. *)
Ltac run_steps :=
  repeat (lazy beta iota zeta delta
               [Re.run Re.star Re.Seqs Re.Rep Re.UpTo Re.Between Re.Plus Re.paren Re.Lit
                Re.accept Nat.eqb Nat.sub Nat.add Js.take Js.is_empty append
                Time.d2 Time.d3 Time.d4];
          repeat char_test).

Section DurationTags.
Import Js Re Time Spec.

Lemma parseInt_field k v :
  is_field (S k) v = true -> parseInt v = num (digits_val 0 v).
Proof.
  intros H. destruct (is_field_numeral k v H) as [Hne Hd].
  apply parseInt_digits; assumption.
Qed.

(** The text of a duration tag: a sign or none, three digits of days or
    none, a [T] or none, then hours, minutes and seconds of two digits, and
    a point with three digits of milliseconds or nothing. *)
Definition duration_tag (sg day t h mi sec ms : string) : string :=
  sg ++ day ++ t ++ h ++ ":" ++ mi ++ ":" ++ sec
     ++ (if is_empty ms then "" else "." ++ ms).

Definition tag_captures (sg day h mi sec ms : string) : caps :=
  ((if is_empty ms then [] else [("ms", ms)])
   ++ [("secs", sec); ("mins", mi); ("hr", h)]
   ++ (if is_empty day then [] else [("doy", day)])
   ++ [("sign", sg)])%list.

Lemma has_colon sg day t h mi sec ms :
  has (is_char ":") (duration_tag sg day t h mi sec ms) = true.
Proof.
  unfold duration_tag. rewrite !has_app.
  replace (has (is_char ":") (":" ++ mi ++ ":" ++ sec ++ (if is_empty ms then "" else "." ++ ms)))
    with true by reflexivity.
  rewrite !orb_true_r. reflexivity.
Qed.

Lemma duration_tag_not_unit_suffixed sg day t h mi sec ms :
  exec fullValidDurationRegex (duration_tag sg day t h mi sec ms) = None.
Proof.
  destruct (exec fullValidDurationRegex _) as [m|] eqn:E; [|reflexivity].
  exfalso.
  pose proof (anchored_within (fun x => negb (is_char ":" x)) _ _ m E) as W.
  pose proof (has_colon sg day t h mi sec ms) as H.
  unfold has in H. rewrite W in H; [discriminate H | vm_compute; reflexivity ..].
Qed.

(** The parts are those of a duration tag. *)
Definition tag_parts (sg day t h mi sec ms : string) : bool :=
  (String.eqb sg "" || String.eqb sg "+" || String.eqb sg "-")
  && (is_empty day || is_field 3 day)
  && (is_empty t || String.eqb t "T")
  && is_field 2 h && is_field 2 mi && is_field 2 sec
  && (is_empty ms || is_field 3 ms).

Ltac tag_cases H :=
  unfold tag_parts in H;
  repeat match type of H with
         | _ && _ = true =>
             let H' := fresh "P" in apply andb_prop in H as [H H']
         end;
  repeat match goal with
         | P : _ || _ = true |- _ => apply orb_prop in P as [P|P]
         | P : String.eqb _ _ = true |- _ => apply String.eqb_eq in P as ->
         | P : is_empty _ = true |- _ => apply is_empty_true in P as ->
         | P : is_field 2 _ = true |- _ =>
             let a := fresh "a" in let b := fresh "b" in
             let Ha := fresh "Ha" in let Hb := fresh "Hb" in
             apply field2_chars in P as (a & b & -> & Ha & Hb)
         | P : is_field 3 _ = true |- _ =>
             let a := fresh "a" in let b := fresh "b" in let c := fresh "c" in
             let Ha := fresh "Ha" in let Hb := fresh "Hb" in let Hc := fresh "Hc" in
             apply field3_chars in P as (a & b & c & -> & Ha & Hb & Hc)
         end.

Lemma duration_tag_not_calendar sg day t h mi sec ms :
  tag_parts sg day t h mi sec ms = true ->
  exec (doyOrYmdRegex 6) (duration_tag sg day t h mi sec ms) = None.
Proof.
  intros H. tag_cases H; unfold duration_tag, doyOrYmdRegex; cbn [Seqs];
    rewrite exec_Bol; run_steps; reflexivity.
Qed.

Lemma exec_EPOCH_tag sg day t h mi sec ms :
  tag_parts sg day t h mi sec ms = true ->
  exec EPOCH_TIME (duration_tag sg day t h mi sec ms)
  = Some (tag_captures sg day h mi sec ms).
Proof.
  intros H. tag_cases H; unfold duration_tag, EPOCH_TIME, tag_captures; cbn [Seqs];
    rewrite exec_Bol; run_steps; reflexivity.
Qed.

Lemma tag_parts_fields sg day t h mi sec ms :
  tag_parts sg day t h mi sec ms = true ->
  (sg = "" \/ sg = "+" \/ sg = "-")
  /\ (day = "" \/ is_field 3 day = true)
  /\ is_field 2 h = true /\ is_field 2 mi = true /\ is_field 2 sec = true
  /\ (ms = "" \/ is_field 3 ms = true).
Proof.
  unfold tag_parts. intros H.
  repeat match type of H with
         | _ && _ = true =>
             let H' := fresh "P" in apply andb_prop in H as [H H']
         end.
  repeat match goal with
         | P : _ || _ = true |- _ => apply orb_prop in P as [P|P]
         | P : String.eqb _ _ = true |- _ => apply String.eqb_eq in P as ->
         | P : is_empty _ = true |- _ => apply is_empty_true in P as ->
         end; auto 10.
Qed.

Lemma duration_tag_valid sg day t h mi sec ms :
  tag_parts sg day t h mi sec ms = true ->
  validateTime (duration_tag sg day t h mi sec ms) TimeTypes.EPOCH = true.
Proof.
  intros H. unfold validateTime, test.
  rewrite (exec_EPOCH_tag _ _ _ _ _ _ _ H). reflexivity.
Qed.

Lemma duration_tag_parsed sg day t h mi sec ms units :
  tag_parts sg day t h mi sec ms = true ->
  parseDurationString (duration_tag sg day t h mi sec ms) units
  = Ok (ParsedDuration
          {| days := num (digits_val 0 day); hours := num (digits_val 0 h);
             isNegative := String.eqb sg "-"; microseconds := num 0;
             milliseconds := num (digits_val 0 ms);
             minutes := num (digits_val 0 mi);
             seconds := num (digits_val 0 sec); years := num 0 |}).
Proof.
  intros H.
  pose proof (exec_EPOCH_tag _ _ _ _ _ _ _ H) as E.
  pose proof (duration_tag_valid _ _ _ _ _ _ _ H) as V.
  unfold parseDurationString. rewrite duration_tag_not_unit_suffixed.
  unfold parseDoyOrYmdTime, parseDoyOrYmdTime_n.
  rewrite (duration_tag_not_calendar _ _ _ _ _ _ _ H).
  unfold parseDOYDurationTime. rewrite V, E.
  destruct (tag_parts_fields _ _ _ _ _ _ _ H) as (Hsg & Hday & Hh & Hmi & Hsec & Hms).
  assert (Gh : group_or "hr" "0" (tag_captures sg day h mi sec ms) = h).
  { unfold tag_captures. destruct (is_empty ms); reflexivity. }
  assert (Gm : group_or "mins" "0" (tag_captures sg day h mi sec ms) = mi).
  { unfold tag_captures. destruct (is_empty ms); reflexivity. }
  assert (Gs : group_or "secs" "0" (tag_captures sg day h mi sec ms) = sec).
  { unfold tag_captures. destruct (is_empty ms); reflexivity. }
  assert (Gx : parseInt (group_or "ms" "0" (tag_captures sg day h mi sec ms))
               = num (digits_val 0 ms)).
  { unfold tag_captures. destruct Hms as [->|Hms];
      [destruct (is_empty day); reflexivity|].
    replace (is_empty ms) with false
      by (destruct ms; [discriminate Hms|reflexivity]).
    cbn [app group_or group String.eqb Ascii.eqb Bool.eqb].
    apply parseInt_field with 2%nat. assumption. }
  assert (Gd : parseInt (group_or "doy" "0" (tag_captures sg day h mi sec ms))
               = num (digits_val 0 day)).
  { unfold tag_captures. destruct Hday as [->|Hday];
      [destruct (is_empty ms); reflexivity|].
    replace (is_empty day) with false
      by (destruct day; [discriminate Hday|reflexivity]).
    replace (group_or "doy" "0" _) with day by (destruct (is_empty ms); reflexivity).
    apply parseInt_field with 2%nat. assumption. }
  assert (Gg : group_or "sign" "" (tag_captures sg day h mi sec ms) = sg).
  { unfold tag_captures. destruct (is_empty ms), (is_empty day); reflexivity. }
  cbv zeta. rewrite Gh, Gm, Gs, Gx, Gd, Gg.
  rewrite (parseInt_field 1 h Hh), (parseInt_field 1 mi Hmi), (parseInt_field 1 sec Hsec).
  do 3 f_equal. destruct Hsg as [->|[->| ->]]; reflexivity.
Qed.

(** X3.  A duration tag is a valid [EPOCH] time, and [parseDurationString] reads
    its parts: the days, hours, minutes, seconds and milliseconds are the
    numbers written in the tag (0 where the part is left out), the years
    and microseconds are 0, and [isNegative] tells whether the sign is a
    minus. *)
Theorem parseDurationString_duration_tag (sg day t h mi sec ms : string) (units : Units) :
  tag_parts sg day t h mi sec ms = true ->
  validateTime (duration_tag sg day t h mi sec ms) TimeTypes.EPOCH = true
  /\ parseDurationString (duration_tag sg day t h mi sec ms) units
     = Ok (ParsedDuration
             {| days := num (digits_val 0 day); hours := num (digits_val 0 h);
                isNegative := String.eqb sg "-"; microseconds := num 0;
                milliseconds := num (digits_val 0 ms);
                minutes := num (digits_val 0 mi);
                seconds := num (digits_val 0 sec); years := num 0 |}).
Proof.
  intros H. split; [apply duration_tag_valid | apply duration_tag_parsed]; exact H.
Qed.

(** The example of the documentation. *)
Lemma parseDurationString_duration_tag_witness :
  validateTime "-002T00:45:00.010" TimeTypes.EPOCH = true
  /\ parseDurationString "-002T00:45:00.010" u_microseconds
     = Ok (ParsedDuration
             {| days := num 2; hours := num 0; isNegative := true;
                microseconds := num 0; milliseconds := num 10; minutes := num 45;
                seconds := num 0; years := num 0 |}).
Proof.
  apply (parseDurationString_duration_tag "-" "002" "T" "00" "45" "00" "010" u_microseconds).
  reflexivity.
Defined.

End DurationTags.

(* ================================================================== *)
(** * The day of the year *)
(* ================================================================== *)

Section DayOfYear.
Import Js JsDate Time.
#[local] Open Scope Z_scope.

(** The instants from the start of the year 100 to the last time value. *)
Definition from_year_100 (x : Z) : Prop :=
  TimeFromYear 100 <= x <= 8640000000000000.

Lemma from_year_100_year x :
  from_year_100 x -> 100 <= YearFromTime x <= 275760.
Proof.
  unfold from_year_100, TimeFromYear. intros Hx.
  pose proof (YearFromTime_spec x) as S.
  assert (D : DayFromYear 100 <= Day x < DayFromYear 275761).
  { unfold Day, msPerDay in *.
    let v := eval vm_compute in (DayFromYear 100) in change (DayFromYear 100) with v in *.
    let v := eval vm_compute in (DayFromYear 275761) in change (DayFromYear 275761) with v.
    Z.div_mod_to_equations. lia. }
  split.
  - destruct (Z_lt_le_dec (YearFromTime x) 100) as [L|L]; [|assumption].
    pose proof (DayFromYear_mono (YearFromTime x + 1) 100 ltac:(lia)). lia.
  - destruct (Z_lt_le_dec 275760 (YearFromTime x)) as [L|L]; [|assumption].
    pose proof (DayFromYear_mono 275761 (YearFromTime x) ltac:(lia)). lia.
Qed.

(** [Date.UTC(year, 0, 0)]: the last day of the year before. *)
Lemma UTC_year_start y :
  100 <= y <= 275760 ->
  UTC (num y) (num 0) (num 0) (num 0) (num 0) (num 0) (num 0)
  = num ((DayFromYear y - 1) * msPerDay).
Proof.
  intros Hy. unfold UTC. rewrite !toInteger_num.
  assert (E : (0 <=? y) && (y <=? 99) = false).
  { apply andb_false_iff. right. apply Z.leb_gt. lia. }
  rewrite E. unfold MakeDate, MakeDay, MakeTime.
  change (0 / 12) with 0. change (0 mod 12) with 0.
  rewrite Z.add_0_r. cbn [DaysBeforeMonth].
  match goal with
  | |- TimeClip ?e = _ =>
      replace e with ((DayFromYear y - 1) * msPerDay)
        by (rewrite ?Z.add_0_r; unfold msPerHour, msPerMinute, msPerSecond; ring)
  end.
  apply TimeClip_in_range.
  pose proof (DayFromYear_mono 100 y ltac:(lia)) as L.
  pose proof (DayFromYear_mono y 275760 ltac:(lia)) as U.
  let v := eval vm_compute in (DayFromYear 100) in
    change (DayFromYear 100) with v in L.
  let v := eval vm_compute in (DayFromYear 275760) in
    change (DayFromYear 275760) with v in U.
  unfold msPerDay. lia.
Qed.

(** X4.  For every instant [x] from the year 100 on, [getDoy] is the number of
    the day of [x] in its year, counted from 1: it lies between 1 and the
    number of days of the year, and [x] falls in that day. *)
Theorem getDoy_day_of_year (x : Z) :
  from_year_100 x ->
  exists d,
    getDoy (newDate (num x)) = num d
    /\ 1 <= d <= DaysInYear (YearFromTime x)
    /\ TimeFromYear (YearFromTime x) + (d - 1) * msPerDay <= x
       < TimeFromYear (YearFromTime x) + d * msPerDay.
Proof.
  intros Hx. pose proof (from_year_100_year x Hx) as HY.
  pose proof (YearFromTime_spec x) as S.
  exists (Day x - DayFromYear (YearFromTime x) + 1).
  split; [|split].
  - assert (N : newDate (num x) = num x).
    { unfold newDate, num. rewrite Qtrunc_inject_Z. apply TimeClip_in_range.
      unfold from_year_100, TimeFromYear, msPerDay in Hx.
      let v := eval vm_compute in (DayFromYear 100) in
        change (DayFromYear 100) with v in Hx.
      lia. }
    rewrite N. unfold getDoy, getUTCFullYear, getTime. rewrite on_time_num.
    rewrite (UTC_year_start _ HY), nsub_num, floor_ndiv_num by lia. f_equal.
    unfold Day, msPerDay.
    generalize (DayFromYear (YearFromTime x)). intros k.
    Z.div_mod_to_equations. lia.
  - unfold DaysInYear. lia.
  - unfold TimeFromYear, Day, msPerDay in *.
    generalize dependent (DayFromYear (YearFromTime x)). intros k.
    generalize (DayFromYear (YearFromTime x + 1)). intros k'.
    intros. Z.div_mod_to_equations. lia.
Qed.

(** The example of the documentation: the third of January. *)
Lemma getDoy_day_of_year_witness :
  exists d,
    getDoy (newDate (num 1546473600000)) = num d
    /\ 1 <= d <= DaysInYear (YearFromTime 1546473600000)
    /\ TimeFromYear (YearFromTime 1546473600000) + (d - 1) * msPerDay <= 1546473600000
       < TimeFromYear (YearFromTime 1546473600000) + d * msPerDay.
Proof.
  apply (getDoy_day_of_year 1546473600000).
  unfold from_year_100. vm_compute. split; discriminate.
Defined.

End DayOfYear.

(* ================================================================== *)
(** * Absolute time tags *)
(* ================================================================== *)

Section AbsoluteTags.
Import Js Re JsDate Time Spec.

(** The text of a timestamp: a year of four digits, a day of three, hours,
    minutes and seconds of two, and a point with three digits of
    milliseconds or nothing. *)
Definition timestamp (y d h mi s ms : string) : string :=
  y ++ "-" ++ d ++ "T" ++ h ++ ":" ++ mi ++ ":" ++ s
    ++ (if is_empty ms then "" else "." ++ ms).

Definition timestamp_parts (y d h mi s ms : string) : bool :=
  is_field 4 y && is_field 3 d && is_field 2 h && is_field 2 mi && is_field 2 s
  && (is_empty ms || is_field 3 ms).

Ltac timestamp_cases H :=
  unfold timestamp_parts in H;
  repeat match type of H with
         | _ && _ = true =>
             let H' := fresh "P" in apply andb_prop in H as [H H']
         end;
  repeat match goal with
         | P : _ || _ = true |- _ => apply orb_prop in P as [P|P]
         | P : is_empty _ = true |- _ => apply is_empty_true in P as ->
         | P : is_field 2 _ = true |- _ =>
             let a := fresh "a" in let b := fresh "b" in
             let Ha := fresh "Ha" in let Hb := fresh "Hb" in
             apply field2_chars in P as (a & b & -> & Ha & Hb)
         | P : is_field 3 _ = true |- _ =>
             let a := fresh "a" in let b := fresh "b" in let c := fresh "c" in
             let Ha := fresh "Ha" in let Hb := fresh "Hb" in let Hc := fresh "Hc" in
             apply field3_chars in P as (a & b & c & -> & Ha & Hb & Hc)
         | P : is_field 4 _ = true |- _ =>
             let a := fresh "a" in let b := fresh "b" in let c := fresh "c" in
             let d := fresh "d" in
             let Ha := fresh "Ha" in let Hb := fresh "Hb" in let Hc := fresh "Hc" in
             let Hd := fresh "Hd" in
             apply field4_chars in P as (a & b & c & d & -> & Ha & Hb & Hc & Hd)
         end.

Lemma timestamp_valid y d h mi s ms :
  timestamp_parts y d h mi s ms = true ->
  test ABSOLUTE_TIME (timestamp y d h mi s ms) = true.
Proof.
  intros H. unfold test.
  timestamp_cases H; unfold timestamp, ABSOLUTE_TIME; cbn [Seqs];
    rewrite exec_Bol; run_steps; reflexivity.
Qed.

Lemma matches_field n i s c i' s' c' :
  matches (Rep n (Chr is_digit)) i s c i' s' c' ->
  exists w, s = w ++ s' /\ is_field n w = true.
Proof.
  intros M. apply matches_Rep in M as (w & -> & L & D).
  exists w. split; [reflexivity|]. unfold is_field. rewrite L, Nat.eqb_refl. exact D.
Qed.

Lemma valid_timestamp t :
  test ABSOLUTE_TIME t = true ->
  exists y d h mi s ms, timestamp_parts y d h mi s ms = true /\ t = timestamp y d h mi s ms.
Proof.
  unfold test. destruct (exec ABSOLUTE_TIME t) as [m|] eqn:E; [intros _|discriminate].
  destruct (exec_anchored _ _ _ E eq_refl) as (i' & c & M).
  unfold paren in M. cbn [Seqs] in M.
  destruct M as (i1 & s1 & c1 & My & i2 & s2 & c2 & L1 & i3 & s3 & c3 & Md
                 & i4 & s4 & c4 & L2 & i5 & s5 & c5 & Mh & i6 & s6 & c6 & L3
                 & i7 & s7 & c7 & Mmi & i8 & s8 & c8 & L4 & i9 & s9 & c9 & Ms
                 & i10 & s10 & c10 & Mms & Mend).
  apply matches_field in My as (y & -> & Fy).
  apply matches_Lit in L1 as (-> & _).
  apply matches_field in Md as (d & -> & Fd).
  apply matches_Lit in L2 as (-> & _).
  apply matches_field in Mh as (h & -> & Fh).
  apply matches_Lit in L3 as (-> & _).
  apply matches_field in Mmi as (mi & -> & Fmi).
  apply matches_Lit in L4 as (-> & _).
  apply matches_field in Ms as (s & -> & Fs).
  destruct Mms as [(i11 & s11 & c11 & L5 & Mms)|(_ & -> & _)];
    destruct Mend as (-> & _).
  - apply matches_Lit in L5 as (-> & _).
    apply matches_field in Mms as (ms & -> & Fms).
    exists y, d, h, mi, s, ms. unfold timestamp_parts, timestamp.
    rewrite Fy, Fd, Fh, Fmi, Fs, Fms, orb_true_r.
    split; [reflexivity|].
    rewrite app_nil_r.
    destruct ms; [discriminate Fms|reflexivity].
  - exists y, d, h, mi, s, "". unfold timestamp_parts, timestamp.
    rewrite Fy, Fd, Fh, Fmi, Fs. split; reflexivity.
Qed.

(** X5.  [validateTime] takes as [ABSOLUTE] exactly the timestamps: a year of
    four digits, a day of three, hours, minutes and seconds of two, with
    their marks, and three digits of milliseconds after a point or nothing;
    the numbers themselves are not checked. *)
Theorem validateTime_ABSOLUTE (t : string) :
  validateTime t TimeTypes.ABSOLUTE = true
  <-> exists y d h mi s ms,
        timestamp_parts y d h mi s ms = true /\ t = timestamp y d h mi s ms.
Proof.
  split.
  - apply valid_timestamp.
  - intros (y & d & h & mi & s & ms & H & ->). apply timestamp_valid. exact H.
Qed.

End AbsoluteTags.

(* ================================================================== *)
(** * The timestamps that [getDoyTime] writes *)
(* ================================================================== *)

Section WrittenTimestamps.
Import Js Re JsDate Time Spec.

(** Two digits of which the first is at most [hi]. *)
Definition clock_shape (hi : ascii) (v : string) : bool :=
  match v with
  | String a (String b "") => in_range "0" hi a && is_digit a && is_digit b
  | _ => false
  end.

Definition prints_as_clock (hi : ascii) (n : Z) : bool :=
  let v := padStart 2 "0" (Z_to_string n) in
  clock_shape hi v && (digits_val 0 v =? n)%Z.

Lemma prints_hours n : (0 <= n < 24)%Z -> prints_as_clock "2" n = true.
Proof. apply (checked_range (prints_as_clock "2") 0 24). vm_compute. reflexivity. Qed.

Lemma prints_sixty n : (0 <= n < 60)%Z -> prints_as_clock "5" n = true.
Proof. apply (checked_range (prints_as_clock "5") 0 60). vm_compute. reflexivity. Qed.

Lemma clock_field hi n :
  prints_as_clock hi n = true ->
  clock_shape hi (padStart 2 "0" (toString (num n))) = true
  /\ digits_val 0 (padStart 2 "0" (toString (num n))) = n.
Proof.
  rewrite toString_num. unfold prints_as_clock. intros H.
  apply andb_prop in H as [H1 H2]. apply Z.eqb_eq in H2. auto.
Qed.

Lemma clock_shape_chars hi v :
  clock_shape hi v = true ->
  exists a b, v = String a (String b "")
              /\ in_range "0" hi a = true /\ is_digit a = true /\ is_digit b = true.
Proof.
  unfold clock_shape. destruct v as [|a [|b [|c v]]]; try discriminate.
  intros H. apply andb_prop in H as [H Hb]. apply andb_prop in H as [Hr Ha].
  exists a, b. auto.
Qed.

Lemma clock_shape_field hi v : clock_shape hi v = true -> is_field 2 v = true.
Proof.
  intros H. apply clock_shape_chars in H as (a & b & -> & _ & Ha & Hb).
  unfold is_field. cbn [String.length Nat.eqb all]. rewrite Ha, Hb. reflexivity.
Qed.

(** The parts of the timestamp of an instant of a year of four digits. *)
Lemma getDoyTime_fields x :
  four_digit_year x ->
  exists y d h mi s ms,
    (is_field 4 y = true /\ digits_val 0 y = YearFromTime x)
    /\ (is_field 3 d = true /\ digits_val 0 d = DayWithinYear1 x)
    /\ (clock_shape "2" h = true /\ digits_val 0 h = HourFromTime x)
    /\ (clock_shape "5" mi = true /\ digits_val 0 mi = MinFromTime x)
    /\ (clock_shape "5" s = true /\ digits_val 0 s = SecFromTime x)
    /\ (is_field 3 ms = true /\ digits_val 0 ms = msFromTime x)
    /\ getDoyTime (newDate (num x))
       = timestamp y d h mi s (if (0 <? msFromTime x)%Z then ms else "")
    /\ getDoyTime_opt (newDate (num x)) false = timestamp y d h mi s "".
Proof.
  intros Hx. pose proof (four_digit_year_spec x Hx) as HY.
  pose proof (DayWithinYear1_range x) as HD.
  destruct (time_fields_range x) as (Hh & Hmi & Hs & Hms).
  rewrite (newDate_num x Hx).
  unfold getDoyTime, getDoyTime_opt, getDoyTimeComponents.
  cbn [c_doy c_hours c_mins c_msecs c_secs c_year andb].
  rewrite (getDoy_num x Hx).
  unfold getUTCFullYear, getUTCHours, getUTCMinutes, getUTCSeconds,
    getUTCMilliseconds, getMilliseconds.
  rewrite !on_time_num, ngtb_num.
  assert (Fy := year_field (YearFromTime x) HY).
  assert (HD' : (0 <= DayWithinYear1 x < 1000)%Z) by lia.
  assert (Fd := padded_field 3 (DayWithinYear1 x) (prints_three _ HD')).
  pose proof (clock_field "2" (HourFromTime x) (prints_hours _ Hh)) as Fh.
  pose proof (clock_field "5" (MinFromTime x) (prints_sixty _ Hmi)) as Fmi.
  pose proof (clock_field "5" (SecFromTime x) (prints_sixty _ Hs)) as Fs.
  pose proof (padded_field 3 (msFromTime x) (prints_three _ Hms)) as Fms.
  set (y := toString (num (YearFromTime x))) in *.
  set (d := padStart 3 "0" (toString (num (DayWithinYear1 x)))) in *.
  set (h := padStart 2 "0" (toString (num (HourFromTime x)))) in *.
  set (mi := padStart 2 "0" (toString (num (MinFromTime x)))) in *.
  set (s := padStart 2 "0" (toString (num (SecFromTime x)))) in *.
  set (ms := padStart 3 "0" (toString (num (msFromTime x)))) in *.
  clearbody y d h mi s ms.
  exists y, d, h, mi, s, ms. repeat (split; [assumption|]).
  unfold timestamp. split.
  - destruct (0 <? msFromTime x)%Z.
    + replace (is_empty ms) with false
        by (destruct Fms as [F _]; destruct ms; [discriminate F|reflexivity]).
      apply timestamp_app.
    + cbn [is_empty]. rewrite !app_nil_r. reflexivity.
  - cbn [is_empty]. rewrite !app_nil_r. reflexivity.
Qed.

(** X6.  For every instant of the years 1000 to 9999, what [getDoyTime] writes,
    with the milliseconds or without, is valid as an [ABSOLUTE] time. *)
Theorem getDoyTime_valid (x : Z) :
  four_digit_year x ->
  validateTime (getDoyTime (newDate (num x))) TimeTypes.ABSOLUTE = true
  /\ validateTime (getDoyTime_opt (newDate (num x)) false) TimeTypes.ABSOLUTE = true.
Proof.
  intros Hx.
  destruct (getDoyTime_fields x Hx)
    as (y & d & h & mi & s & ms & [Fy _] & [Fd _] & [Fh _] & [Fmi _] & [Fs _] & [Fms _]
        & -> & ->).
  apply clock_shape_field in Fh, Fmi, Fs.
  split; apply timestamp_valid; unfold timestamp_parts;
    rewrite Fy, Fd, Fh, Fmi, Fs; [|reflexivity].
  destruct (0 <? msFromTime x)%Z; [rewrite Fms; apply orb_true_r|reflexivity].
Qed.

Lemma getDoyTime_valid_witness :
  validateTime (getDoyTime (newDate (num 1577779200000))) TimeTypes.ABSOLUTE = true
  /\ validateTime (getDoyTime_opt (newDate (num 1577779200000)) false) TimeTypes.ABSOLUTE
     = true.
Proof.
  apply (getDoyTime_valid 1577779200000). unfold four_digit_year. lia.
Defined.

End WrittenTimestamps.

(** One test of a character that the hypotheses do not settle: both
    outcomes are followed. *)
Ltac split_test :=
  match goal with
  | |- context [Js.is_char ?x ?a] =>
      is_var a; let E := fresh "E" in destruct (Js.is_char x a) eqn:E
  | |- context [Js.in_range ?l ?h ?a] =>
      is_var a; let E := fresh "E" in destruct (Js.in_range l h a) eqn:E
  end.

Ltac run_cases := run_steps; repeat (split_test; run_steps).

Section ReadBack.
Import Js Re JsDate Time Spec.

Definition calendar_shapes (y d h mi s ms : string) : bool :=
  is_field 4 y && is_field 3 d && clock_shape "2" h && clock_shape "5" mi
  && clock_shape "5" s && (is_empty ms || is_field 3 ms).

Definition clock (h mi s ms : string) : string :=
  h ++ ":" ++ mi ++ ":" ++ s ++ (if is_empty ms then "" else "." ++ ms).

Definition calendar_captures (y d h mi s ms : string) : caps :=
  (("time", clock h mi s ms)
   :: (if is_empty ms then [] else [("dec", String "." ms)])
   ++ [("sec", s); ("min", mi); ("hour", h); ("doy", d); ("year", y)])%list.

Ltac calendar_cases H :=
  unfold calendar_shapes in H;
  repeat match type of H with
         | _ && _ = true =>
             let H' := fresh "P" in apply andb_prop in H as [H H']
         end;
  repeat match goal with
         | P : _ || _ = true |- _ => apply orb_prop in P as [P|P]
         | P : is_empty _ = true |- _ => apply is_empty_true in P as ->
         | P : clock_shape _ _ = true |- _ =>
             let a := fresh "a" in let b := fresh "b" in
             let Hr := fresh "Hr" in let Ha := fresh "Ha" in let Hb := fresh "Hb" in
             apply clock_shape_chars in P as (a & b & -> & Hr & Ha & Hb)
         | P : is_field 3 _ = true |- _ =>
             let a := fresh "a" in let b := fresh "b" in let c := fresh "c" in
             let Ha := fresh "Ha" in let Hb := fresh "Hb" in let Hc := fresh "Hc" in
             apply field3_chars in P as (a & b & c & -> & Ha & Hb & Hc)
         | P : is_field 4 _ = true |- _ =>
             let a := fresh "a" in let b := fresh "b" in let c := fresh "c" in
             let d := fresh "d" in
             let Ha := fresh "Ha" in let Hb := fresh "Hb" in let Hc := fresh "Hc" in
             let Hd := fresh "Hd" in
             apply field4_chars in P as (a & b & c & d & -> & Ha & Hb & Hc & Hd)
         end.

Lemma exec_calendar_timestamp y d h mi s ms :
  calendar_shapes y d h mi s ms = true ->
  exec (doyOrYmdRegex 6) (timestamp y d h mi s ms)
  = Some (calendar_captures y d h mi s ms).
Proof.
  intros H. calendar_cases H;
    unfold timestamp, doyOrYmdRegex, calendar_captures, clock; cbn [Seqs];
    rewrite exec_Bol; run_cases.
  all: reflexivity.
Qed.

Lemma Qfloor_half (k : Z) : Qfloor (inject_Z k + (1 # 2)) = k.
Proof.
  assert (E : (inject_Z k + (1 # 2) == inject_Z (2 * k + 1) / inject_Z 2)%Q).
  { rewrite inject_Z_plus, inject_Z_mult. field. }
  rewrite (Qfloor_comp _ _ E), <- Zdiv_Qdiv.
  Z.div_mod_to_equations. lia.
Qed.

(** The milliseconds read off a fraction of three digits. *)
Lemma fraction_milliseconds ms :
  is_field 3 ms = true ->
  toFixed_value 6 (nmul (parseFloat (String "." ms)) (num 1000)) = num (digits_val 0 ms).
Proof.
  intros F. destruct (is_field_numeral 2 ms F) as [Hne Hd].
  apply is_field_inv in F as [L _].
  rewrite (parseFloat_fraction ms Hne Hd).
  unfold nmul, lift2, num, toFixed_value, decimal_value. f_equal.
  rewrite L. set (v := digits_val 0 ms).
  change (digits_val 0 "") with 0%Z.
  assert (E : (Qred (Qred (inject_Z 1 * (inject_Z 0 + inject_Z v / inject_Z (10 ^ Z.of_nat 3)))
                     * inject_Z 1000) == inject_Z v)%Q).
  { rewrite !Qred_correct. change (10 ^ Z.of_nat 3)%Z with 1000%Z. field. }
  transitivity (Qred (inject_Z v)); [apply Qred_complete | apply Qred_inject_Z].
  set (q := Qred _) in *.
  assert (G : (q * inject_Z (10 ^ Z.of_nat 6) + (1 # 2)
               == inject_Z (v * 10 ^ Z.of_nat 6) + (1 # 2))%Q).
  { rewrite E, inject_Z_mult. reflexivity. }
  rewrite (Qfloor_comp _ _ G), Qfloor_half, inject_Z_mult.
  change (10 ^ Z.of_nat 6)%Z with 1000000%Z. field.
Qed.

(** A timestamp is read as a day-of-year record with its numbers. *)
Lemma calendar_timestamp_parsed y d h mi s ms :
  calendar_shapes y d h mi s ms = true ->
  parseDoyOrYmdTime (timestamp y d h mi s ms)
  = Some (ParsedDoyString
            {| hour := num (digits_val 0 h); min := num (digits_val 0 mi);
               ms := num (digits_val 0 ms); sec := num (digits_val 0 s);
               time := clock h mi s ms; year := num (digits_val 0 y) |}
            (num (digits_val 0 d))).
Proof.
  intros S. unfold parseDoyOrYmdTime, parseDoyOrYmdTime_n.
  rewrite (exec_calendar_timestamp _ _ _ _ _ _ S).
  unfold calendar_shapes in S.
  apply andb_prop in S as [S Fms]. apply andb_prop in S as [S Fs].
  apply andb_prop in S as [S Fmi]. apply andb_prop in S as [S Fh].
  apply andb_prop in S as [Fy Fd].
  apply clock_shape_field in Fh, Fmi, Fs.
  assert (G : forall g, g <> "time" -> g <> "dec" ->
            group g (calendar_captures y d h mi s ms)
            = group g [("sec", s); ("min", mi); ("hour", h); ("doy", d); ("year", y)]).
  { intros g G1 G2. unfold calendar_captures. cbn [group].
    apply String.eqb_neq in G1, G2. rewrite G1.
    destruct (is_empty ms); cbn [app group]; [reflexivity|]. rewrite G2. reflexivity. }
  unfold group_or.
  repeat match goal with
         | |- context [group ?g (calendar_captures y d h mi s ms)] =>
             rewrite (G g) by discriminate
         end.
  cbn [group String.eqb Ascii.eqb Bool.eqb].
  rewrite (parseInt_field 1 h Fh), (parseInt_field 1 mi Fmi), (parseInt_field 1 s Fs),
    (parseInt_field 3 y Fy), (parseInt_field 2 d Fd).
  do 3 f_equal.
  unfold calendar_captures. cbn [group String.eqb Ascii.eqb Bool.eqb].
  apply orb_prop in Fms as [Z0|F3].
  - apply is_empty_true in Z0. subst ms. reflexivity.
  - replace (is_empty ms) with false
      by (destruct ms; [discriminate F3|reflexivity]).
    cbn [app group String.eqb Ascii.eqb Bool.eqb].
    rewrite (fraction_milliseconds ms F3). reflexivity.
Qed.

(** The timestamp of an instant, with the shapes and values of its parts. *)
Lemma getDoyTime_parsed x :
  four_digit_year x ->
  exists front tm,
    getDoyTime (newDate (num x)) = front ++ "T" ++ tm
    /\ String.length front = 8%nat
    /\ parseDoyOrYmdTime (getDoyTime (newDate (num x)))
       = Some (ParsedDoyString
                 {| hour := num (HourFromTime x); min := num (MinFromTime x);
                    ms := num (msFromTime x); sec := num (SecFromTime x);
                    time := tm; year := num (YearFromTime x) |}
                 (num (DayWithinYear1 x))).
Proof.
  intros Hx.
  destruct (getDoyTime_fields x Hx)
    as (y & d & h & mi & s & ms & [Fy Vy] & [Fd Vd] & [Fh Vh] & [Fmi Vmi] & [Fs Vs]
        & [Fms Vms] & E & _).
  rewrite E.
  set (ms' := if (0 <? msFromTime x)%Z then ms else "").
  assert (Fms' : is_empty ms' || is_field 3 ms' = true).
  { subst ms'. destruct (0 <? msFromTime x)%Z; [rewrite Fms; apply orb_true_r|reflexivity]. }
  assert (Vms' : digits_val 0 ms' = msFromTime x).
  { subst ms'. destruct (0 <? msFromTime x)%Z eqn:Z0; [assumption|].
    apply Z.ltb_ge in Z0. pose proof (time_fields_range x). cbn [digits_val]. lia. }
  clearbody ms'.
  exists (y ++ "-" ++ d), (clock h mi s ms'). split; [|split].
  - unfold timestamp, clock. rewrite !app_assoc. reflexivity.
  - apply is_field_inv in Fy as [Ly _]. apply is_field_inv in Fd as [Ld _].
    rewrite length_app. cbn [String.length append]. rewrite Ly, Ld. reflexivity.
  - rewrite calendar_timestamp_parsed, Vy, Vd, Vh, Vmi, Vs, Vms'; [reflexivity|].
    unfold calendar_shapes. rewrite Fy, Fd, Fh, Fmi, Fs, Fms'. reflexivity.
Qed.

(** X7.  Reading back what [getDoyTime] wrote: for every instant of the years
    1000 to 9999, [parseDoyOrYmdTime] of the timestamp of the date is a
    day-of-year record with the UTC year, hours, minutes, seconds and
    milliseconds of the date and with its day of the year, and [time] is
    the text of the timestamp after the [T]. *)
Theorem parseDoyOrYmdTime_getDoyTime (x : Z) :
  four_digit_year x ->
  let date := newDate (num x) in
  exists front tm,
    getDoyTime date = front ++ "T" ++ tm
    /\ String.length front = 8%nat
    /\ parseDoyOrYmdTime (getDoyTime date)
       = Some (ParsedDoyString
                 {| hour := getUTCHours date; min := getUTCMinutes date;
                    ms := getUTCMilliseconds date; sec := getUTCSeconds date;
                    time := tm; year := getUTCFullYear date |}
                 (getDoy date)).
Proof.
  intros Hx date. subst date.
  destruct (getDoyTime_parsed x Hx) as (front & tm & E & L & P).
  exists front, tm. split; [exact E|]. split; [exact L|].
  rewrite P. rewrite (newDate_num x Hx), (getDoy_num x Hx).
  unfold getUTCFullYear, getUTCHours, getUTCMinutes, getUTCSeconds, getUTCMilliseconds.
  rewrite !on_time_num. reflexivity.
Qed.

Lemma parseDoyOrYmdTime_getDoyTime_witness :
  exists front tm,
    getDoyTime (newDate (num 1577779200123)) = front ++ "T" ++ tm
    /\ String.length front = 8%nat
    /\ parseDoyOrYmdTime (getDoyTime (newDate (num 1577779200123)))
       = Some (ParsedDoyString
                 {| hour := getUTCHours (newDate (num 1577779200123));
                    min := getUTCMinutes (newDate (num 1577779200123));
                    ms := getUTCMilliseconds (newDate (num 1577779200123));
                    sec := getUTCSeconds (newDate (num 1577779200123));
                    time := tm;
                    year := getUTCFullYear (newDate (num 1577779200123)) |}
                 (getDoy (newDate (num 1577779200123)))).
Proof.
  apply (parseDoyOrYmdTime_getDoyTime 1577779200123). unfold four_digit_year. lia.
Defined.

End ReadBack.

(* ================================================================== *)
(** * Balanced durations *)
(* ================================================================== *)

Section BalancedDurations.
Import Js Re JsDate Time Spec.
#[local] Open Scope Z_scope.

Lemma nmul_num a b : nmul (num a) (num b) = num (a * b).
Proof.
  unfold nmul, lift2, num. f_equal.
  transitivity (Qred (inject_Z (a * b))); [apply Qred_complete | apply Qred_inject_Z].
  rewrite inject_Z_mult. reflexivity.
Qed.

Lemma Math_floor_num a : Math_floor (num a) = num a.
Proof. unfold Math_floor, num. rewrite Qfloor_Z. reflexivity. Qed.

Lemma Math_max_num a b : Math_max (num a) (num b) = num (Z.max a b).
Proof.
  unfold Math_max, num. destruct (Qle_bool (inject_Z a) (inject_Z b)) eqn:E.
  - apply Qle_bool_iff in E. rewrite <- Zle_Qle in E. rewrite Z.max_r by assumption.
    reflexivity.
  - assert (L : ~ a <= b).
    { intros L. rewrite Zle_Qle in L. apply Qle_bool_iff in L. congruence. }
    rewrite Z.max_l by lia. reflexivity.
Qed.

(** A number with [k] digits at least, zeros in front. *)
Definition pad (k : nat) (n : Z) : string := padStart k "0" (toString (num n)).

(** The milliseconds times 1000 print as the milliseconds followed by
    three zeros, when they are 0 or have three digits. *)
Definition prints_scaled (n : Z) : bool :=
  ((0 <? n) && (n <? 100))
  || String.eqb (padStart 3 "0" (Z_to_string (n * 1000)))
                (padStart 3 "0" (Z_to_string n) ++ (if n =? 0 then "" else "000")).

Lemma prints_milliseconds_scaled n :
  0 <= n < 1000 -> n = 0 \/ 100 <= n ->
  pad 3 (n * 1000) = pad 3 n ++ (if n =? 0 then "" else "000").
Proof.
  intros Hn Hr.
  pose proof (checked_range prints_scaled 0 1000 ltac:(vm_compute; reflexivity) n Hn) as P.
  unfold prints_scaled in P. apply orb_prop in P as [P|P].
  - apply andb_prop in P as [P1 P2]. apply Z.ltb_lt in P1, P2. lia.
  - apply String.eqb_eq in P. unfold pad. rewrite !toString_num. exact P.
Qed.

Lemma pad_field k n : prints_as_field k k n = true ->
  is_field k (pad k n) = true /\ digits_val 0 (pad k n) = n.
Proof. apply padded_field. Qed.

(** The instant that stands for a duration: the text that
    [convertDurationToDoy] writes, read by [getUnixEpochTime]. *)
Lemma duration_instant D H M S ms negative :
  0 <= D < 1000 -> 0 <= H < 100 -> 0 <= M < 100 -> 0 <= S < 100 ->
  0 <= ms < 1000 -> ms = 0 \/ 100 <= ms ->
  getUnixEpochTime
    (convertDurationToDoy
       (ParsedDuration {| days := num D; hours := num H; isNegative := negative;
                          microseconds := num 0; milliseconds := num ms;
                          minutes := num M; seconds := num S; years := num 0 |}))
  = num ((Z.max 1 D - 1) * msPerDay + MakeTime H M S ms).
Proof.
  intros HD HH HM HS Hms Hr.
  unfold convertDurationToDoy.
  cbn [duration_prop days hours minutes seconds milliseconds years toNumber_opt
       toString_opt is_zero].
  change (neqb (num 0) (num 0)) with true. cbv iota.
  rewrite Math_floor_num, Math_max_num, nmul_num.
  fold (pad 3 (Z.max 1 D)). fold (pad 2 H). fold (pad 2 M). fold (pad 2 S).
  fold (pad 3 (ms * 1000)).
  rewrite (prints_milliseconds_scaled ms Hms Hr).
  destruct (pad_field 3 (Z.max 1 D)) as [Fd Vd]; [apply prints_three; lia|].
  destruct (pad_field 2 H) as [Fh Vh]; [apply prints_two; lia|].
  destruct (pad_field 2 M) as [Fm Vm]; [apply prints_two; lia|].
  destruct (pad_field 2 S) as [Fs Vs]; [apply prints_two; lia|].
  destruct (pad_field 3 ms) as [Fx Vx]; [apply prints_three; lia|].
  set (d := pad 3 (Z.max 1 D)) in *. set (h := pad 2 H) in *.
  set (mi := pad 2 M) in *. set (s := pad 2 S) in *. set (x := pad 3 ms) in *.
  clearbody d h mi s x.
  set (post := if ms =? 0 then "" else "000").
  destruct (run_timestamp "1970" d h mi s (String "." (x ++ post)) 0%nat []
              eq_refl Fd Fh Fm Fs) as (j & R).
  rewrite (msecs_tail_present x post j _ Fx) in R.
  etransitivity;
    [eapply (getUnixEpochTime_of_captures _ _ "1970" d h mi s x _ _ _ _ _ _ R);
     try reflexivity; try (eapply is_field_numeral; eassumption);
     try (split; [discriminate|reflexivity])|].
  rewrite Vd, Vh, Vm, Vs, Vx.
  change (digits_val 0 "1970") with 1970.
  rewrite UTC_fields by lia.
  change (DayFromYear 1970) with 0. rewrite Z.add_0_l. reflexivity.
Qed.

Lemma year_1970 x : 0 <= x < 365 * msPerDay -> YearFromTime x = 1970.
Proof.
  intros Hx. pose proof (YearFromTime_spec x) as S.
  assert (D : 0 <= Day x < 365).
  { unfold Day, msPerDay in *. Z.div_mod_to_equations. lia. }
  destruct (Z.lt_trichotomy (YearFromTime x) 1970) as [L|[E|G]]; [|exact E|].
  - pose proof (DayFromYear_mono (YearFromTime x + 1) 1970 ltac:(lia)) as M.
    change (DayFromYear 1970) with 0 in M. lia.
  - pose proof (DayFromYear_mono 1971 (YearFromTime x) ltac:(lia)) as M.
    change (DayFromYear 1971) with 365 in M. lia.
Qed.

Lemma shift_field a k m b :
  0 < b -> ((a - k * m * b) / b) mod m = (a / b) mod m.
Proof.
  intros Hb. replace (a - k * m * b) with (a + (- (k * m)) * b) by ring.
  rewrite Z.div_add by lia.
  replace (a / b + - (k * m)) with (a / b + (- k) * m) by ring.
  apply Z_mod_plus_full.
Qed.

Lemma field_value k v : is_field k v = true -> 0 <= digits_val 0 v < 10 ^ Z.of_nat k.
Proof.
  intros F. apply is_field_inv in F as [L D].
  pose proof (digits_val_bound v 0 D ltac:(lia)) as B. rewrite L in B. lia.
Qed.

(** The length of a duration tag in milliseconds. *)
Definition tag_milliseconds (day h mi sec ms : string) : Z :=
  (((digits_val 0 day * 24 + digits_val 0 h) * 60 + digits_val 0 mi) * 60
   + digits_val 0 sec) * 1000 + digits_val 0 ms.

(** A number of milliseconds below a year as a balanced duration tag: the
    days are left out when there are none, the milliseconds are always
    written. *)
Definition balanced_text (negative : bool) (total : Z) : string :=
  (if negative then "-" else "")
  ++ (if total / msPerDay =? 0 then "" else pad 3 (total / msPerDay) ++ "T")
  ++ pad 2 ((total / msPerHour) mod 24) ++ ":"
  ++ pad 2 ((total / msPerMinute) mod 60) ++ ":"
  ++ pad 2 ((total / msPerSecond) mod 60) ++ "."
  ++ pad 3 (total mod msPerSecond).

Lemma duration_tag_balanced (sg day t h mi sec ms : string) :
  tag_parts sg day t h mi sec ms = true ->
  digits_val 0 ms = 0 \/ 100 <= digits_val 0 ms ->
  tag_milliseconds day h mi sec ms < 365 * msPerDay ->
  getBalancedDuration (duration_tag sg day t h mi sec ms)
  = Ok (balanced_text (String.eqb sg "-") (tag_milliseconds day h mi sec ms)).
Proof.
  intros P Hr Hy.
  destruct (tag_parts_fields _ _ _ _ _ _ _ P) as (_ & Hday & Hh & Hmi & Hsec & Hms).
  assert (BD : 0 <= digits_val 0 day < 1000).
  { destruct Hday as [->|F]; [cbn [digits_val]; lia|apply (field_value 3 day F)]. }
  assert (BX : 0 <= digits_val 0 ms < 1000).
  { destruct Hms as [->|F]; [cbn [digits_val]; lia|apply (field_value 3 ms F)]. }
  pose proof (field_value 2 h Hh) as BH. pose proof (field_value 2 mi Hmi) as BM.
  pose proof (field_value 2 sec Hsec) as BS.
  change (10 ^ Z.of_nat 2) with 100 in *.
  unfold getBalancedDuration. rewrite (duration_tag_parsed _ _ _ _ _ _ _ u_seconds P).
  rewrite duration_instant by assumption.
  unfold tag_milliseconds in *.
  set (D := digits_val 0 day) in *. set (H := digits_val 0 h) in *.
  set (M := digits_val 0 mi) in *. set (S := digits_val 0 sec) in *.
  set (X := digits_val 0 ms) in *. clearbody D H M S X.
  set (total := (((D * 24 + H) * 60 + M) * 60 + S) * 1000 + X) in *.
  set (x := (Z.max 1 D - 1) * msPerDay + MakeTime H M S X).
  assert (Ex : x = total - (if 0 <? D then msPerDay else 0)).
  { subst x total. unfold MakeTime, msPerDay, msPerHour, msPerMinute, msPerSecond.
    destruct (0 <? D) eqn:E; [apply Z.ltb_lt in E|apply Z.ltb_ge in E]; lia. }
  assert (Bx : 0 <= x < 365 * msPerDay).
  { rewrite Ex. subst total. unfold msPerDay in *.
    destruct (0 <? D) eqn:E; [apply Z.ltb_lt in E|apply Z.ltb_ge in E]; lia. }
  assert (Fx : four_digit_year x).
  { unfold four_digit_year. unfold msPerDay in Bx. lia. }
  destruct (getDoyTime_parsed x Fx) as (front & tm & _ & _ & R). rewrite R.
  cbn [duration_prop doy_prop partial_prop days isNegative duration_isNegative
       Time.hour Time.min Time.sec Time.ms toNumber_opt toString_opt].
  unfold greater. cbn [toNumber_opt]. rewrite !ngtb_num.
  unfold DayWithinYear1. rewrite (year_1970 x Bx).
  change (DayFromYear 1970) with 0. rewrite Z.sub_0_r.
  set (c := if 0 <? D then 1 else 0) in *.
  assert (Ex' : x = total - c * msPerDay).
  { rewrite Ex. subst c. destruct (0 <? D); lia. }
  assert (Eh : HourFromTime x = (total / msPerHour) mod 24).
  { rewrite Ex'. unfold HourFromTime, msPerDay, msPerHour.
    replace (c * 86400000) with (c * 24 * 3600000) by ring.
    apply shift_field; lia. }
  assert (Em : MinFromTime x = (total / msPerMinute) mod 60).
  { rewrite Ex'. unfold MinFromTime, msPerDay, msPerMinute.
    replace (c * 86400000) with (24 * c * 60 * 60000) by ring.
    apply shift_field; lia. }
  assert (Es : SecFromTime x = (total / msPerSecond) mod 60).
  { rewrite Ex'. unfold SecFromTime, msPerDay, msPerSecond.
    replace (c * 86400000) with (1440 * c * 60 * 1000) by ring.
    apply shift_field; lia. }
  assert (Ems : msFromTime x = total mod msPerSecond).
  { rewrite Ex'. unfold msFromTime, msPerDay, msPerSecond.
    replace (total - c * 86400000) with (total + (- (c * 86400)) * 1000) by ring.
    apply Z_mod_plus_full. }
  assert (Ed : Day x = total / msPerDay - c).
  { rewrite Ex'. unfold Day.
    replace (total - c * msPerDay) with (total + (- c) * msPerDay) by ring.
    rewrite Z.div_add by (unfold msPerDay; lia). lia. }
  assert (T0 : 0 <= total / msPerDay).
  { apply Z.div_pos; [|unfold msPerDay; lia]. subst total. lia. }
  assert (T1 : 0 < D -> 1 <= total / msPerDay).
  { intros HD. apply Z.div_le_lower_bound; [unfold msPerDay; lia|].
    subst total. unfold msPerDay. lia. }
  clearbody total. subst c.
  rewrite Eh, Em, Es, Ems, Ed. unfold balanced_text, pad. do 2 f_equal.
  generalize dependent (total / msPerDay). intros q _ T0 T1.
  destruct (0 <? D) eqn:E0.
  - apply Z.ltb_lt in E0. cbn [orb]. rewrite nsub_num. specialize (T1 E0).
    replace (q =? 0) with false by (symmetry; apply Z.eqb_neq; lia).
    replace (q - 1 + 1 - 0) with q by lia.
    reflexivity.
  - cbn [orb]. rewrite nsub_num.
    replace (q - 0 + 1 - 1) with q by lia.
    destruct (q =? 0) eqn:E1.
    + apply Z.eqb_eq in E1. rewrite E1. reflexivity.
    + apply Z.eqb_neq in E1.
      replace (1 <? q - 0 + 1) with true by (symmetry; apply Z.ltb_lt; lia).
      reflexivity.
Qed.

(** X8.  A duration tag that is shorter than 365 days, and whose milliseconds
    are left out, are 000 or are 100 at least, is balanced to the tag of
    the same length and sign in which the hours are below 24 and the
    minutes and seconds below 60: what is past the range of a field is
    carried to the next one.  The days are left out when there are none,
    and the milliseconds are always written. *)
Theorem getBalancedDuration_balances (sg day t h mi sec ms : string) :
  tag_parts sg day t h mi sec ms = true ->
  digits_val 0 ms = 0 \/ 100 <= digits_val 0 ms ->
  tag_milliseconds day h mi sec ms < 365 * msPerDay ->
  getBalancedDuration (duration_tag sg day t h mi sec ms)
  = Ok (balanced_text (String.eqb sg "-") (tag_milliseconds day h mi sec ms)).
Proof. apply duration_tag_balanced. Qed.

(** The example of the documentation without its milliseconds, and a tag
    with hours past a day. *)
Lemma getBalancedDuration_balances_witness :
  getBalancedDuration "-002T00:60:00" = Ok "-002T01:00:00.000"
  /\ getBalancedDuration "25:61:01.500" = Ok "001T02:01:01.500".
Proof.
  split.
  - apply (getBalancedDuration_balances "-" "002" "T" "00" "60" "00" "");
      [reflexivity | left; reflexivity | reflexivity].
  - apply (getBalancedDuration_balances "" "" "" "25" "61" "01" "500");
      [reflexivity | right; discriminate | reflexivity].
Defined.

End BalancedDurations.

(* ================================================================== *)
(** * Balancing twice *)
(* ================================================================== *)

Section BalancingTwice.
Import Js Re JsDate Time Spec.
#[local] Open Scope Z_scope.

Lemma field_not_empty k v : is_field (S k) v = true -> is_empty v = false.
Proof.
  intros F. apply is_field_inv in F as [L _]. destruct v; [discriminate L|reflexivity].
Qed.

(** A balanced text is a duration tag of the same length. *)
Lemma balanced_text_tag negative total :
  0 <= total < 365 * msPerDay ->
  exists sg day t h mi sec ms,
    balanced_text negative total = duration_tag sg day t h mi sec ms
    /\ tag_parts sg day t h mi sec ms = true
    /\ String.eqb sg "-" = negative
    /\ digits_val 0 ms = total mod 1000
    /\ tag_milliseconds day h mi sec ms = total.
Proof.
  intros Ht. unfold balanced_text.
  assert (BD : 0 <= total / msPerDay < 1000)
    by (unfold msPerDay in *; Z.div_mod_to_equations; lia).
  assert (BH : 0 <= (total / msPerHour) mod 24 < 100)
    by (pose proof (Z.mod_pos_bound (total / msPerHour) 24); lia).
  assert (BM : 0 <= (total / msPerMinute) mod 60 < 100)
    by (pose proof (Z.mod_pos_bound (total / msPerMinute) 60); lia).
  assert (BS : 0 <= (total / msPerSecond) mod 60 < 100)
    by (pose proof (Z.mod_pos_bound (total / msPerSecond) 60); lia).
  assert (BX : 0 <= total mod msPerSecond < 1000)
    by (unfold msPerSecond; pose proof (Z.mod_pos_bound total 1000); lia).
  destruct (pad_field 3 _ (prints_three _ BD)) as [FD VD].
  destruct (pad_field 2 _ (prints_two _ BH)) as [FH VH].
  destruct (pad_field 2 _ (prints_two _ BM)) as [FM VM].
  destruct (pad_field 2 _ (prints_two _ BS)) as [FS VS].
  destruct (pad_field 3 _ (prints_three _ BX)) as [FX VX].
  assert (T : ((((total / msPerDay) * 24 + (total / msPerHour) mod 24) * 60
                + (total / msPerMinute) mod 60) * 60
               + (total / msPerSecond) mod 60) * 1000 + total mod msPerSecond = total).
  { unfold msPerDay, msPerHour, msPerMinute, msPerSecond.
    clear. Z.div_mod_to_equations. lia. }
  exists (if negative then "-" else "").
  destruct (total / msPerDay =? 0) eqn:E.
  - exists "", "", (pad 2 ((total / msPerHour) mod 24)),
      (pad 2 ((total / msPerMinute) mod 60)), (pad 2 ((total / msPerSecond) mod 60)),
      (pad 3 (total mod msPerSecond)).
    unfold duration_tag, tag_parts, tag_milliseconds.
    rewrite (field_not_empty 2 _ FX), FH, FM, FS, FX, VH, VM, VS, VX.
    apply Z.eqb_eq in E. rewrite E in T. cbn [digits_val].
    split; [reflexivity|]. split; [destruct negative; reflexivity|].
    split; [destruct negative; reflexivity|]. split; [reflexivity|exact T].
  - exists (pad 3 (total / msPerDay)), "T", (pad 2 ((total / msPerHour) mod 24)),
      (pad 2 ((total / msPerMinute) mod 60)), (pad 2 ((total / msPerSecond) mod 60)),
      (pad 3 (total mod msPerSecond)).
    unfold duration_tag, tag_parts, tag_milliseconds.
    rewrite (field_not_empty 2 _ FX), FD, FH, FM, FS, FX, VD, VH, VM, VS, VX.
    split; [rewrite <- !app_assoc; reflexivity|].
    split; [destruct negative; rewrite ?orb_true_r; reflexivity|].
    split; [destruct negative; reflexivity|]. split; [reflexivity|exact T].
Qed.

(** X9.  Balancing is idempotent: a duration tag that is shorter than 365 days,
    and whose milliseconds are left out, are 000 or are 100 at least, is
    balanced to a text that [getBalancedDuration] leaves as it is. *)
Theorem getBalancedDuration_idempotent (sg day t h mi sec ms : string) :
  tag_parts sg day t h mi sec ms = true ->
  digits_val 0 ms = 0 \/ 100 <= digits_val 0 ms ->
  tag_milliseconds day h mi sec ms < 365 * msPerDay ->
  exists balanced,
    getBalancedDuration (duration_tag sg day t h mi sec ms) = Ok balanced
    /\ getBalancedDuration balanced = Ok balanced.
Proof.
  intros P Hr Hy.
  exists (balanced_text (String.eqb sg "-") (tag_milliseconds day h mi sec ms)).
  split; [apply duration_tag_balanced; assumption|].
  destruct (tag_parts_fields _ _ _ _ _ _ _ P) as (_ & Hday & Hh & Hmi & Hsec & Hms).
  assert (BD : 0 <= digits_val 0 day < 1000).
  { destruct Hday as [->|F]; [cbn [digits_val]; lia|apply (field_value 3 day F)]. }
  assert (BX : 0 <= digits_val 0 ms < 1000).
  { destruct Hms as [->|F]; [cbn [digits_val]; lia|apply (field_value 3 ms F)]. }
  pose proof (field_value 2 h Hh) as BH. pose proof (field_value 2 mi Hmi) as BM.
  pose proof (field_value 2 sec Hsec) as BS.
  change (10 ^ Z.of_nat 2) with 100 in *.
  assert (B0 : 0 <= tag_milliseconds day h mi sec ms) by (unfold tag_milliseconds; nia).
  assert (R : tag_milliseconds day h mi sec ms mod 1000 = digits_val 0 ms).
  { unfold tag_milliseconds. rewrite Z.add_comm, Z_mod_plus_full. apply Z.mod_small. lia. }
  destruct (balanced_text_tag (String.eqb sg "-") _ (conj B0 Hy))
    as (sg' & day' & t' & h' & mi' & sec' & ms' & E & P' & S' & X' & T').
  rewrite E at 1. rewrite (duration_tag_balanced _ _ _ _ _ _ _ P').
  - rewrite S', T', E. reflexivity.
  - rewrite X', R. exact Hr.
  - rewrite T'. exact Hy.
Qed.

(** The example of the documentation without its milliseconds: what it is
    balanced to stays as it is. *)
Lemma getBalancedDuration_idempotent_witness :
  exists balanced,
    getBalancedDuration "-002T00:60:00" = Ok balanced
    /\ getBalancedDuration balanced = Ok balanced.
Proof.
  apply (getBalancedDuration_idempotent "-" "002" "T" "00" "60" "00" "");
    [reflexivity | left; reflexivity | reflexivity].
Defined.

End BalancingTwice.

(* ================================================================== *)
(** * The components of a duration *)
(* ================================================================== *)

Section DurationComponents.
Import Js Time Spec.

Lemma repeat_to_zeros : forall n cur,
  all (is_char "0") cur = true ->
  all (is_char "0") (repeat_to n "0" cur) = true
  /\ String.length (repeat_to n "0" cur) = n.
Proof.
  induction n as [|n IH]; intros cur Hc; cbn [repeat_to]; [split; reflexivity|].
  destruct cur as [|c cur].
  - destruct (IH "" eq_refl) as [A L]. cbn [all String.length]. rewrite A, L.
    split; reflexivity.
  - cbn [all] in Hc. apply andb_prop in Hc as [H0 Hc].
    destruct (IH cur Hc) as [A L]. cbn [all String.length]. rewrite H0, A, L.
    split; reflexivity.
Qed.

Lemma digits_val_zeros : forall z s,
  all (is_char "0") z = true -> digits_val 0 (z ++ s) = digits_val 0 s.
Proof.
  induction z as [|c z IH]; intros s Hz; [reflexivity|].
  cbn [all] in Hz. apply andb_prop in Hz as [H0 Hz].
  unfold is_char in H0. apply Ascii.eqb_eq in H0. subst c.
  cbn [append digits_val]. change (10 * 0 + digit_val "0")%Z with 0%Z. apply IH. exact Hz.
Qed.

Lemma zeros_digits z : all (is_char "0") z = true -> all is_digit z = true.
Proof.
  apply all_weaken. intros x H. unfold is_char in H. apply Ascii.eqb_eq in H.
  subst x. reflexivity.
Qed.

(** A whole number padded with zeros reads as the number and has the
    asked length at least. *)
Lemma pad_reads k n :
  (0 <= n)%Z ->
  parseInt (pad k n) = num n /\ (k <= String.length (pad k n))%nat
  /\ all is_digit (pad k n) = true.
Proof.
  intros Hn. unfold pad. rewrite toString_num.
  destruct (Z_to_string_digits n Hn) as (Hne & Hd & Hv).
  unfold padStart. destruct (k <=? String.length (Z_to_string n))%nat eqn:E.
  - apply Nat.leb_le in E. rewrite (parseInt_digits _ Hne Hd), Hv. auto.
  - apply Nat.leb_gt in E.
    destruct (repeat_to_zeros (k - String.length (Z_to_string n)) "0" eq_refl) as [A L].
    set (z := repeat_to _ "0" "0") in *.
    assert (D : all is_digit (z ++ Z_to_string n) = true).
    { rewrite all_app, (zeros_digits z A), Hd. reflexivity. }
    rewrite parseInt_digits; [|destruct z; [assumption|discriminate]|exact D].
    rewrite (digits_val_zeros z _ A), Hv, length_app, L.
    split; [reflexivity|]. split; [lia|exact D].
Qed.

Lemma neqb_num a b : neqb (num a) (num b) = (a =? b)%Z.
Proof.
  unfold neqb, num. destruct (a =? b)%Z eqn:E.
  - apply Z.eqb_eq in E. subst b. apply Qeq_bool_refl.
  - apply Z.eqb_neq in E. destruct (Qeq_bool (inject_Z a) (inject_Z b)) eqn:Q; [|reflexivity].
    apply Qeq_bool_eq in Q. rewrite inject_Z_injective in Q. contradiction.
Qed.

(** A component is empty, or is a numeral of [k] digits at least that
    reads as [n]. *)
Definition component (k : nat) (n : Z) (text : string) : Prop :=
  parseInt text = num n /\ (k <= String.length text)%nat /\ all is_digit text = true.

(** X10.  The components of a duration whose fields are whole numbers, none
    negative and all below 2^53 (the whole numbers that are read and
    printed exactly, digit by digit): the hours, minutes and seconds are
    numerals of two digits at least and the years of four at least, with
    zeros in front, and they read as the fields; the days, milliseconds and
    microseconds are such numerals of three digits at least when the field
    is not 0, and empty when it is; the sign is a minus or empty. *)
Theorem getDurationTimeComponents_numerals
        (y d h mi s ms us : Z) (negative : bool) :
  (0 <= y < 2 ^ 53)%Z -> (0 <= d < 2 ^ 53)%Z -> (0 <= h < 2 ^ 53)%Z ->
  (0 <= mi < 2 ^ 53)%Z -> (0 <= s < 2 ^ 53)%Z ->
  (0 <= ms < 2 ^ 53)%Z -> (0 <= us < 2 ^ 53)%Z ->
  let c := getDurationTimeComponents
             {| days := num d; hours := num h; isNegative := negative;
                microseconds := num us; milliseconds := num ms; minutes := num mi;
                seconds := num s; years := num y |} in
  component 4 y (dc_years c) /\ component 2 h (dc_hours c)
  /\ component 2 mi (dc_minutes c) /\ component 2 s (dc_seconds c)
  /\ (if (d =? 0)%Z then dc_days c = "" else component 3 d (dc_days c))
  /\ (if (ms =? 0)%Z then dc_milliseconds c = "" else component 3 ms (dc_milliseconds c))
  /\ (if (us =? 0)%Z then dc_microseconds c = "" else component 3 us (dc_microseconds c))
  /\ dc_isNegative c = (if negative then "-" else "").
Proof.
  intros [Hy _] [Hd _] [Hh _] [Hmi _] [Hs _] [Hms _] [Hus _] c. subst c.
  unfold getDurationTimeComponents.
  cbn [days hours isNegative microseconds milliseconds minutes seconds years
       dc_days dc_hours dc_isNegative dc_microseconds dc_milliseconds dc_minutes
       dc_seconds dc_years].
  rewrite !neqb_num. unfold component.
  fold (pad 4 y). fold (pad 2 h). fold (pad 2 mi). fold (pad 2 s).
  fold (pad 3 d). fold (pad 3 ms). fold (pad 3 us).
  repeat split; try (apply pad_reads; assumption).
  - destruct (d =? 0)%Z; [reflexivity|apply pad_reads; assumption].
  - destruct (ms =? 0)%Z; [reflexivity|apply pad_reads; assumption].
  - destruct (us =? 0)%Z; [reflexivity|apply pad_reads; assumption].
Qed.

(** The duration of the example in the documentation. *)
Lemma getDurationTimeComponents_numerals_witness :
  getDurationTimeComponents
    {| days := num 3; hours := num 10; isNegative := false; microseconds := num 0;
       milliseconds := num 0; minutes := num 30; seconds := num 45; years := num 2 |}
  = {| dc_days := "003"; dc_hours := "10"; dc_isNegative := ""; dc_microseconds := "";
       dc_milliseconds := ""; dc_minutes := "30"; dc_seconds := "45";
       dc_years := "0002" |}
  /\ component 4 2 "0002".
Proof.
  split; [reflexivity|].
  apply (getDurationTimeComponents_numerals 2 3 10 30 45 0 0 false); lia.
Defined.

End DurationComponents.

(* ================================================================== *)
(** * The text of the arguments *)
(* ================================================================== *)

Section ArgumentText.
Import Js SeqJson Spec.

(** The base arguments of the sets of a repeat argument, in order. *)
Definition sets_args (sets : list RepeatArgSet) : list BaseArgument :=
  flat_map (fun s => match s with ArgSet l => l | SetNotArray => [] end) sets.

(** An argument of the expected shape whose base arguments render as
    tight texts. *)
Definition plain_arg (a : Argument) : bool :=
  match a with
  | BaseArg b => is_tight (seqJsonBaseArgToSequence b)
  | RepeatArgument (RepeatSets sets) =>
      forallb (fun s => match s with ArgSet l => tight_args l | SetNotArray => false end) sets
  | RepeatArgument ValueNotArray => false
  end.

(** A base argument as it renders; a repeat argument as its base arguments
    between brackets, with one space between two of them. *)
Definition arg_text (a : Argument) : string :=
  match a with
  | BaseArg b => seqJsonBaseArgToSequence b
  | RepeatArgument (RepeatSets sets) =>
      "[" ++ join " " (map seqJsonBaseArgToSequence (sets_args sets)) ++ "]"
  | RepeatArgument ValueNotArray => ""
  end.

Definition args_text (args : Args) : string :=
  String.concat "" (map (fun a => " " ++ arg_text a) args).

Lemma args_text_cons a args : args_text (a :: args) = " " ++ arg_text a ++ args_text args.
Proof.
  unfold args_text. destruct args as [|b args]; cbn [map String.concat].
  - rewrite app_nil_r. reflexivity.
  - rewrite !app_assoc. reflexivity.
Qed.

Lemma join_spaced : forall l a,
  join " " (map seqJsonBaseArgToSequence (a :: l)) = seqJsonBaseArgToSequence a ++ spaced l.
Proof.
  unfold join. induction l as [|b l IH]; intros a.
  - cbn [map String.concat]. unfold spaced. cbn [map String.concat].
    rewrite app_nil_r. reflexivity.
  - rewrite spaced_cons, <- IH. reflexivity.
Qed.

Lemma joined_join l :
  tight_args l = true -> joined "" l = join " " (map seqJsonBaseArgToSequence l).
Proof.
  destruct l as [|a l]; [reflexivity|]. intros H.
  apply tight_args_cons in H as [Ha Hl].
  rewrite join_spaced. unfold joined. rewrite spaced_cons. cbn [append].
  apply trim_space_tight. apply tight_spaced; assumption.
Qed.

Lemma plain_sets sets :
  forallb (fun s => match s with ArgSet l => tight_args l | SetNotArray => false end) sets
  = true ->
  exists ls, sets = map ArgSet ls /\ forallb tight_args ls = true
             /\ sets_args sets = List.concat ls.
Proof.
  induction sets as [|[l|] sets IH]; intros H.
  - exists []. auto.
  - cbn [forallb] in H. apply andb_prop in H as [Hl H].
    destruct (IH H) as (ls & -> & T & E). exists (l :: ls).
    cbn [map forallb List.concat]. rewrite Hl, T. unfold sets_args in *.
    cbn [flat_map]. rewrite E. auto.
  - discriminate H.
Qed.

Lemma tight_concat ls : forallb tight_args ls = true -> tight_args (List.concat ls) = true.
Proof.
  induction ls as [|x l IH]; [reflexivity|]. intros H.
  cbn [forallb List.concat] in *. apply andb_prop in H as [Hx H].
  unfold tight_args in *. rewrite forallb_app, Hx, (IH H). reflexivity.
Qed.

Lemma tight_brackets s : tight ("[" ++ s ++ "]").
Proof.
  split; [discriminate|]. split; [reflexivity|].
  replace ("[" ++ s ++ "]") with (("[" ++ s) ++ "]") by (rewrite app_assoc; reflexivity).
  rewrite trimEnd_app; [reflexivity|discriminate].
Qed.

Lemma tight_arg_text a : plain_arg a = true -> tight (arg_text a).
Proof.
  destruct a as [b|[sets|]]; cbn [plain_arg arg_text]; intros H.
  - apply is_tight_iff. exact H.
  - apply tight_brackets.
  - discriminate H.
Qed.

(** One turn of the loop over the arguments. *)
Lemma arg_body_text r a :
  plain_arg a = true -> arg_body r a = ret (r ++ " " ++ arg_text a).
Proof.
  intros H. pose proof (tight_arg_text a H) as (Hne & _ & Te).
  assert (E : trimEnd (r ++ " " ++ arg_text a) = r ++ " " ++ arg_text a).
  { replace (r ++ " " ++ arg_text a) with ((r ++ " ") ++ arg_text a)
      by (rewrite app_assoc; reflexivity).
    rewrite trimEnd_app; rewrite Te; [reflexivity|assumption]. }
  destruct a as [b|[sets|]]; cbn [plain_arg arg_text] in *; try discriminate H.
  - unfold arg_body. unfold bind. cbn [ret]. rewrite app_assoc, E. reflexivity.
  - destruct (plain_sets sets H) as (ls & -> & T & Es).
    unfold arg_body. rewrite (sets_joined ls "" (or_introl eq_refl) T).
    unfold bind. cbn [ret app].
    rewrite (joined_join _ (tight_concat ls T)), <- Es.
    rewrite app_assoc, E. reflexivity.
Qed.

Lemma args_loop_text : forall args r,
  forallb plain_arg args = true ->
  for_of arg_body args r = ret (r ++ args_text args).
Proof.
  induction args as [|a args IH]; intros r H.
  - cbn [for_of]. unfold args_text. cbn [map String.concat]. rewrite app_nil_r. reflexivity.
  - cbn [forallb] in H. apply andb_prop in H as [Ha H].
    cbn [for_of]. rewrite (arg_body_text r a Ha). unfold bind at 1. cbn [ret].
    rewrite (IH _ H), args_text_cons. cbn [ret app].
    rewrite !app_assoc. reflexivity.
Qed.

Lemma tight_args_text : forall args t,
  tight t -> forallb plain_arg args = true -> tight (t ++ args_text args).
Proof.
  induction args as [|a args IH]; intros t Ht H.
  - unfold args_text. cbn [map String.concat]. rewrite app_nil_r. exact Ht.
  - cbn [forallb] in H. apply andb_prop in H as [Ha H].
    rewrite args_text_cons.
    replace (t ++ " " ++ arg_text a ++ args_text args)
      with ((t ++ " " ++ arg_text a) ++ args_text args)
      by (rewrite !app_assoc; reflexivity).
    apply IH; [|exact H]. apply tight_app; [exact Ht|apply tight_arg_text; exact Ha].
Qed.

Lemma plain_args_text (args : Args) :
  forallb plain_arg args = true ->
  seqJsonArgsToSequence args = (args_text args, []).
Proof.
  intros H. unfold seqJsonArgsToSequence. rewrite (args_loop_text args "" H).
  unfold bind. cbn [ret append app]. f_equal.
  destruct args as [|a args]; [reflexivity|].
  cbn [forallb] in H. apply andb_prop in H as [Ha H].
  rewrite args_text_cons. cbn [append].
  pose proof (tight_args_text args _ (tight_arg_text a Ha) H) as T.
  rewrite (trim_space_tight _ T).
  destruct T as (Hne & _). destruct (arg_text a ++ args_text args); [contradiction|reflexivity].
Qed.

(** X11.  Arguments of the expected shapes whose base arguments render without
    white space around them are written one after the other, each after one
    space; a repeat argument is written as one pair of brackets around the
    base arguments of all its sets; and nothing is logged. *)
Theorem seqJsonArgsToSequence_text (args : Args) :
  forallb plain_arg args = true ->
  seqJsonArgsToSequence args = (args_text args, []).
Proof. apply plain_args_text. Qed.

Lemma seqJsonArgsToSequence_text_witness :
  seqJsonArgsToSequence
    [BaseArg (SymbolArgument "ON");
     RepeatArgument (RepeatSets [ArgSet [NumberArgument (num 1); BooleanArgument true];
                                 ArgSet [NumberArgument (num 2); BooleanArgument false]]);
     BaseArg (HexArgument "0xFF")]
  = (" ON [1 true 2 false] 0xFF", []).
Proof.
  apply (seqJsonArgsToSequence_text
           [BaseArg (SymbolArgument "ON");
            RepeatArgument (RepeatSets [ArgSet [NumberArgument (num 1); BooleanArgument true];
                                        ArgSet [NumberArgument (num 2); BooleanArgument false]]);
            BaseArg (HexArgument "0xFF")]).
  reflexivity.
Defined.

End ArgumentText.

(* ================================================================== *)
(** * The first and the last line of a document *)
(* ================================================================== *)

Section DocumentLines.
Import Js SeqJson Spec.

(** Nothing is pushed after the metadata and the load-and-go directive:
    the document has no steps, immediate commands or hardware commands, and
    no request. *)
Definition nothing_after (d : SeqJson) : bool :=
  match steps d, immediate_commands d, hardware_commands d, requests d with
  | None, None, None, None | None, None, None, Some [] => true
  | _, _, _, _ => false
  end.

Lemma ends_nl_concat l : Forall ends_nl l -> ends_nl (String.concat "" l).
Proof.
  induction 1 as [|x l Hx _ IH]; [left; reflexivity|].
  rewrite concat_cons. apply ends_nl_app; assumption.
Qed.

Lemma ends_nl_nonempty s : ends_nl s -> s <> "" -> endsWith s newline = true.
Proof. intros [->|H] Hne; [contradiction|exact H]. Qed.

Lemma concat_nonempty x l : x <> "" -> String.concat "" (x :: l) <> "".
Proof. rewrite concat_cons. destruct x; [contradiction|discriminate]. Qed.

(** What is pushed from the steps on. *)
Lemma seqn_tail_extra d seqn :
  exists extra,
    fst (seqn_tail d seqn) = (seqn ++ extra)%list
    /\ Forall ends_nl extra
    /\ (if nothing_after d then extra = [] else String.concat "" extra <> "").
Proof.
  exists (tail_parts d). split; [apply seqn_tail_spec|].
  destruct d as [id0 params locs md sts imms hws reqs].
  unfold tail_parts, nothing_after.
  cbn [steps immediate_commands hardware_commands requests].
  assert (Hn : ends_nl nl) by (right; reflexivity).
  assert (Hi : ends_nl ("@IMMEDIATE" ++ nl)) by apply ends_nl_line.
  assert (Hh : ends_nl ("@HARDWARE" ++ nl)) by apply ends_nl_line.
  split.
  - assert (F : forall (A : Type) (f : A -> Log string) l,
              (forall a, ends_nl (fst (f a))) ->
              Forall ends_nl (map (fun a => fst (f a)) l)).
    { intros A f l Hf. apply Forall_forall. intros x I.
      apply in_map_iff in I as (a & <- & _). apply Hf. }
    repeat (apply Forall_app; split).
    + destruct sts as [l|]; [|constructor]. constructor; [assumption|].
      apply Forall_forall. intros x I. apply in_flat_map in I as (a & _ & I).
      revert x I. apply Forall_forall, ends_nl_step.
    + destruct imms; [|constructor].
      constructor; [assumption|]. constructor; [assumption|apply F, ends_nl_immediate].
    + destruct hws; [|constructor].
      constructor; [assumption|]. constructor; [assumption|apply F, ends_nl_hardware].
    + destruct reqs as [l|]; [|constructor]. apply Forall_forall. intros x I.
      apply in_flat_map in I as (r & _ & [<- | [<- | []]]);
        [assumption|apply ends_nl_request].
  - destruct sts; [cbn [app]; apply concat_nonempty; discriminate|].
    destruct imms; [cbn [app]; apply concat_nonempty; discriminate|].
    destruct hws; [cbn [app]; apply concat_nonempty; discriminate|].
    destruct reqs as [[|r l]|]; try reflexivity.
    cbn [app flat_map]. apply concat_nonempty. discriminate.
Qed.

(** The parts that are pushed before the steps: the line of the
    identifier first, then lines, then the directive when [lgo] is set. *)
Lemma seqn_head_lines d md :
  exists base,
    seqn_head d md
    = (ID_line d :: base ++ (if truthy (prop "lgo" md) then [LOAD_AND_GO] else []))%list
    /\ Forall ends_nl base.
Proof.
  unfold seqn_head, push.
  exists ((match parameters d with
           | Some p => [seqJsonVariableToSequence p INPUT_PARAMS]
           | None => []
           end)
          ++ (match locals d with
              | Some l => [seqJsonVariableToSequence l LOCALS]
              | None => []
              end)
          ++ [seqJsonMetadataToSequence (withoutLgo md)])%list.
  split.
  - destruct (parameters d), (locals d), (truthy (prop "lgo" md)); reflexivity.
  - repeat (apply Forall_app; split).
    + destruct (parameters d); constructor; [apply ends_nl_variables|constructor].
    + destruct (locals d); constructor; [apply ends_nl_variables|constructor].
    + constructor; [apply ends_nl_metadata|constructor].
Qed.

(** X12.  The text of a document that has its metadata starts with the line of
    the identifier; and it ends with a line end, unless the load-and-go
    directive, which is written after a line end and not before one, is
    the last thing written: that is when [lgo] is set and there are no
    steps, immediate commands, hardware commands or requests. *)
Theorem seqJsonToSeqn_first_and_last (d : SeqJson) (md : Metadata) :
  s_metadata d = Some md ->
  exists text log rest,
    seqJsonToSeqn d = Returns (text, log)
    /\ text = ID_line d ++ rest
    /\ endsWith text newline = negb (truthy (prop "lgo" md) && nothing_after d).
Proof.
  intros M. unfold seqJsonToSeqn, seqJsonToSeqn_parts. rewrite M.
  destruct (seqn_tail d (seqn_head d md)) as [seqn log] eqn:T.
  destruct (seqn_tail_extra d (seqn_head d md)) as (extra & E & Fe & N).
  rewrite T in E. cbn [fst] in E. subst seqn.
  destruct (seqn_head_lines d md) as (base & -> & Fb).
  assert (HID : ends_nl (ID_line d) /\ ID_line d <> "").
  { unfold ID_line. split; [|discriminate].
    replace ("@ID " ++ dq ++ id d ++ dq ++ nl) with (("@ID " ++ dq ++ id d ++ dq) ++ nl)
      by (rewrite !app_assoc; reflexivity).
    apply ends_nl_line. }
  destruct HID as [HID1 HID2].
  set (ID := ID_line d) in *. clearbody ID.
  unfold join.
  exists (String.concat "" ((ID :: base
                             ++ (if truthy (prop "lgo" md) then [LOAD_AND_GO] else []))
                            ++ extra)%list), log,
    (String.concat "" ((base ++ (if truthy (prop "lgo" md) then [LOAD_AND_GO] else []))
                       ++ extra)%list).
  split; [reflexivity|]. split.
  - cbn [app]. rewrite concat_cons. reflexivity.
  - pose proof (ends_nl_concat _ Fb) as Cb. pose proof (ends_nl_concat _ Fe) as Ce.
    cbn [app]. rewrite concat_cons, !concat_app.
    destruct (truthy (prop "lgo" md)); cbn [andb negb].
    + destruct (nothing_after d).
      * subst extra. cbn [String.concat]. rewrite app_nil_r.
        rewrite <- app_assoc, endsWith_app by discriminate. reflexivity.
      * rewrite <- !app_assoc, endsWith_app by assumption.
        apply ends_nl_nonempty; assumption.
    + cbn [String.concat]. rewrite app_nil_r.
      apply ends_nl_nonempty.
      * apply ends_nl_app; [assumption|]. apply ends_nl_app; assumption.
      * destruct ID; [contradiction|discriminate].
Qed.

Lemma seqJsonToSeqn_first_and_last_witness :
  exists text log rest,
    seqJsonToSeqn flagged_document = Returns (text, log)
    /\ text = ID_line flagged_document ++ rest
    /\ endsWith text newline
       = negb (truthy (prop "lgo" flagged_metadata) && nothing_after flagged_document).
Proof.
  apply (seqJsonToSeqn_first_and_last flagged_document flagged_metadata). reflexivity.
Defined.

End DocumentLines.

(* ================================================================== *)
(** * The text that is written around malformed repeat arguments *)
(* ================================================================== *)

Section WrittenText.
Import Js SeqJson Spec.

(** ** The text of a document, written out

    A second description of the text, to compare the serializer with: it
    has no log and no trimming, and it writes the arguments with
    [args_text], each after one space. *)









(** ** Documents whose base arguments are tight

    Every base argument renders as a text that is not empty and has no
    white space at either end; the malformed shapes are let through. *)




















End WrittenText.

(* ================================================================== *)
(** * The instant of a timestamp *)
(* ================================================================== *)

Section TimestampInstant.
Import Js Re JsDate Time Spec.
#[local] Open Scope Z_scope.

(** The year that [Date.UTC] takes for a year number: the years 0 to 99
    stand for 1900 to 1999. *)
Definition full_year (y : Z) : Z := if y <=? 99 then 1900 + y else y.

Lemma UTC_fields_century y d h mi s ms :
  0 <= y < 10000 -> 0 <= d < 1000 -> 0 <= h < 100 ->
  0 <= mi < 100 -> 0 <= s < 100 -> 0 <= ms < 1000 ->
  UTC (num y) (num 0) (num d) (num h) (num mi) (num s) (num ms)
  = num ((DayFromYear (full_year y) + d - 1) * msPerDay + MakeTime h mi s ms).
Proof.
  intros Hy Hd Hh Hmi Hs Hms. unfold UTC. rewrite !toInteger_num.
  assert (E : (if (0 <=? y) && (y <=? 99) then 1900 + y else y) = full_year y).
  { unfold full_year. replace (0 <=? y) with true by (symmetry; apply Z.leb_le; lia).
    reflexivity. }
  rewrite E.
  assert (B : 100 <= full_year y < 10000).
  { unfold full_year. destruct (y <=? 99) eqn:L;
      [apply Z.leb_le in L|apply Z.leb_gt in L]; lia. }
  generalize dependent (full_year y). intros yr _ B.
  unfold MakeDate, MakeDay.
  change (0 / 12) with 0. change (0 mod 12) with 0.
  rewrite Z.add_0_r. cbn [DaysBeforeMonth]. rewrite Z.add_0_r.
  apply TimeClip_in_range.
  pose proof (DayFromYear_mono 100 yr ltac:(lia)) as L.
  pose proof (DayFromYear_mono yr 10000 ltac:(lia)) as U.
  let v := eval vm_compute in (DayFromYear 100) in
    change (DayFromYear 100) with v in L.
  let v := eval vm_compute in (DayFromYear 10000) in
    change (DayFromYear 10000) with v in U.
  unfold MakeTime, msPerDay, msPerHour, msPerMinute, msPerSecond. lia.
Qed.

(** X13.  [getUnixEpochTime] of a timestamp is the instant that its numbers
    stand for, whatever they are: the day is counted from the start of the
    year, so that day 000 is the last day of the year before and a day past
    the end of the year falls in a later year; hours, minutes and seconds
    past their range carry over; a missing millisecond part counts as 0;
    and a year from 0000 to 0099 is taken as 1900 to 1999. *)
Theorem getUnixEpochTime_timestamp (y d h mi s ms : string) :
  timestamp_parts y d h mi s ms = true ->
  getUnixEpochTime (timestamp y d h mi s ms)
  = num ((DayFromYear (full_year (digits_val 0 y)) + digits_val 0 d - 1) * msPerDay
         + MakeTime (digits_val 0 h) (digits_val 0 mi) (digits_val 0 s) (digits_val 0 ms)).
Proof.
  intros P. unfold timestamp_parts in P.
  apply andb_prop in P as [P Fms]. apply andb_prop in P as [P Fs].
  apply andb_prop in P as [P Fmi]. apply andb_prop in P as [P Fh].
  apply andb_prop in P as [Fy Fd].
  pose proof (field_value 4 y Fy) as By. pose proof (field_value 3 d Fd) as Bd.
  pose proof (field_value 2 h Fh) as Bh. pose proof (field_value 2 mi Fmi) as Bmi.
  pose proof (field_value 2 s Fs) as Bs.
  change (10 ^ Z.of_nat 4) with 10000 in By. change (10 ^ Z.of_nat 3) with 1000 in Bd.
  change (10 ^ Z.of_nat 2) with 100 in *.
  unfold timestamp.
  destruct (run_timestamp y d h mi s (if is_empty ms then "" else "." ++ ms) 0%nat []
              Fy Fd Fh Fmi Fs) as (j & R).
  apply orb_prop in Fms as [Z0|F3].
  - apply is_empty_true in Z0. subst ms. cbn [is_empty] in *.
    rewrite msecs_tail_absent in R.
    etransitivity;
      [eapply (getUnixEpochTime_of_captures _ _ y d h mi s "0" _ _ _ _ _ _ R);
       try reflexivity; try (eapply is_field_numeral; eassumption);
       try apply numeral_zero|].
    change (digits_val 0 "0") with 0. change (digits_val 0 "") with 0.
    apply UTC_fields_century; lia.
  - pose proof (field_value 3 ms F3) as Bms. change (10 ^ Z.of_nat 3) with 1000 in Bms.
    replace (is_empty ms) with false in *
      by (destruct ms; [discriminate F3|reflexivity]).
    cbn [append] in R. rewrite (msecs_tail_at_end ms j _ F3) in R.
    etransitivity;
      [eapply (getUnixEpochTime_of_captures _ _ y d h mi s ms _ _ _ _ _ _ R);
       try reflexivity; try (eapply is_field_numeral; eassumption)|].
    apply UTC_fields_century; lia.
Qed.

(** The example of the documentation; a day and an hour past their range;
    and a year of two digits. *)
Lemma getUnixEpochTime_timestamp_witness :
  getUnixEpochTime "2019-365T08:00:00.000" = num 1577779200000
  /\ getUnixEpochTime "2019-366T24:00:00" = num 1577923200000
  /\ getUnixEpochTime "0070-001T00:00:00" = num 0.
Proof.
  split; [|split].
  - apply (getUnixEpochTime_timestamp "2019" "365" "08" "00" "00" "000"). reflexivity.
  - apply (getUnixEpochTime_timestamp "2019" "366" "24" "00" "00" ""). reflexivity.
  - apply (getUnixEpochTime_timestamp "0070" "001" "00" "00" "00" ""). reflexivity.
Defined.

End TimestampInstant.

(* ================================================================== *)
(** * Calendar dates *)
(* ================================================================== *)

Section CalendarDates.
Import Js Re JsDate Time Spec.

(** A month of two digits, [00] to [12], and a day of two digits, [00] to
    [31], as the pattern has them. *)
Definition month_shape (v : string) : bool :=
  match v with
  | String a (String b "") =>
      (is_char "0" a && is_digit b) || (is_char "1" a && in_range "0" "2" b)
  | _ => false
  end.

Definition day_shape (v : string) : bool :=
  match v with
  | String a (String b "") =>
      (in_range "0" "2" a && is_digit b) || (is_char "3" a && in_range "0" "1" b)
  | _ => false
  end.

(** A calendar date, and the time of day that may follow it. *)
Definition date_text (y mo dd : string) : string := y ++ "-" ++ mo ++ "-" ++ dd.

Definition date_shapes (y mo dd : string) : bool :=
  is_field 4 y && month_shape mo && day_shape dd.

Definition clock_shapes (h mi s ms : string) : bool :=
  clock_shape "2" h && clock_shape "5" mi && clock_shape "5" s
  && (is_empty ms || is_field 3 ms).

Lemma month_shape_cases v :
  month_shape v = true ->
  exists b, is_digit b = true
            /\ (v = String "0" (String b "")
                \/ (v = String "1" (String b "") /\ in_range "0" "2" b = true)).
Proof.
  unfold month_shape. destruct v as [|a [|b [|c v]]]; try discriminate.
  intros H. apply orb_prop in H as [H|H]; apply andb_prop in H as [Ha Hb];
    unfold is_char in Ha; apply Ascii.eqb_eq in Ha; subst a; exists b.
  - auto.
  - split; [apply (in_range_digit "0" "2" b); auto|auto].
Qed.

Lemma day_shape_cases v :
  day_shape v = true ->
  exists a b, is_digit a = true /\ is_digit b = true
              /\ ((v = String a (String b "") /\ in_range "0" "2" a = true)
                  \/ (v = String "3" (String b "") /\ a = "3"%char
                      /\ in_range "0" "1" b = true)).
Proof.
  unfold day_shape. destruct v as [|a [|b [|c v]]]; try discriminate.
  intros H. apply orb_prop in H as [H|H]; apply andb_prop in H as [Ha Hb].
  - exists a, b. split; [apply (in_range_digit "0" "2" a); auto|]. auto.
  - unfold is_char in Ha. apply Ascii.eqb_eq in Ha. subst a. exists "3"%char, b.
    split; [reflexivity|]. split; [apply (in_range_digit "0" "1" b); auto|]. auto.
Qed.

Lemma field_digits k v : is_field (S k) v = true -> numeral v.
Proof. apply is_field_numeral. Qed.

Lemma month_field v : month_shape v = true -> is_field 2 v = true.
Proof.
  intros H. apply month_shape_cases in H as (b & Hb & [->|[-> _]]);
    unfold is_field; cbn [String.length Nat.eqb all]; rewrite Hb; reflexivity.
Qed.

Lemma day_field v : day_shape v = true -> is_field 2 v = true.
Proof.
  intros H. apply day_shape_cases in H as (a & b & Ha & Hb & [[-> _]|[-> _]]);
    unfold is_field; cbn [String.length Nat.eqb all]; rewrite ?Ha, Hb; reflexivity.
Qed.

Definition date_captures (y mo dd : string) : caps :=
  [("day", dd); ("month", mo); ("year", y)].

Definition date_time_captures (y mo dd h mi s ms : string) : caps :=
  (("time", clock h mi s ms)
   :: (if is_empty ms then [] else [("dec", String "." ms)])
   ++ [("sec", s); ("min", mi); ("hour", h); ("day", dd); ("month", mo); ("year", y)])%list.

Ltac date_cases H :=
  unfold date_shapes in H;
  let Hm := fresh "Hm" in let Hd := fresh "Hd" in
  apply andb_prop in H as [H Hd]; apply andb_prop in H as [H Hm];
  apply month_shape_cases in Hm as (? & ? & [->|[-> ?]]);
  apply day_shape_cases in Hd as (? & ? & ? & ? & [[-> ?]|[-> [? ?]]]);
  apply field4_chars in H as (? & ? & ? & ? & -> & ? & ? & ? & ?).

Lemma exec_calendar_date y mo dd :
  date_shapes y mo dd = true ->
  exec (doyOrYmdRegex 6) (date_text y mo dd) = Some (date_captures y mo dd).
Proof.
  intros H. date_cases H; unfold date_text, doyOrYmdRegex, date_captures; cbn [Seqs];
    rewrite exec_Bol; run_cases; reflexivity.
Qed.

Ltac clock_cases H :=
  unfold clock_shapes in H;
  repeat match type of H with
         | _ && _ = true =>
             let H' := fresh "P" in apply andb_prop in H as [H H']
         end;
  repeat match goal with
         | P : _ || _ = true |- _ => apply orb_prop in P as [P|P]
         | P : is_empty _ = true |- _ => apply is_empty_true in P as ->
         | P : clock_shape _ _ = true |- _ =>
             apply clock_shape_chars in P as (? & ? & -> & ? & ? & ?)
         | P : is_field 3 _ = true |- _ =>
             apply field3_chars in P as (? & ? & ? & -> & ? & ? & ?)
         end.

Lemma exec_calendar_date_time y mo dd h mi s ms :
  date_shapes y mo dd = true -> clock_shapes h mi s ms = true ->
  exec (doyOrYmdRegex 6) (date_text y mo dd ++ "T" ++ clock h mi s ms)
  = Some (date_time_captures y mo dd h mi s ms).
Proof.
  intros H C. date_cases H; clock_cases C;
    unfold date_text, clock, doyOrYmdRegex, date_time_captures; cbn [Seqs];
    rewrite exec_Bol; run_cases; reflexivity.
Qed.

(** X14.  A calendar date, written as a year of four digits, a month of two
    from 00 to 12 and a day of two from 00 to 31, is read as a record with
    its year, month and day, and with the time of day that follows it after
    a [T] (hours from 00 to 29, minutes and seconds from 00 to 59, and
    three digits of milliseconds or none); without a time of day the time
    reads as midnight.  The month and the day are read as they are written:
    neither [00] nor a day past the end of the month is refused. *)
Theorem parseDoyOrYmdTime_calendar_date (y mo dd h mi s ms : string) :
  date_shapes y mo dd = true -> clock_shapes h mi s ms = true ->
  parseDoyOrYmdTime (date_text y mo dd)
  = Some (ParsedYmdString
            {| hour := num 0; min := num 0; ms := num 0; sec := num 0;
               time := "00:00:00"; year := num (digits_val 0 y) |}
            (num (digits_val 0 dd)) (num (digits_val 0 mo)))
  /\ parseDoyOrYmdTime (date_text y mo dd ++ "T" ++ clock h mi s ms)
     = Some (ParsedYmdString
               {| hour := num (digits_val 0 h); min := num (digits_val 0 mi);
                  ms := num (digits_val 0 ms); sec := num (digits_val 0 s);
                  time := clock h mi s ms; year := num (digits_val 0 y) |}
               (num (digits_val 0 dd)) (num (digits_val 0 mo))).
Proof.
  intros D C. unfold parseDoyOrYmdTime, parseDoyOrYmdTime_n.
  rewrite (exec_calendar_date _ _ _ D), (exec_calendar_date_time _ _ _ _ _ _ _ D C).
  unfold date_shapes in D. apply andb_prop in D as [D Fd]. apply andb_prop in D as [Fy Fm].
  apply month_field in Fm. apply day_field in Fd.
  unfold clock_shapes in C. apply andb_prop in C as [C Fms]. apply andb_prop in C as [C Fs].
  apply andb_prop in C as [Fh Fmi].
  apply clock_shape_field in Fh, Fmi, Fs.
  split.
  - unfold date_captures, group_or. cbn [group String.eqb Ascii.eqb Bool.eqb].
    rewrite (parseInt_field 3 y Fy), (parseInt_field 1 mo Fm), (parseInt_field 1 dd Fd).
    reflexivity.
  - assert (G : forall g, g <> "time" -> g <> "dec" ->
              group g (date_time_captures y mo dd h mi s ms)
              = group g [("sec", s); ("min", mi); ("hour", h); ("day", dd);
                         ("month", mo); ("year", y)]).
    { intros g G1 G2. unfold date_time_captures. cbn [group].
      apply String.eqb_neq in G1, G2. rewrite G1.
      destruct (is_empty ms); cbn [app group]; [reflexivity|]. rewrite G2. reflexivity. }
    unfold group_or.
    repeat match goal with
           | |- context [group ?g (date_time_captures y mo dd h mi s ms)] =>
               rewrite (G g) by discriminate
           end.
    cbn [group String.eqb Ascii.eqb Bool.eqb].
    rewrite (parseInt_field 1 h Fh), (parseInt_field 1 mi Fmi), (parseInt_field 1 s Fs),
      (parseInt_field 3 y Fy), (parseInt_field 1 mo Fm), (parseInt_field 1 dd Fd).
    do 3 f_equal.
    unfold date_time_captures. cbn [group String.eqb Ascii.eqb Bool.eqb].
    apply orb_prop in Fms as [Z0|F3].
    + apply is_empty_true in Z0. subst ms. reflexivity.
    + replace (is_empty ms) with false
        by (destruct ms; [discriminate F3|reflexivity]).
      cbn [app group String.eqb Ascii.eqb Bool.eqb].
      rewrite (fraction_milliseconds ms F3). reflexivity.
Qed.

Lemma parseDoyOrYmdTime_calendar_date_witness :
  parseDoyOrYmdTime "2024-02-29"
  = Some (ParsedYmdString
            {| hour := num 0; min := num 0; ms := num 0; sec := num 0;
               time := "00:00:00"; year := num 2024 |} (num 29) (num 2))
  /\ parseDoyOrYmdTime "2024-02-29T23:59:58.250"
     = Some (ParsedYmdString
               {| hour := num 23; min := num 59; ms := num 250; sec := num 58;
                  time := "23:59:58.250"; year := num 2024 |} (num 29) (num 2)).
Proof.
  apply (parseDoyOrYmdTime_calendar_date "2024" "02" "29" "23" "59" "58" "250");
    reflexivity.
Defined.

End CalendarDates.

(* ================================================================== *)
(** * Signed and unsigned duration tags *)
(* ================================================================== *)

Section SignedTags.
Import Js Re Time.

(** A pattern with no anchor at the start and no look-ahead: where it
    matches depends neither on the position nor on the groups met before. *)
Fixpoint floating (r : regex) : bool :=
  match r with
  | Eps | Chr _ | Star _ | Eol => true
  | Seq a b | Alt a b => floating a && floating b
  | Opt a | Grp _ a => floating a
  | Bol | NotAhead _ => false
  end.

Lemma matches_floating : forall r i s c i' s' c' j d,
  floating r = true -> matches r i s c i' s' c' ->
  exists n d', i' = (i + n)%nat /\ matches r j s d (j + n)%nat s' d'.
Proof.
  induction r as [|p|a IHa b IHb|a IHa b IHb|a IHa|p|g a IHa| | |a IHa];
    cbn [floating matches]; intros i s c i' s' c' j d F M; try discriminate F.
  - destruct M as (-> & -> & ->). exists 0%nat, d. rewrite !Nat.add_0_r. auto.
  - destruct M as (x & -> & Hx & -> & ->). exists 1%nat, d. rewrite !Nat.add_1_r.
    split; [reflexivity|]. exists x. auto.
  - apply andb_prop in F as [Fa Fb].
    destruct M as (i1 & s1 & c1 & Ma & Mb).
    destruct (IHa _ _ _ _ _ _ j d Fa Ma) as (n1 & d1 & -> & Ma').
    destruct (IHb _ _ _ _ _ _ (j + n1)%nat d1 Fb Mb) as (n2 & d2 & -> & Mb').
    exists (n1 + n2)%nat, d2. rewrite !Nat.add_assoc. split; [reflexivity|].
    exists (j + n1)%nat, s1, d1. auto.
  - apply andb_prop in F as [Fa Fb]. destruct M as [M|M].
    + destruct (IHa _ _ _ _ _ _ j d Fa M) as (n & d' & -> & M'). exists n, d'. auto.
    + destruct (IHb _ _ _ _ _ _ j d Fb M) as (n & d' & -> & M'). exists n, d'. auto.
  - destruct M as [M|(-> & -> & ->)].
    + destruct (IHa _ _ _ _ _ _ j d F M) as (n & d' & -> & M'). exists n, d'. auto.
    + exists 0%nat, d. rewrite !Nat.add_0_r. auto.
  - destruct M as (w & -> & Hw & -> & ->). exists (String.length w), d.
    split; [reflexivity|]. exists w. auto.
  - destruct M as (c1 & M & ->).
    destruct (IHa _ _ _ _ _ _ j d F M) as (n & d' & -> & M').
    exists n, ((g, take (j + n - j) s) :: d'). split; [reflexivity|].
    exists d'. auto.
  - destruct M as (-> & -> & -> & ->). exists 0%nat, d. rewrite !Nat.add_0_r. auto.
Qed.

(** A pattern anchored at the start is tried at the start only. *)
Lemma test_anchored r s :
  test (Seq Bol r) s = true <-> exists i' s' c', matches r 0 s [] i' s' c'.
Proof.
  rewrite test_iff. split.
  - intros (pre & suf & i' & s' & c' & -> & M).
    destruct M as (i1 & s1 & c1 & (L & -> & -> & ->) & M).
    destruct pre; [|discriminate L]. exists i', s', c'. exact M.
  - intros (i' & s' & c' & M). exists "", s, i', s', c'. split; [reflexivity|].
    exists 0%nat, s, []. cbn [matches String.length]. auto.
Qed.

(** [RELATIVE_TIME] and [EPOCH_TIME] have [tag_body] in common: all that
    follows the anchor in the first, and the sign in the second. *)
Lemma RELATIVE_TIME_body : RELATIVE_TIME = Seq Bol tag_body.
Proof. reflexivity. Qed.

Lemma EPOCH_TIME_body :
  EPOCH_TIME = Seq Bol (Seq (paren (Grp "sign" (Opt (Chr is_sign)))) tag_body).
Proof. reflexivity. Qed.

(** A sign as [EPOCH_TIME] takes it: a plus, a minus or nothing. *)
Definition sign_text (sg : string) : Prop := sg = "" \/ sg = "+" \/ sg = "-".

Lemma signed_relative sg r :
  sign_text sg -> validateTime r TimeTypes.RELATIVE = true ->
  validateTime (sg ++ r) TimeTypes.EPOCH = true.
Proof.
  unfold validateTime. rewrite RELATIVE_TIME_body, EPOCH_TIME_body.
  intros Hsg H. apply test_anchored in H as (i' & s' & c' & M).
  apply test_anchored.
  assert (S : exists i1 c1, matches (Grp "sign" (Opt (Chr is_sign))) 0 (sg ++ r) [] i1 r c1).
  { destruct Hsg as [->|[->| ->]].
    - exists 0%nat, [("sign", take (0 - 0) r)]. exists []. split; [right; auto|reflexivity].
    - exists 1%nat, [("sign", take (1 - 0) ("+" ++ r))]. exists [].
      split; [left; exists "+"%char; auto|reflexivity].
    - exists 1%nat, [("sign", take (1 - 0) ("-" ++ r))]. exists [].
      split; [left; exists "-"%char; auto|reflexivity]. }
  destruct S as (i1 & c1 & S).
  destruct (matches_floating tag_body _ _ _ _ _ _ i1 c1 eq_refl M) as (n & d' & _ & M').
  exists (i1 + n)%nat, s', d'. exists i1, r, c1. unfold paren. auto.
Qed.

Lemma unsigned_epoch t :
  validateTime t TimeTypes.EPOCH = true ->
  exists sg r, sign_text sg /\ t = sg ++ r /\ validateTime r TimeTypes.RELATIVE = true.
Proof.
  unfold validateTime. rewrite RELATIVE_TIME_body, EPOCH_TIME_body.
  intros H. apply test_anchored in H as (i' & s' & c' & M).
  destruct M as (i1 & s1 & c1 & (c0 & S & ->) & M).
  destruct (matches_floating tag_body _ _ _ _ _ _ 0%nat [] eq_refl M) as (n & d' & _ & M').
  assert (R : test (Seq Bol tag_body) s1 = true).
  { apply test_anchored. exists (0 + n)%nat, s', d'. exact M'. }
  destruct S as [(a & -> & Ha & _ & _)|(_ & -> & _)].
  - exists (String a ""), s1. split; [|split; [reflexivity|exact R]].
    unfold is_sign, is_char in Ha. apply orb_prop in Ha as [Ha|Ha];
      apply Ascii.eqb_eq in Ha; subst a; unfold sign_text; auto.
  - exists "", t. split; [left; reflexivity|]. split; [reflexivity|exact R].
Qed.

(** X15.  [validateTime] takes as [EPOCH] exactly the [RELATIVE] times with a
    plus, a minus or nothing in front: in particular every [RELATIVE] time
    is an [EPOCH] time as it stands. *)
Theorem validateTime_EPOCH_signed_RELATIVE (t : string) :
  validateTime t TimeTypes.EPOCH = true
  <-> exists sg r, sign_text sg /\ t = sg ++ r
                   /\ validateTime r TimeTypes.RELATIVE = true.
Proof.
  split.
  - apply unsigned_epoch.
  - intros (sg & r & Hsg & -> & H). apply signed_relative; assumption.
Qed.

(** X16.  [parseDOYDurationTime] gives a record for the [EPOCH] times and for no
    other string: the pattern for [RELATIVE] times, tried on what is not an
    [EPOCH] time, never matches. *)
Theorem parseDOYDurationTime_EPOCH (t : string) :
  (exists d, parseDOYDurationTime t = Some d)
  <-> validateTime t TimeTypes.EPOCH = true.
Proof.
  unfold parseDOYDurationTime.
  destruct (validateTime t TimeTypes.EPOCH) eqn:E.
  - split; [reflexivity|intros _].
    unfold validateTime, test in E.
    destruct (exec EPOCH_TIME t) as [m|]; [|discriminate E]. eexists. reflexivity.
  - split; [|discriminate].
    intros (d & H).
    destruct (exec RELATIVE_TIME t) as [m|] eqn:R; [|discriminate H].
    assert (V : validateTime t TimeTypes.RELATIVE = true).
    { unfold validateTime, test. rewrite R. reflexivity. }
    rewrite <- E. exact (signed_relative "" t (or_introl eq_refl) V).
Qed.

End SignedTags.
